(** * Regami backend: matching engine, match lifecycle, live fan-out, messaging

    A shallow embedding of
      - [backend/app/models.py]                 (rows of the store),
      - [backend/app/routers/availability.py]   (matching and the two-way
                                                 confirmation endpoints),
      - [backend/app/routers/websocket.py]      (connection registry and
                                                 receive loop),
      - [backend/app/routers/messages.py]       (direct messages),
    followed by the properties established about them.

    Conventions.  Tables are lists of rows in insertion order; integer
    primary keys are drawn from per-table counters, the counter of a table
    being the key the store issues next (a delete on the default store can
    set it back, see [next_key_after_delete]).  A [datetime] is its
    position on the time line, an integer.  Python exceptions are values of
    [exn]; a handler returns its response together with the store as it is
    committed when the handler ends, so that a handler raising before its
    [db.commit()] returns the store it started from.  The e-mail and push
    sinks ([send_email], the [fcm] helpers) catch their own delivery
    errors and write nothing to the store; they are left out. *)

From Stdlib Require Import ZArith Lia.
From stdpp Require Import gmap strings list sorting.

Local Open Scope Z_scope.

#[local] Set Warnings "-clear-no-such-hyp".

(** ** Rows ([models.py]) *)

Module Models.

Inductive MatchStatus := PENDING | ACCEPTED | CONFIRMED | REJECTED.

#[export] Instance MatchStatus_eq_dec : EqDecision MatchStatus.
Proof. solve_decision. Defined.

(** [MatchStatus.X.value] *)
Definition value (s : MatchStatus) : string :=
  match s with
  | PENDING => "pending"
  | ACCEPTED => "accepted"
  | CONFIRMED => "confirmed"
  | REJECTED => "rejected"
  end.

Record User := mkUser {
  u_id : string;
  u_email : string }.

Record AvailabilityOffer := mkOffer {
  o_id : nat;
  o_user_id : string;
  o_start_at : Z;
  o_end_at : Z }.

Record AvailabilityRequest := mkRequest {
  r_id : nat;
  r_user_id : string;
  r_start_at : Z;
  r_end_at : Z }.

Record Notification := mkNotification {
  n_id : nat;
  n_user_id : string;
  n_message : string;
  n_is_read : bool;
  n_created_at : Z }.

Record Match := mkMatch {
  m_id : nat;
  m_offer_id : nat;
  m_request_id : nat;
  m_status : MatchStatus;
  m_pending_user_id : option string;
  m_created_at : Z;
  m_updated_at : Z }.

Record Message := mkMessage {
  msg_id : nat;
  msg_sender_id : string;
  msg_recipient_id : string;
  msg_content : string;
  msg_is_read : bool;
  msg_created_at : Z }.

End Models.

Export Models.

(** ** The store and the exceptions of the handlers *)

Module Store.

Record Db := mkDb {
  users : list User;
  offers : list AvailabilityOffer;
  requests : list AvailabilityRequest;
  matches : list Match;
  notifications : list Notification;
  messages : list Message;
  next_offer_id : nat;
  next_request_id : nat;
  next_match_id : nat;
  next_notification_id : nat;
  next_message_id : nat }.

Definition empty_db : Db :=
  mkDb [] [] [] [] [] [] 1%nat 1%nat 1%nat 1%nat 1%nat.

Inductive exn :=
| HTTPException (status_code : nat) (detail : string)
| IntegrityError
| AttributeError
| JSONDecodeError
| WebSocketDisconnect
| TransportError.

Inductive result (A : Type) :=
| Ok (a : A)
| Raise (e : exn).

Arguments Ok {A} a.
Arguments Raise {A} e.

(** Sequencing: an exception raised by the first computation skips the
    rest. *)
#[export] Instance result_bind : MBind result := fun A B k r =>
  match r with
  | Ok a => k a
  | Raise e => Raise e
  end.

(** [db.get(User, ident)] *)
Definition get_user (db : Db) (ident : string) : option User :=
  List.find (fun u => bool_decide (u_id u = ident)) (users db).

(** [db.query(AvailabilityOffer).filter(AvailabilityOffer.id == ident).first()],
    also the [offer] relationship of a match. *)
Definition get_offer (db : Db) (ident : nat) : option AvailabilityOffer :=
  List.find (fun o => bool_decide (o_id o = ident)) (offers db).

Definition get_request (db : Db) (ident : nat) : option AvailabilityRequest :=
  List.find (fun r => bool_decide (r_id r = ident)) (requests db).

Definition get_match (db : Db) (ident : nat) : option Match :=
  List.find (fun m => bool_decide (m_id m = ident)) (matches db).

(** [db.add(Notification(user_id=..., message=...))]; [is_read] and
    [created_at] take their column defaults. *)
Definition add_notification (now : Z) (db : Db) (user_id message : string) : Db :=
  mkDb (users db) (offers db) (requests db) (matches db)
       (notifications db ++
          [mkNotification (next_notification_id db) user_id message false now])
       (messages db)
       (next_offer_id db) (next_request_id db) (next_match_id db)
       (S (next_notification_id db)) (next_message_id db).

(** The [uq_offer_request] constraint of [Match.__table_args__]: it spans
    every row of the table, whatever its status. *)
Definition uq_offer_request_taken (db : Db) (offer_id request_id : nat) : bool :=
  existsb (fun m => bool_decide (m_offer_id m = offer_id)
                    && bool_decide (m_request_id m = request_id))
          (matches db).

(** [db.add(match); db.flush()] for a new row: the INSERT is refused when
    [uq_offer_request] is violated. *)
Definition insert_match (db : Db) (m : Match) : result Db :=
  if uq_offer_request_taken db (m_offer_id m) (m_request_id m)
  then Raise IntegrityError
  else Ok (mkDb (users db) (offers db) (requests db) (matches db ++ [m])
                (notifications db) (messages db)
                (next_offer_id db) (next_request_id db) (S (next_match_id db))
                (next_notification_id db) (next_message_id db)).

(** [db.add(match); db.flush()] for a row already loaded: an UPDATE by
    primary key. *)
Definition update_match (db : Db) (m : Match) : Db :=
  mkDb (users db) (offers db) (requests db)
       (map (fun m0 => if bool_decide (m_id m0 = m_id m) then m else m0) (matches db))
       (notifications db) (messages db)
       (next_offer_id db) (next_request_id db) (next_match_id db)
       (next_notification_id db) (next_message_id db).

Definition insert_offer (db : Db) (o : AvailabilityOffer) : Db :=
  mkDb (users db) (offers db ++ [o]) (requests db) (matches db)
       (notifications db) (messages db)
       (S (next_offer_id db)) (next_request_id db) (next_match_id db)
       (next_notification_id db) (next_message_id db).

Definition insert_request (db : Db) (r : AvailabilityRequest) : Db :=
  mkDb (users db) (offers db) (requests db ++ [r]) (matches db)
       (notifications db) (messages db)
       (next_offer_id db) (S (next_request_id db)) (next_match_id db)
       (next_notification_id db) (next_message_id db).

End Store.

Export Store.


(** ** Matching engine and match lifecycle ([routers/availability.py]) *)

Module Availability.

(** [SlotIn] *)
Record SlotIn := mkSlot {
  start_at : Z;
  end_at : Z }.

Definition valid (slot : SlotIn) : bool :=
  bool_decide (end_at slot > start_at slot).

(** [_send_match_email(db, user, template, subject, match)].  The handler
    passes a relationship ([offer.user], [request.user]), which is [None]
    when the row it points to is gone; [user.id] then raises.  The
    notification row is the only write: [template] and [match] feed the
    e-mail alone. *)
Definition _send_match_email (now : Z) (db : Db) (user : option User)
    (template subject : string) (match_ : Match) : result Db :=
  match user with
  | Some user => Ok (add_notification now db (u_id user) subject)
  | None => Raise AttributeError
  end.

(** Statuses of a match that still awaits an answer. *)
Definition non_terminal (s : MatchStatus) : bool :=
  match s with
  | PENDING | ACCEPTED => true
  | CONFIRMED | REJECTED => false
  end.

(** The [existing] query of [_create_match]. *)
Definition existing_match (db : Db) (offer_id request_id : nat) : option Match :=
  List.find (fun m => bool_decide (m_offer_id m = offer_id)
                      && bool_decide (m_request_id m = request_id)
                      && non_terminal (m_status m))
            (matches db).

Definition _create_match (now : Z) (db : Db) (offer : AvailabilityOffer)
    (request : AvailabilityRequest) : result (Match * Db) :=
  match get_offer db (o_id offer), get_request db (r_id request) with
  | Some locked_offer, Some locked_request =>
      match existing_match db (o_id offer) (r_id request) with
      | Some existing => Ok (existing, db)
      | None =>
          let match_ :=
            mkMatch (next_match_id db) (o_id offer) (r_id request)
                    PENDING (Some (o_user_id offer)) now now in
          db1 ← insert_match db match_;
          db2 ← _send_match_email now db1
                  (get_user db1 (o_user_id locked_offer))
                  "email/match_pending.html"
                  "Regami - Nouvelle demande de garde" match_;
          Ok (match_, db2)
      end
  | _, _ => Raise (HTTPException 404 "Offer or request no longer available")
  end.

(** The [for req in requests: try ... except HTTPException: continue] loop
    of [_match_offer]: only an [HTTPException] is caught. *)
Fixpoint _match_offer_loop (now : Z) (db : Db) (offer : AvailabilityOffer)
    (requests : list AvailabilityRequest) (created_matches : list Match)
    : result (list Match * Db) :=
  match requests with
  | [] => Ok (created_matches, db)
  | req :: rest =>
      match _create_match now db offer req with
      | Ok (match_, db') =>
          _match_offer_loop now db' offer rest (created_matches ++ [match_])
      | Raise (HTTPException _ _) =>
          _match_offer_loop now db offer rest created_matches
      | Raise e => Raise e
      end
  end.

(** The candidate query of [_match_offer]. *)
Definition requests_within (db : Db) (offer : AvailabilityOffer)
    : list AvailabilityRequest :=
  List.filter (fun r => bool_decide (r_start_at r >= o_start_at offer)
                        && bool_decide (r_end_at r <= o_end_at offer)
                        && bool_decide (r_user_id r <> o_user_id offer))
              (requests db).

Definition _match_offer (now : Z) (db : Db) (offer : AvailabilityOffer)
    : result (list Match * Db) :=
  _match_offer_loop now db offer (requests_within db offer) [].

Fixpoint _match_request_loop (now : Z) (db : Db) (request : AvailabilityRequest)
    (offers : list AvailabilityOffer) (created_matches : list Match)
    : result (list Match * Db) :=
  match offers with
  | [] => Ok (created_matches, db)
  | off :: rest =>
      match _create_match now db off request with
      | Ok (match_, db') =>
          _match_request_loop now db' request rest (created_matches ++ [match_])
      | Raise (HTTPException _ _) =>
          _match_request_loop now db request rest created_matches
      | Raise e => Raise e
      end
  end.

(** The candidate query of [_match_request]. *)
Definition offers_containing (db : Db) (request : AvailabilityRequest)
    : list AvailabilityOffer :=
  List.filter (fun o => bool_decide (o_start_at o <= r_start_at request)
                        && bool_decide (o_end_at o >= r_end_at request)
                        && bool_decide (o_user_id o <> r_user_id request))
              (offers db).

Definition _match_request (now : Z) (db : Db) (request : AvailabilityRequest)
    : result (list Match * Db) :=
  _match_request_loop now db request (offers_containing db request) [].

(** [create_offer].  [now] is [datetime.utcnow()].  The offer is committed
    before the matching runs; an exception escaping [_match_offer] leaves
    the offer committed and drops what the matching had flushed. *)
Definition create_offer (now : Z) (db : Db) (slot : SlotIn) (current_user : User)
    : result nat * Db :=
  if negb (valid slot) then
    (Raise (HTTPException 400 "Invalid time range"), db)
  else if bool_decide (end_at slot <= now) || bool_decide (start_at slot <= now) then
    (Raise (HTTPException 400 "Time range must be in the future"), db)
  else if existsb (fun o => bool_decide (o_user_id o = u_id current_user)
                            && bool_decide (o_start_at o < end_at slot)
                            && bool_decide (o_end_at o > start_at slot))
                  (offers db) then
    (Raise (HTTPException 400 "Overlapping offer exists"), db)
  else
    let offer := mkOffer (next_offer_id db) (u_id current_user)
                         (start_at slot) (end_at slot) in
    let db1 := insert_offer db offer in
    match _match_offer now db1 offer with
    | Ok (_, db2) => (Ok (o_id offer), db2)
    | Raise e => (Raise e, db1)
    end.

Definition create_request (now : Z) (db : Db) (slot : SlotIn) (current_user : User)
    : result nat * Db :=
  if negb (valid slot) then
    (Raise (HTTPException 400 "Invalid time range"), db)
  else if bool_decide (end_at slot <= now) || bool_decide (start_at slot <= now) then
    (Raise (HTTPException 400 "Time range must be in the future"), db)
  else if existsb (fun r => bool_decide (r_user_id r = u_id current_user)
                            && bool_decide (r_start_at r < end_at slot)
                            && bool_decide (r_end_at r > start_at slot))
                  (requests db) then
    (Raise (HTTPException 400 "Overlapping request exists"), db)
  else
    let req := mkRequest (next_request_id db) (u_id current_user)
                         (start_at slot) (end_at slot) in
    let db1 := insert_request db req in
    match _match_request now db1 req with
    | Ok (_, db2) => (Ok (r_id req), db2)
    | Raise e => (Raise e, db1)
    end.

(** The dictionaries the three transition handlers answer with:
    [{"status": "accepted", "match_id", "pending_user_id"}],
    [{"status": "confirmed", "match_id", "offer_owner_email", "requester_email"}],
    [{"status": "rejected", "match_id"}]. *)
Inductive Transition :=
| Accepted (match_id : nat) (pending_user_id : option string)
| Confirmed (match_id : nat) (offer_owner_email requester_email : string)
| Rejected (match_id : nat).

(** [accept_match]: 404, then the actor check (403), then the state check
    (400), then the mutation and its side effects, then the commit. *)
Definition accept_match (now : Z) (db : Db) (match_id : nat) (current_user : User)
    : result Transition * Db :=
  match get_match db match_id with
  | None => (Raise (HTTPException 404 "Match not found"), db)
  | Some match_ =>
      if bool_decide (m_pending_user_id match_ <> Some (u_id current_user)) then
        (Raise (HTTPException 403 "Not authorized to respond to this match"), db)
      else if bool_decide (m_status match_ <> PENDING) then
        (Raise (HTTPException 400
           ("Cannot accept match in " +:+ value (m_status match_) +:+ " status")), db)
      else
        let run : result (Transition * Db) :=
          match get_request db (m_request_id match_) with
          | None => Raise AttributeError
          | Some request =>
              let match' :=
                mkMatch (m_id match_) (m_offer_id match_) (m_request_id match_)
                        ACCEPTED (Some (r_user_id request))
                        (m_created_at match_) now in
              let db1 := update_match db match' in
              db2 ← _send_match_email now db1 (get_user db1 (r_user_id request))
                      "email/match_accepted.html"
                      "Regami - Votre demande a été acceptée!" match';
              match get_offer db2 (m_offer_id match_) with
              | None => Raise AttributeError
              | Some _ =>
                  Ok (Accepted (m_id match') (m_pending_user_id match'), db2)
              end
          end in
        match run with
        | Ok (resp, db') => (Ok resp, db')
        | Raise e => (Raise e, db)
        end
  end.

(** [confirm_match] *)
Definition confirm_match (now : Z) (db : Db) (match_id : nat) (current_user : User)
    : result Transition * Db :=
  match get_match db match_id with
  | None => (Raise (HTTPException 404 "Match not found"), db)
  | Some match_ =>
      if bool_decide (m_pending_user_id match_ <> Some (u_id current_user)) then
        (Raise (HTTPException 403 "Not authorized to respond to this match"), db)
      else if bool_decide (m_status match_ <> ACCEPTED) then
        (Raise (HTTPException 400
           ("Cannot confirm match in " +:+ value (m_status match_) +:+ " status")), db)
      else
        let match' :=
          mkMatch (m_id match_) (m_offer_id match_) (m_request_id match_)
                  CONFIRMED None (m_created_at match_) now in
        let db1 := update_match db match' in
        let run : result (Transition * Db) :=
          match get_offer db1 (m_offer_id match_) with
          | None => Raise AttributeError
          | Some offer =>
              let offer_user := get_user db1 (o_user_id offer) in
              db2 ← _send_match_email now db1 offer_user
                      "email/match_confirmed.html"
                      "Regami - Garde confirmée!" match';
              match get_request db2 (m_request_id match_) with
              | None => Raise AttributeError
              | Some request =>
                  let request_user := get_user db2 (r_user_id request) in
                  db3 ← _send_match_email now db2 request_user
                          "email/match_confirmed.html"
                          "Regami - Garde confirmée!" match';
                  match offer_user, request_user with
                  | Some ou, Some ru =>
                      Ok (Confirmed (m_id match') (u_email ou) (u_email ru), db3)
                  | _, _ => Raise AttributeError
                  end
              end
          end in
        match run with
        | Ok (resp, db') => (Ok resp, db')
        | Raise e => (Raise e, db)
        end
  end.

(** [reject_match] *)
Definition reject_match (now : Z) (db : Db) (match_id : nat) (current_user : User)
    : result Transition * Db :=
  match get_match db match_id with
  | None => (Raise (HTTPException 404 "Match not found"), db)
  | Some match_ =>
      let offer := get_offer db (m_offer_id match_) in
      let request := get_request db (m_request_id match_) in
      let is_offer_owner :=
        match offer with
        | Some o => bool_decide (o_user_id o = u_id current_user)
        | None => false
        end in
      let is_requester :=
        match request with
        | Some r => bool_decide (r_user_id r = u_id current_user)
        | None => false
        end in
      if negb (is_offer_owner || is_requester) then
        (Raise (HTTPException 403 "Not authorized to reject this match"), db)
      else if negb (non_terminal (m_status match_)) then
        (Raise (HTTPException 400
           ("Cannot reject match in " +:+ value (m_status match_) +:+ " status")), db)
      else
        let match' :=
          mkMatch (m_id match_) (m_offer_id match_) (m_request_id match_)
                  REJECTED None (m_created_at match_) now in
        let db1 := update_match db match' in
        let run : result (Transition * Db) :=
          other_user_id ←
            (if is_requester
             then match offer with
                  | Some o => Ok (o_user_id o)
                  | None => Raise AttributeError
                  end
             else match request with
                  | Some r => Ok (r_user_id r)
                  | None => Raise AttributeError
                  end);
          db2 ← _send_match_email now db1 (get_user db1 other_user_id)
                  "email/match_rejected.html"
                  "Regami - Demande de garde annulée" match';
          Ok (Rejected (m_id match'), db2) in
        match run with
        | Ok (resp, db') => (Ok resp, db')
        | Raise e => (Raise e, db)
        end
  end.

End Availability.

Export Availability.

(** ** Connection registry and receive loop ([routers/websocket.py]) *)

Module Websocket.

(** What [json.loads] returns and what [send_json] is given. *)
Unset Elimination Schemes.
Inductive json :=
| JNull
| JBool (b : bool)
| JNum (n : Z)
| JStr (s : string)
| JArr (items : list json)
| JObj (fields : list (string * json)).
Set Elimination Schemes.

(** [d.get(key)] on a decoded object, given by its items; a missing key
    gives [None]. *)
Definition dict_get (fields : list (string * json)) (key : string) : json :=
  match List.find (fun kv => bool_decide (kv.1 = key)) fields with
  | Some kv => kv.2
  | None => JNull
  end.

(** [message.get("type") == "ping"]; [.get] exists on a dict only. *)
Definition type_is_ping (message : json) : result bool :=
  match message with
  | JObj fields =>
      Ok match dict_get fields "type" with
         | JStr s => bool_decide (s = "ping")
         | _ => false
         end
  | _ => Raise AttributeError
  end.

(** A [WebSocket] is known by its identity.  The registry is
    [ConnectionManager.active_connections]; [sent] records, in order, each
    frame a [send_json] call handed to the transport. *)
Record Net := mkNet {
  active_connections : gmap string (gset nat);
  sent : list (nat * json) }.

(** [ConnectionManager()] *)
Definition init : Net := mkNet ∅ [].

(** [await websocket.send_json(message)]; [broken] holds the connections
    whose transport refuses the write. *)
Definition send_json (broken : gset nat) (websocket : nat) (message : json)
    (sent : list (nat * json)) : result (list (nat * json)) :=
  if decide (websocket ∈ broken) then Raise TransportError
  else Ok (sent ++ [(websocket, message)]).

(** [ConnectionManager.connect], once [websocket.accept()] has returned. *)
Definition connect (user_id : string) (websocket : nat)
    (ac : gmap string (gset nat)) : gmap string (gset nat) :=
  let ac1 := match ac !! user_id with
             | None => <[user_id := ∅]> ac
             | Some _ => ac
             end in
  alter (fun conns => conns ∪ {[websocket]}) user_id ac1.

(** [ConnectionManager.disconnect] *)
Definition disconnect (user_id : string) (websocket : nat)
    (ac : gmap string (gset nat)) : gmap string (gset nat) :=
  match ac !! user_id with
  | Some conns =>
      let conns' := conns ∖ {[websocket]} in
      if decide (conns' = ∅) then delete user_id ac
      else <[user_id := conns']> ac
  | None => ac
  end.

(** The first loop of [send_personal_message]: try every connection,
    collecting the ones whose write raised. *)
Definition send_all (broken : gset nat) (message : json) (conns : list nat)
    (sent : list (nat * json)) : list (nat * json) * list nat :=
  foldl (fun '(sent, disconnected) websocket =>
           match send_json broken websocket message sent with
           | Ok sent' => (sent', disconnected)
           | Raise _ => (sent, disconnected ++ [websocket])
           end)
        (sent, []) conns.

(** [ConnectionManager.send_personal_message] *)
Definition send_personal_message (broken : gset nat) (message : json)
    (user_id : string) (net : Net) : Net :=
  match active_connections net !! user_id with
  | Some conns =>
      let '(sent', disconnected) :=
        send_all broken message (elements conns) (sent net) in
      mkNet (foldl (fun ac ws => disconnect user_id ws ac)
                   (active_connections net) disconnected)
            sent'
  | None => net
  end.

(** One frame as the receive loop meets it. *)
Inductive inbound :=
| Text (decoded : option json)
    (* [receive_text()] returned [data]; [json.loads(data)] gives
       [decoded], or raises when [decoded] is [None] *)
| Closed.
    (* [receive_text()] raised [WebSocketDisconnect] *)

(** The body of the [while True] loop. *)
Definition on_frame (broken : gset nat) (websocket : nat) (frame : inbound)
    (sent : list (nat * json)) : result (list (nat * json)) :=
  match frame with
  | Closed => Raise WebSocketDisconnect
  | Text None => Raise JSONDecodeError
  | Text (Some message) =>
      is_ping ← type_is_ping message;
      if is_ping : bool then send_json broken websocket (JObj [("type", JStr "pong")]) sent
      else Ok sent
  end.

(** The receive loop of [websocket_endpoint] run on the frames of [inbox].
    Both handlers ([except WebSocketDisconnect], [except Exception]) call
    [manager.disconnect] and leave the loop.  The boolean tells whether the
    loop is still waiting in [receive_text()]. *)
Fixpoint receive_loop (broken : gset nat) (user_id : string) (websocket : nat)
    (inbox : list inbound) (net : Net) : Net * bool :=
  match inbox with
  | [] => (net, true)
  | frame :: rest =>
      match on_frame broken websocket frame (sent net) with
      | Ok sent' =>
          receive_loop broken user_id websocket rest
                       (mkNet (active_connections net) sent')
      | Raise _ =>
          (mkNet (disconnect user_id websocket (active_connections net)) (sent net),
           false)
      end
  end.

(** [notify_new_message]; [loop_time] is [asyncio.get_event_loop().time()]. *)
Definition new_message_event (message_data : json) (loop_time : Z) : json :=
  JObj [("type", JStr "new_message"); ("data", message_data);
        ("timestamp", JNum loop_time)].

Definition notify_new_message (broken : gset nat) (loop_time : Z)
    (user_id : string) (message_data : json) (net : Net) : Net :=
  send_personal_message broken (new_message_event message_data loop_time)
                        user_id net.

(** The operations that touch the registry. *)
Inductive op :=
| Connect (user_id : string) (websocket : nat)
| Disconnect (user_id : string) (websocket : nat)
| SendToUser (broken : gset nat) (message : json) (user_id : string).

Definition run_op (net : Net) (o : op) : Net :=
  match o with
  | Connect user_id websocket =>
      mkNet (connect user_id websocket (active_connections net)) (sent net)
  | Disconnect user_id websocket =>
      mkNet (disconnect user_id websocket (active_connections net)) (sent net)
  | SendToUser broken message user_id =>
      send_personal_message broken message user_id net
  end.

Definition run_ops (ops : list op) (net : Net) : Net := foldl run_op net ops.

End Websocket.

Export Websocket.

(** ** Direct messages ([routers/messages.py]) *)

Module Messages.

(** [schemas.MessageCreate] *)
Record MessageCreate := mkMessageCreate {
  recipient_id : string;
  content : string }.

(** [schemas.MessageResponse] *)
Record MessageResponse := mkMessageResponse {
  resp_id : nat;
  resp_sender_id : string;
  resp_recipient_id : string;
  resp_content : string;
  resp_is_read : bool;
  resp_created_at : Z;
  sender_email : option string;
  recipient_email : option string }.

(** [schemas.ConversationSummary] *)
Record ConversationSummary := mkConversationSummary {
  other_user_id : string;
  other_user_email : string;
  last_message : string;
  last_message_at : Z;
  unread_count : nat }.

(** [text[:100]], on the characters of the embedding *)
Definition preview (text : string) : string := String.substring 0 100 text.

Definition insert_message (db : Db) (m : Message) : Db :=
  mkDb (users db) (offers db) (requests db) (matches db) (notifications db)
       (messages db ++ [m])
       (next_offer_id db) (next_request_id db) (next_match_id db)
       (next_notification_id db) (S (next_message_id db)).

(** [send_message].  The row is committed before the live event is
    dispatched.  In the event, [created_at] stands for its ISO rendering. *)
Definition send_message (now loop_time : Z) (broken : gset nat)
    (db : Db) (net : Net) (message_data : MessageCreate) (current_user : User)
    : result MessageResponse * Db * Net :=
  match get_user db (recipient_id message_data) with
  | None => (Raise (HTTPException 404 "Recipient not found"), db, net)
  | Some recipient =>
      if bool_decide (u_id recipient = u_id current_user) then
        (Raise (HTTPException 400 "Cannot send message to yourself"), db, net)
      else
        let message :=
          mkMessage (next_message_id db) (u_id current_user)
                    (recipient_id message_data) (content message_data)
                    false now in
        let db1 := insert_message db message in
        let response :=
          mkMessageResponse (msg_id message) (msg_sender_id message)
            (msg_recipient_id message) (msg_content message)
            (msg_is_read message) (msg_created_at message)
            (Some (u_email current_user)) (Some (u_email recipient)) in
        let net1 :=
          notify_new_message broken loop_time (u_id recipient)
            (JObj [("message_id", JNum (Z.of_nat (msg_id message)));
                   ("sender_id", JStr (u_id current_user));
                   ("sender_email", JStr (u_email current_user));
                   ("content", JStr (preview (msg_content message)));
                   ("created_at", JNum (msg_created_at message))])
            net in
        (Ok response, db1, net1)
  end.

(** The two-sided filter used by [list_conversations] and
    [get_conversation_thread]. *)
Definition between (me other : string) (m : Message) : bool :=
  (bool_decide (msg_sender_id m = me) && bool_decide (msg_recipient_id m = other))
  || (bool_decide (msg_sender_id m = other) && bool_decide (msg_recipient_id m = me)).

(** Filter of the unread rows sent by [other] to [me]. *)
Definition unread_from (me other : string) (m : Message) : bool :=
  bool_decide (msg_sender_id m = other)
  && bool_decide (msg_recipient_id m = me)
  && negb (msg_is_read m).

(** [.order_by(Message.created_at.desc())] *)
Definition newer (a b : Message) : Prop := msg_created_at b <= msg_created_at a.

#[export] Instance newer_dec : RelDecision newer.
Proof. intros a b. unfold newer. apply _. Defined.

Definition newest_first (rows : list Message) : list Message :=
  merge_sort newer rows.

(** [conversations.sort(key=lambda x: x.last_message_at, reverse=True)] *)
Definition more_recent (x y : ConversationSummary) : Prop :=
  last_message_at y <= last_message_at x.

#[export] Instance more_recent_dec : RelDecision more_recent.
Proof. intros x y. unfold more_recent. apply _. Defined.

(** The body of [for other_user_id in all_users]; [None] stands for
    [continue]. *)
Definition conversation_with (db : Db) (current_user : User) (other : string)
    : option ConversationSummary :=
  match get_user db other with
  | None => None
  | Some other_user =>
      match head (newest_first (List.filter (between (u_id current_user) other)
                                            (messages db))) with
      | None => None
      | Some last_msg =>
          Some (mkConversationSummary other (u_email other_user)
                  (preview (msg_content last_msg)) (msg_created_at last_msg)
                  (length (List.filter (unread_from (u_id current_user) other)
                                       (messages db))))
      end
  end.

(** [list_conversations] *)
Definition list_conversations (db : Db) (current_user : User)
    : list ConversationSummary :=
  let sent_to :=
    map msg_recipient_id
        (List.filter (fun m => bool_decide (msg_sender_id m = u_id current_user))
                     (messages db)) in
  let received_from :=
    map msg_sender_id
        (List.filter (fun m => bool_decide (msg_recipient_id m = u_id current_user))
                     (messages db)) in
  let all_users : gset string := list_to_set (sent_to ++ received_from) in
  let conversations :=
    omap (conversation_with db current_user) (elements all_users) in
  merge_sort more_recent conversations.

(** [.offset(n)] and [.limit(n)] as the default store (SQLite) runs them:
    a negative offset skips nothing, a negative limit keeps every row. *)
Definition offset {A : Type} (n : Z) (rows : list A) : list A :=
  drop (Z.to_nat n) rows.

Definition limit {A : Type} (n : Z) (rows : list A) : list A :=
  if bool_decide (n < 0) then rows else take (Z.to_nat n) rows.

(** The bulk [update({"is_read": True})] of [get_conversation_thread]. *)
Definition mark_read_from (me other : string) (db : Db) : Db :=
  mkDb (users db) (offers db) (requests db) (matches db) (notifications db)
       (map (fun m => if unread_from me other m
                      then mkMessage (msg_id m) (msg_sender_id m)
                             (msg_recipient_id m) (msg_content m) true
                             (msg_created_at m)
                      else m)
            (messages db))
       (next_offer_id db) (next_request_id db) (next_match_id db)
       (next_notification_id db) (next_message_id db).

(** [get_conversation_thread] *)
Definition get_conversation_thread (db : Db) (other_user_id : string)
    (current_user : User) (page page_size : Z)
    : result (list MessageResponse) * Db :=
  match get_user db other_user_id with
  | None => (Raise (HTTPException 404 "User not found"), db)
  | Some other_user =>
      let rows :=
        limit page_size
          (offset ((page - 1) * page_size)
             (newest_first (List.filter (between (u_id current_user) other_user_id)
                                        (messages db)))) in
      let responses :=
        map (fun msg =>
               mkMessageResponse (msg_id msg) (msg_sender_id msg)
                 (msg_recipient_id msg) (msg_content msg) (msg_is_read msg)
                 (msg_created_at msg)
                 (Some (if bool_decide (msg_sender_id msg = u_id current_user)
                        then u_email current_user else u_email other_user))
                 (Some (if bool_decide (msg_recipient_id msg = other_user_id)
                        then u_email other_user else u_email current_user)))
            rows in
      (Ok responses, mark_read_from (u_id current_user) other_user_id db)
  end.

End Messages.

Export Messages.

(** ** The rest of [routers/availability.py]: deleting and listing *)

Module Listings.

(** What the listing handlers answer: the page of items, the size of the
    whole selection, and the paging parameters echoed back. *)
Record Page (A : Type) := mkPage {
  pg_items : list A;
  pg_total : nat;
  pg_page : Z;
  pg_page_size : Z }.

Arguments mkPage {A} _ _ _ _.
Arguments pg_items {A} _.
Arguments pg_total {A} _.
Arguments pg_page {A} _.
Arguments pg_page_size {A} _.

(** The key the store issues next after a delete.  A server store draws
    keys from a sequence, which a delete leaves alone.  SQLite, the
    default store, declares the key [INTEGER PRIMARY KEY] without
    [AUTOINCREMENT]: the next key is one more than the largest key left
    in the table, so the key of a deleted last row is issued again. *)
Definition next_key_after_delete (reuse_keys : bool) (next_key : nat)
    (keys_left : list nat) : nat :=
  if reuse_keys then S (max_list keys_left) else next_key.

(** [DELETE FROM availability_offers WHERE id = :ident] *)
Definition remove_offer (reuse_keys : bool) (db : Db) (ident : nat) : Db :=
  let rows :=
    List.filter (fun o => negb (bool_decide (o_id o = ident))) (offers db) in
  mkDb (users db) rows
       (requests db) (matches db) (notifications db) (messages db)
       (next_key_after_delete reuse_keys (next_offer_id db) (map o_id rows))
       (next_request_id db) (next_match_id db)
       (next_notification_id db) (next_message_id db).

Definition remove_request (reuse_keys : bool) (db : Db) (ident : nat) : Db :=
  let rows :=
    List.filter (fun r => negb (bool_decide (r_id r = ident))) (requests db) in
  mkDb (users db) (offers db) rows
       (matches db) (notifications db) (messages db)
       (next_offer_id db)
       (next_key_after_delete reuse_keys (next_request_id db) (map r_id rows))
       (next_match_id db)
       (next_notification_id db) (next_message_id db).

(** [delete_offer].  [enforce_foreign_keys] tells the two kinds of store
    apart.  It is [false] for SQLite as it is opened here, the default:
    foreign keys are not enforced, so the offer is deleted and a match
    that refers to it is left behind ([Match.offer_id] has no cascade),
    and the key of the offer can be issued again.  It is [true] for a
    server store: the commit refuses to delete an offer some match refers
    to, and keys come from a sequence. *)
Definition delete_offer (enforce_foreign_keys : bool) (db : Db) (offer_id : nat)
    (current_user : User) : result unit * Db :=
  match get_offer db offer_id with
  | None => (Raise (HTTPException 404 "Offer not found"), db)
  | Some obj =>
      if bool_decide (o_user_id obj <> u_id current_user) then
        (Raise (HTTPException 404 "Offer not found"), db)
      else if enforce_foreign_keys
              && existsb (fun m => bool_decide (m_offer_id m = offer_id)) (matches db)
      then (Raise IntegrityError, db)
      else (Ok tt, remove_offer (negb enforce_foreign_keys) db offer_id)
  end.

(** [delete_request] *)
Definition delete_request (enforce_foreign_keys : bool) (db : Db) (request_id : nat)
    (current_user : User) : result unit * Db :=
  match get_request db request_id with
  | None => (Raise (HTTPException 404 "Request not found"), db)
  | Some obj =>
      if bool_decide (r_user_id obj <> u_id current_user) then
        (Raise (HTTPException 404 "Request not found"), db)
      else if enforce_foreign_keys
              && existsb (fun m => bool_decide (m_request_id m = request_id)) (matches db)
      then (Raise IntegrityError, db)
      else (Ok tt, remove_request (negb enforce_foreign_keys) db request_id)
  end.

(** [sort.startswith('-')] *)
Definition startswith_dash (sort : string) : bool :=
  match sort with
  | String c _ => bool_decide (String c EmptyString = "-")
  | EmptyString => false
  end.

(** [asc(AvailabilityOffer.start_at)] and [desc(AvailabilityOffer.start_at)] *)
Definition offer_asc (a b : AvailabilityOffer) : Prop := o_start_at a <= o_start_at b.
Definition offer_desc (a b : AvailabilityOffer) : Prop := o_start_at b <= o_start_at a.

#[export] Instance offer_asc_dec : RelDecision offer_asc.
Proof. intros a b. unfold offer_asc. apply _. Defined.

#[export] Instance offer_desc_dec : RelDecision offer_desc.
Proof. intros a b. unfold offer_desc. apply _. Defined.

Definition request_asc (a b : AvailabilityRequest) : Prop := r_start_at a <= r_start_at b.
Definition request_desc (a b : AvailabilityRequest) : Prop := r_start_at b <= r_start_at a.

#[export] Instance request_asc_dec : RelDecision request_asc.
Proof. intros a b. unfold request_asc. apply _. Defined.

#[export] Instance request_desc_dec : RelDecision request_desc.
Proof. intros a b. unfold request_desc. apply _. Defined.

(** An item of [my_offers] and [my_requests]:
    [{"id", "start_at", "end_at"}], the two datetimes standing for their
    ISO renderings. *)
Record SlotOut := mkSlotOut {
  so_id : nat;
  so_start_at : Z;
  so_end_at : Z }.

(** The selection of [my_offers], ordered. *)
Definition my_offers_rows (db : Db) (current_user : User) (sort : string)
    : list AvailabilityOffer :=
  let q := List.filter (fun o => bool_decide (o_user_id o = u_id current_user))
                       (offers db) in
  if startswith_dash sort then merge_sort offer_desc q else merge_sort offer_asc q.

(** [my_offers] *)
Definition my_offers (db : Db) (current_user : User) (page page_size : Z)
    (sort : string) : Page SlotOut :=
  let rows := my_offers_rows db current_user sort in
  mkPage (map (fun r => mkSlotOut (o_id r) (o_start_at r) (o_end_at r))
              (limit page_size (offset ((page - 1) * page_size) rows)))
         (length rows) page page_size.

Definition my_requests_rows (db : Db) (current_user : User) (sort : string)
    : list AvailabilityRequest :=
  let q := List.filter (fun r => bool_decide (r_user_id r = u_id current_user))
                       (requests db) in
  if startswith_dash sort then merge_sort request_desc q else merge_sort request_asc q.

(** [my_requests] *)
Definition my_requests (db : Db) (current_user : User) (page page_size : Z)
    (sort : string) : Page SlotOut :=
  let rows := my_requests_rows db current_user sort in
  mkPage (map (fun r => mkSlotOut (r_id r) (r_start_at r) (r_end_at r))
              (limit page_size (offset ((page - 1) * page_size) rows)))
         (length rows) page page_size.

(** An item of [get_pending_matches]; [get_my_matches] adds the two
    flags, which are [None] in the items of [get_pending_matches]. *)
Record MatchItem := mkMatchItem {
  mi_id : nat;
  mi_offer_id : nat;
  mi_request_id : nat;
  mi_status : string;
  mi_pending_user_id : option string;
  mi_created_at : Z;
  mi_updated_at : Z;
  mi_offer_start : option Z;
  mi_offer_end : option Z;
  mi_request_start : option Z;
  mi_request_end : option Z;
  mi_offer_owner_email : option string;
  mi_requester_email : option string;
  mi_is_my_offer : option bool;
  mi_is_my_request : option bool }.

(** The fields the two listings share, read through the relationships of
    the match. *)
Definition match_item (db : Db) (flags : option User) (m : Match) : MatchItem :=
  let offer := get_offer db (m_offer_id m) in
  let request := get_request db (m_request_id m) in
  mkMatchItem (m_id m) (m_offer_id m) (m_request_id m) (value (m_status m))
    (m_pending_user_id m) (m_created_at m) (m_updated_at m)
    (o_start_at <$> offer) (o_end_at <$> offer)
    (r_start_at <$> request) (r_end_at <$> request)
    (o ← offer; u_email <$> get_user db (o_user_id o))
    (r ← request; u_email <$> get_user db (r_user_id r))
    (current_user ← flags;
     Some match offer with
          | Some o => bool_decide (o_user_id o = u_id current_user)
          | None => false
          end)
    (current_user ← flags;
     Some match request with
          | Some r => bool_decide (r_user_id r = u_id current_user)
          | None => false
          end).

(** [.join(Match.offer).join(Match.request)]: inner joins on the two
    primary keys. *)
Definition joined (db : Db) (m : Match) : bool :=
  bool_decide (is_Some (get_offer db (m_offer_id m)))
  && bool_decide (is_Some (get_request db (m_request_id m))).

(** [Match.created_at.desc()] and [Match.updated_at.desc()] *)
Definition created_desc (a b : Match) : Prop := m_created_at b <= m_created_at a.
Definition updated_desc (a b : Match) : Prop := m_updated_at b <= m_updated_at a.

#[export] Instance created_desc_dec : RelDecision created_desc.
Proof. intros a b. unfold created_desc. apply _. Defined.

#[export] Instance updated_desc_dec : RelDecision updated_desc.
Proof. intros a b. unfold updated_desc. apply _. Defined.

(** The selection of [get_pending_matches]. *)
Definition pending_rows (db : Db) (current_user : User) : list Match :=
  List.filter (fun m => bool_decide (m_pending_user_id m = Some (u_id current_user))
                        && non_terminal (m_status m)
                        && joined db m)
              (matches db).

(** [get_pending_matches] *)
Definition get_pending_matches (db : Db) (current_user : User)
    (page page_size : Z) : Page MatchItem :=
  let q := pending_rows db current_user in
  mkPage (map (match_item db None)
              (limit page_size
                 (offset ((page - 1) * page_size) (merge_sort created_desc q))))
         (length q) page page_size.

(** The selection of [get_my_matches]; an empty [status_filter] is no
    filter. *)
Definition my_matches_rows (db : Db) (current_user : User)
    (status_filter : option string) : list Match :=
  let involved m :=
    match get_offer db (m_offer_id m), get_request db (m_request_id m) with
    | Some o, Some r =>
        bool_decide (o_user_id o = u_id current_user)
        || bool_decide (r_user_id r = u_id current_user)
    | _, _ => false
    end in
  let q := List.filter involved (matches db) in
  match status_filter with
  | Some s =>
      if bool_decide (s = "") then q
      else List.filter (fun m => bool_decide (value (m_status m) = s)) q
  | None => q
  end.

(** [get_my_matches] *)
Definition get_my_matches (db : Db) (current_user : User) (page page_size : Z)
    (status_filter : option string) : Page MatchItem :=
  let q := my_matches_rows db current_user status_filter in
  mkPage (map (match_item db (Some current_user))
              (limit page_size
                 (offset ((page - 1) * page_size) (merge_sort updated_desc q))))
         (length q) page page_size.

End Listings.

Export Listings.

(** ** The rest of [routers/websocket.py]: broadcast and the endpoint *)

Module Endpoint.



    (* one of the two [except] clauses ran *)


End Endpoint.

Export Endpoint.

(** ** The rest of [routers/messages.py]: marking one message *)

Module Reading.

(** [db.get(Message, ident)] *)
Definition get_message (db : Db) (ident : nat) : option Message :=
  List.find (fun m => bool_decide (msg_id m = ident)) (messages db).

(** [db.add(message); db.commit()] for a row already loaded. *)
Definition update_message (db : Db) (m : Message) : Db :=
  mkDb (users db) (offers db) (requests db) (matches db) (notifications db)
       (map (fun m0 => if bool_decide (msg_id m0 = msg_id m) then m else m0)
            (messages db))
       (next_offer_id db) (next_request_id db) (next_match_id db)
       (next_notification_id db) (next_message_id db).

(** [mark_message_as_read] *)
Definition mark_message_as_read (db : Db) (message_id : nat) (current_user : User)
    : result MessageResponse * Db :=
  match get_message db message_id with
  | None => (Raise (HTTPException 404 "Message not found"), db)
  | Some message =>
      if bool_decide (msg_recipient_id message <> u_id current_user) then
        (Raise (HTTPException 403 "Cannot mark other user's messages as read"), db)
      else
        let message' :=
          mkMessage (msg_id message) (msg_sender_id message)
                    (msg_recipient_id message) (msg_content message) true
                    (msg_created_at message) in
        let db1 := update_message db message' in
        let sender := get_user db1 (msg_sender_id message') in
        (Ok (mkMessageResponse (msg_id message') (msg_sender_id message')
               (msg_recipient_id message') (msg_content message')
               (msg_is_read message') (msg_created_at message')
               (u_email <$> sender) (Some (u_email current_user))),
         db1)
  end.

End Reading.

Export Reading.

(** ** Notifications ([routers/notifications.py]) *)

Module Notifications.

(** An item of [my_notifications]. *)
Record NotificationOut := mkNotificationOut {
  no_id : nat;
  no_message : string;
  no_is_read : bool;
  no_created_at : Z }.

(** [Notification.created_at.desc()] *)
Definition notified_desc (a b : Notification) : Prop := n_created_at b <= n_created_at a.

#[export] Instance notified_desc_dec : RelDecision notified_desc.
Proof. intros a b. unfold notified_desc. apply _. Defined.

(** The selection of [my_notifications]. *)
Definition my_notifications_rows (db : Db) (current_user : User)
    (unread_only : bool) : list Notification :=
  let q := List.filter (fun n => bool_decide (n_user_id n = u_id current_user))
                       (notifications db) in
  if unread_only then List.filter (fun n => negb (n_is_read n)) q else q.

(** [my_notifications] *)
Definition my_notifications (db : Db) (current_user : User) (page page_size : Z)
    (unread_only : bool) : Page NotificationOut :=
  let q := my_notifications_rows db current_user unread_only in
  mkPage (map (fun n => mkNotificationOut (n_id n) (n_message n) (n_is_read n)
                                          (n_created_at n))
              (limit page_size
                 (offset ((page - 1) * page_size) (merge_sort notified_desc q))))
         (length q) page page_size.

(** [db.get(Notification, ident)] *)
Definition get_notification (db : Db) (ident : nat) : option Notification :=
  List.find (fun n => bool_decide (n_id n = ident)) (notifications db).

Definition set_notifications (db : Db) (rows : list Notification) : Db :=
  mkDb (users db) (offers db) (requests db) (matches db) rows (messages db)
       (next_offer_id db) (next_request_id db) (next_match_id db)
       (next_notification_id db) (next_message_id db).

Definition marked_read (n : Notification) : Notification :=
  mkNotification (n_id n) (n_user_id n) (n_message n) true (n_created_at n).

(** [mark_read]: a notification that is missing or belongs to someone
    else is passed over without an error. *)
Definition mark_read (db : Db) (notification_id : nat) (current_user : User)
    : string * Db :=
  match get_notification db notification_id with
  | None => ("ignored", db)
  | Some n =>
      if bool_decide (n_user_id n <> u_id current_user) then ("ignored", db)
      else
        ("ok",
         set_notifications db
           (map (fun n0 => if bool_decide (n_id n0 = n_id n) then marked_read n else n0)
                (notifications db)))
  end.

(** [mark_all_read] *)
Definition mark_all_read (db : Db) (current_user : User) : string * Db :=
  ("ok",
   set_notifications db
     (map (fun n => if bool_decide (n_user_id n = u_id current_user)
                       && negb (n_is_read n)
                    then marked_read n else n)
          (notifications db))).

End Notifications.

Export Notifications.

(** ** [Dog.age_years] ([models.py]) *)

Module Dogs.

Record Dog := mkDog {
  d_id : nat;
  d_name : string;
  d_photo_url : option string;
  d_birth_month : Z;
  d_birth_year : Z;
  d_sex : string;
  d_created_at : Z }.

(** [Dog.age_years]; [today_year] and [today_month] are the year and the
    month of [date.today()]. *)
Definition age_years (today_year today_month : Z) (self : Dog) : Z :=
  let age := today_year - d_birth_year self in
  let age := if bool_decide (today_month < d_birth_month self) then age - 1
             else age in
  Z.max 0 age.

End Dogs.

Export Dogs.

(** ** The push for a new message ([fcm.py]) *)

Module Fcm.

(** The body of the push: a preview longer than 100 characters is cut to
    97 and given an ellipsis. *)
Definition truncate_preview (message_preview : string) : string :=
  if bool_decide (100 < String.length message_preview)%nat
  then String.substring 0 97 message_preview +:+ "..."
  else message_preview.

(** What [fcm.notify_new_message] hands to [send_fcm_notification]: the
    user, the title, the body and the data; nothing when the user is
    unknown. *)
Definition notify_new_message (db : Db) (user_id sender_name message_preview : string)
    : option (User * string * string * list (string * string)) :=
  match get_user db user_id with
  | None => None
  | Some user =>
      Some (user,
            "Nouveau message de " +:+ sender_name,
            truncate_preview message_preview,
            [("type", "new_message"); ("sender_id", user_id);
             ("deep_link", "/messages")])
  end.

End Fcm.

(** ** Vocabulary of the properties *)

Module Signals.

(** The client errors of the handlers, by HTTP status. *)
Definition not_found {A : Type} (r : result A) : Prop :=
  exists detail, r = Raise (HTTPException 404 detail).

Definition authorization_denied {A : Type} (r : result A) : Prop :=
  exists detail, r = Raise (HTTPException 403 detail).

Definition invalid_transition {A : Type} (r : result A) : Prop :=
  exists detail, r = Raise (HTTPException 400 detail).

Definition succeeds {A : Type} (r : result A) : Prop :=
  exists a, r = Ok a.

Definition fails {A : Type} (r : result A) : Prop :=
  exists e, r = Raise e.

(** The user owns the offer, resp. the request, the match refers to. *)
Definition offer_owner (db : Db) (match_ : Match) (user : User) : Prop :=
  exists o, get_offer db (m_offer_id match_) = Some o /\ o_user_id o = u_id user.

Definition requester (db : Db) (match_ : Match) (user : User) : Prop :=
  exists r, get_request db (m_request_id match_) = Some r /\ r_user_id r = u_id user.

(** The three transitions of a match, and the handler of each. *)
Inductive action := Accept | Confirm | Reject.

Definition transition (a : action)
    : Z -> Db -> nat -> User -> result Transition * Db :=
  match a with
  | Accept => accept_match
  | Confirm => confirm_match
  | Reject => reject_match
  end.

(** The rows of [matches] for one (offer, request) pair. *)
Definition pair_matches (db : Db) (offer_id request_id : nat) : list Match :=
  List.filter (fun m => bool_decide (m_offer_id m = offer_id)
                        && bool_decide (m_request_id m = request_id))
              (matches db).

(** Exactly one row for the pair, PENDING, awaiting [user_id]. *)
Definition one_pending (db : Db) (offer_id request_id : nat) (user_id : string)
    : Prop :=
  exists m, pair_matches db offer_id request_id = [m] /\
            m_status m = PENDING /\
            m_pending_user_id m = Some user_id.

(** Primary keys come from the counters: every key in use, and every key a
    match refers to, lies below the counter of its table. *)
Definition keys_fresh (db : Db) : Prop :=
  (forall o, In o (offers db) -> (o_id o < next_offer_id db)%nat) /\
  (forall r, In r (requests db) -> (r_id r < next_request_id db)%nat) /\
  (forall m, In m (matches db) ->
     (m_offer_id m < next_offer_id db)%nat /\
     (m_request_id m < next_request_id db)%nat).

(** The frames [sent] holds for one connection. *)
Definition delivered_to (websocket : nat) (sent : list (nat * json)) : list json :=
  map snd (List.filter (fun e => bool_decide (e.1 = websocket)) sent).

(** No key of the registry is bound to an empty set. *)
Definition no_empty_entry (ac : gmap string (gset nat)) : Prop :=
  forall user_id conns, ac !! user_id = Some conns -> conns <> ∅.

End Signals.

Export Signals.

(** ** Further vocabulary *)

Module Conditions.

Definition bad_request {A : Type} (r : result A) : Prop :=
  exists detail, r = Raise (HTTPException 400 detail).

(** The slot is empty, reversed, or not wholly in the future. *)
Definition slot_refused (now : Z) (slot : SlotIn) : Prop :=
  end_at slot <= start_at slot \/ end_at slot <= now \/ start_at slot <= now.

(** The user already holds an offer, resp. a request, that meets the slot. *)
Definition overlapping_offer (db : Db) (slot : SlotIn) (user : User) : Prop :=
  exists o, In o (offers db) /\ o_user_id o = u_id user /\
            o_start_at o < end_at slot /\ o_end_at o > start_at slot.

Definition overlapping_request (db : Db) (slot : SlotIn) (user : User) : Prop :=
  exists r, In r (requests db) /\ r_user_id r = u_id user /\
            r_start_at r < end_at slot /\ r_end_at r > start_at slot.

(** Two offers of one user do not meet. *)
Definition offers_apart (a b : AvailabilityOffer) : Prop :=
  o_user_id a = o_user_id b ->
  o_end_at a <= o_start_at b \/ o_end_at b <= o_start_at a.

Definition requests_apart (a b : AvailabilityRequest) : Prop :=
  r_user_id a = r_user_id b ->
  r_end_at a <= r_start_at b \/ r_end_at b <= r_start_at a.

(** Every window is non-empty, and the windows of one user are pairwise
    apart. *)
Definition windows_sound (db : Db) : Prop :=
  Forall (fun o => o_start_at o < o_end_at o) (offers db) /\
  ForallOrdPairs offers_apart (offers db) /\
  Forall (fun r => r_start_at r < r_end_at r) (requests db) /\
  ForallOrdPairs requests_apart (requests db).

(** The request fits the offer and belongs to someone else. *)
Definition compatible (o : AvailabilityOffer) (r : AvailabilityRequest) : Prop :=
  r_start_at r >= o_start_at o /\ r_end_at r <= o_end_at o /\
  r_user_id r <> o_user_id o.

(** Every offer is owned by a known user. *)
Definition offer_owners_known (db : Db) : Prop :=
  forall o, In o (offers db) -> is_Some (get_user db (o_user_id o)).

(** A successful transition leaves everything but the match and the
    notifications as it was, and appends unread notifications for the
    users of [recipients], in that order. *)
Definition touches_only_the_match (db db' : Db) (match_id : nat)
    (recipients : list string) : Prop :=
  users db' = users db /\ offers db' = offers db /\
  requests db' = requests db /\ messages db' = messages db /\
  length (matches db') = length (matches db) /\
  (forall m0, In m0 (matches db) -> m_id m0 <> match_id -> In m0 (matches db')) /\
  exists new, notifications db' = notifications db ++ new /\
              map n_user_id new = recipients /\
              Forall (fun n => n_is_read n = false) new.

(** The row a successful transition writes in place of [m]. *)
Definition row_after (a : action) (now : Z) (m : Match) (requester_id : string)
    : Match :=
  mkMatch (m_id m) (m_offer_id m) (m_request_id m)
          match a with
          | Accept => ACCEPTED
          | Confirm => CONFIRMED
          | Reject => REJECTED
          end
          match a with
          | Accept => Some requester_id
          | Confirm | Reject => None
          end
          (m_created_at m) now.

(** The connections registered for a user. *)
Definition connections_of (ac : gmap string (gset nat)) (user_id : string)
    : gset nat :=
  default ∅ (ac !! user_id).




(** The whole calendar months from the birth month to today's month. *)
Definition months_since_birth (today_year today_month : Z) (dog : Dog) : Z :=
  12 * (today_year - d_birth_year dog) + (today_month - d_birth_month dog).

End Conditions.

Export Conditions.

(** ** Concrete stores used by the examples *)

Module Examples.

Definition alice : User := mkUser "alice" "alice@example.com".
Definition bob : User := mkUser "bob" "bob@example.com".
Definition carol : User := mkUser "carol" "carol@example.com".

Definition db_users : Db :=
  mkDb [alice; bob; carol] [] [] [] [] [] 1%nat 1%nat 1%nat 1%nat 1%nat.

(** Alice offers [10, 40]; Bob requests [20, 30]. *)
Definition db_offer : Db := (create_offer 0 db_users (mkSlot 10 40) alice).2.
Definition db_pending : Db := (create_request 1 db_offer (mkSlot 20 30) bob).2.
Definition db_accepted : Db := (accept_match 2 db_pending 1 alice).2.
Definition db_confirmed : Db := (confirm_match 3 db_accepted 1 bob).2.
Definition db_rejected : Db := (reject_match 2 db_pending 1 alice).2.

(** Carol requests [15, 25] as well, and Alice rejects the match with
    Bob: the pair (offer 1, request 1) holds a REJECTED match, the pair
    (offer 1, request 2) a PENDING one. *)
Definition offer_1 : AvailabilityOffer := mkOffer 1 "alice" 10 40.
Definition request_1 : AvailabilityRequest := mkRequest 1 "bob" 20 30.
Definition request_2 : AvailabilityRequest := mkRequest 2 "carol" 15 25.

Definition db_resolved_pair : Db :=
  (reject_match 3
     (create_request 2 db_pending (mkSlot 15 25) carol).2 1 alice).2.

(** Alice is connected twice, Bob once. *)
Definition net_two_users : Net :=
  run_ops [Connect "alice" 1%nat; Connect "alice" 2%nat; Connect "bob" 3%nat] init.

Definition ping : json := JObj [("type", JStr "ping")].
Definition pong : json := JObj [("type", JStr "pong")].
Definition notice : json :=
  JObj [("type", JStr "notification"); ("data", JNull); ("timestamp", JNum 7)].

(** Alice's first connection receives the text frame [[]], then a ping. *)
Definition after_array_frame : Net * bool :=
  receive_loop ∅ "alice" 1%nat [Text (Some (JArr [])); Text (Some ping)]
               net_two_users.

(** Bob writes twice to Alice, who has two live connections, the first
    of which no longer takes writes. *)
Definition hello : MessageCreate := mkMessageCreate "alice" "Read me!".

Definition chat_1 : result MessageResponse * Db * Net :=
  send_message 5 0 {[1%nat]} db_users net_two_users hello bob.

Definition chat_2 : result MessageResponse * Db * Net :=
  send_message 6 1 ∅ chat_1.1.2 chat_1.2 (mkMessageCreate "alice" "Again") bob.

Definition db_chat : Db := chat_2.1.2.

End Examples.

(** ** Further concrete stores *)

Module Scenarios.

Import Examples.

(** Bob's request [20, 30] is the only row. *)
Definition db_request : Db := (create_request 0 db_users (mkSlot 20 30) bob).2.

(** The match of Alice's offer with Bob's request, as it is created. *)
Definition pending_match : Match := mkMatch 1 1 1 PENDING (Some "alice") 1 1.

(** Alice withdraws her offer, resp. Bob his request, while the match is
    pending, on a store that does not enforce foreign keys. *)
Definition db_offer_gone : Db := (delete_offer false db_pending 1 alice).2.
Definition db_request_gone : Db := (delete_request false db_pending 1 bob).2.

(** Alice has rejected the match with Bob; now she withdraws her offer.
    On the default store the REJECTED match stays behind and key 1 of the
    offers is free again.  Then she offers [10, 40] once more. *)
Definition db_withdrawn : Db := (delete_offer false db_rejected 1 alice).2.

Definition reoffer : result nat * Db :=
  create_offer 4 db_withdrawn (mkSlot 10 40) alice.

(** The same with the request: Bob withdraws it after the rejection and
    asks for [20, 30] once more. *)
Definition db_request_withdrawn : Db := (delete_request false db_rejected 1 bob).2.

Definition rerequest : result nat * Db :=
  create_request 4 db_request_withdrawn (mkSlot 20 30) bob.

(** The match Alice rejected. *)
Definition rejected_match : Match := mkMatch 1 1 1 REJECTED None 1 2.

(** What Bob is answered for his first message to Alice. *)
Definition hello_response : MessageResponse :=
  mkMessageResponse 1 "bob" "alice" "Read me!" false 5
                    (Some "bob@example.com") (Some "alice@example.com").

(** A dog born in July 2020. *)
Definition rex : Dog := mkDog 1 "REX01" None 7 2020 "male" 0.


(** Alice's notification of the new match, once read. *)
Definition read_notice : Notification :=
  mkNotification 1 "alice" "Regami - Nouvelle demande de garde" true 1.

End Scenarios.

(** * Properties *)

(** ** Match lifecycle *)

Section Lifecycle.

Implicit Types (db : Db) (current_user : User).

Lemma get_match_In db ident (match_ : Match) :
  get_match db ident = Some match_ -> In match_ (matches db) /\ m_id match_ = ident.
Proof.
  unfold get_match. intros H. apply find_some in H as [Hin Hid].
  split; [done|]. by apply bool_decide_eq_true in Hid.
Qed.

Lemma find_map_replace (l : list Match) (m' : Match) :
  is_Some (List.find (fun m => bool_decide (m_id m = m_id m')) l) ->
  List.find (fun m => bool_decide (m_id m = m_id m'))
    (map (fun m0 => if bool_decide (m_id m0 = m_id m') then m' else m0) l) = Some m'.
Proof.
  induction l as [|m l IH]; simpl.
  - intros [? ?]; discriminate.
  - destruct (bool_decide (m_id m = m_id m')) eqn:E; simpl.
    + intros _. by rewrite bool_decide_eq_true_2.
    + intros H. rewrite E. by apply IH.
Qed.

Lemma get_match_update db m' :
  is_Some (get_match db (m_id m')) ->
  get_match (update_match db m') (m_id m') = Some m'.
Proof. apply find_map_replace. Qed.

Lemma send_match_email_inv now db user template subject m db' :
  _send_match_email now db user template subject m = Ok db' ->
  exists u, user = Some u /\ db' = add_notification now db (u_id u) subject.
Proof.
  unfold _send_match_email. destruct user as [u|]; [|discriminate].
  intros [= <-]. eauto.
Qed.

Lemma get_match_add_notification now db user_id message ident :
  get_match (add_notification now db user_id message) ident = get_match db ident.
Proof. reflexivity. Qed.

Lemma get_request_add_notification now db user_id message ident :
  get_request (add_notification now db user_id message) ident = get_request db ident.
Proof. reflexivity. Qed.

Lemma get_request_update_match db m ident :
  get_request (update_match db m) ident = get_request db ident.
Proof. reflexivity. Qed.

End Lifecycle.

(** Unfolds a handler down to the branch taken. *)
Ltac handler_cases :=
  unfold mbind, result_bind in *;
  repeat first
    [ progress simplify_eq/=
    | case_bool_decide
    | match goal with
      | H : context [match ?x with _ => _ end] |- _ =>
          lazymatch type of x with
          | option _ => destruct x eqn:?
          | result _ => destruct x eqn:?
          | bool => destruct x eqn:?
          | prod _ _ => destruct x eqn:?
          end
      end ].

Ltac email_sent :=
  repeat match goal with
  | H : _send_match_email _ _ _ _ _ _ = Ok _ |- _ =>
      apply send_match_email_inv in H as (? & _ & ->)
  end.

(** C3. Whenever a transition succeeds, the row of the match carries the
    target status and the pending responder the transition prescribes:
    after [accept] the status is ACCEPTED and [pending_user_id] is the owner
    of the request the match refers to; after [confirm] the status is
    CONFIRMED and [pending_user_id] is null; after [reject] the status is
    REJECTED and [pending_user_id] is null. *)
Theorem transition_sets_status_and_pending_user
    (a : action) (now : Z) (db : Db) (match_id : nat) (current_user : User)
    (resp : Transition) (db' : Db) :
  transition a now db match_id current_user = (Ok resp, db') ->
  exists match_ m',
    get_match db match_id = Some match_ /\
    get_match db' match_id = Some m' /\
    m_offer_id m' = m_offer_id match_ /\
    m_request_id m' = m_request_id match_ /\
    match a with
    | Accept =>
        m_status m' = ACCEPTED /\
        exists request,
          get_request db' (m_request_id m') = Some request /\
          m_pending_user_id m' = Some (r_user_id request)
    | Confirm => m_status m' = CONFIRMED /\ m_pending_user_id m' = None
    | Reject => m_status m' = REJECTED /\ m_pending_user_id m' = None
    end.
Proof.
  intros H.
  destruct (get_match db match_id) as [match_|] eqn:Hm; cycle 1.
  { destruct a; simpl in H; unfold accept_match, confirm_match, reject_match in H;
      rewrite Hm in H; discriminate. }
  destruct (get_match_In _ _ _ Hm) as [_ Hid]. subst match_id.
  exists match_.
  destruct a; simpl in H;
    unfold accept_match, confirm_match, reject_match in H; rewrite Hm in H;
    handler_cases; email_sent;
    (eexists; rewrite ?get_match_add_notification;
     split; [done|]; split;
     [ apply (get_match_update db (mkMatch _ _ _ _ _ _ _)); simpl; by rewrite Hm
     | simpl; repeat split; eauto ]).
Qed.

Lemma transition_sets_status_and_pending_user_witness :
  transition Accept 2 Examples.db_pending 1 Examples.alice
    = (Ok (Accepted 1 (Some "bob")), Examples.db_accepted) /\
  exists match_ m',
    get_match Examples.db_pending 1 = Some match_ /\
    get_match Examples.db_accepted 1 = Some m' /\
    m_offer_id m' = m_offer_id match_ /\
    m_request_id m' = m_request_id match_ /\
    m_status m' = ACCEPTED /\
    exists request,
      get_request Examples.db_accepted (m_request_id m') = Some request /\
      m_pending_user_id m' = Some (r_user_id request).
Proof.
  split; [vm_compute; reflexivity|].
  apply (transition_sets_status_and_pending_user Accept 2 Examples.db_pending 1
           Examples.alice (Accepted 1 (Some "bob")) Examples.db_accepted).
  vm_compute. reflexivity.
Defined.

(** C4. On an existing match, [accept] and [confirm] answer
    authorization-denied to every caller other than the current
    [pending_user_id], whatever the status, and so succeed for that user
    only; [reject] answers authorization-denied to every caller who is
    neither the owner of the offer nor the requester, and so succeeds for
    one of these two only. *)
Theorem only_the_awaited_actor_may_act
    (now : Z) (db : Db) (match_id : nat) (current_user : User) (match_ : Match) :
  get_match db match_id = Some match_ ->
  (m_pending_user_id match_ <> Some (u_id current_user) ->
     authorization_denied (accept_match now db match_id current_user).1 /\
     authorization_denied (confirm_match now db match_id current_user).1) /\
  (succeeds (accept_match now db match_id current_user).1 ->
     m_pending_user_id match_ = Some (u_id current_user)) /\
  (succeeds (confirm_match now db match_id current_user).1 ->
     m_pending_user_id match_ = Some (u_id current_user)) /\
  (~ offer_owner db match_ current_user -> ~ requester db match_ current_user ->
     authorization_denied (reject_match now db match_id current_user).1) /\
  (succeeds (reject_match now db match_id current_user).1 ->
     offer_owner db match_ current_user \/ requester db match_ current_user).
Proof.
  intros Hm. repeat split.
  - unfold accept_match. rewrite Hm. rewrite bool_decide_eq_true_2 by done.
    by eexists.
  - unfold confirm_match. rewrite Hm. rewrite bool_decide_eq_true_2 by done.
    by eexists.
  - intros [resp H]. unfold accept_match in H. rewrite Hm in H.
    case_bool_decide as Hp; simpl in H; [discriminate|]. exact Hp.
  - intros [resp H]. unfold confirm_match in H. rewrite Hm in H.
    case_bool_decide as Hp; simpl in H; [discriminate|]. exact Hp.
  - intros Ho Hr. unfold reject_match. rewrite Hm.
    destruct (get_offer db (m_offer_id match_)) as [o|] eqn:Eo;
      destruct (get_request db (m_request_id match_)) as [r|] eqn:Er;
      repeat case_bool_decide; simpl;
      try (by eexists);
      try (exfalso; apply Ho; unfold offer_owner; by eauto);
      try (exfalso; apply Hr; unfold requester; by eauto).
  - intros [resp H]. unfold reject_match in H. rewrite Hm in H.
    unfold offer_owner, requester.
    destruct (get_offer db (m_offer_id match_)) as [o|] eqn:Eo;
      destruct (get_request db (m_request_id match_)) as [r|] eqn:Er;
      repeat case_bool_decide; simpl in H; try discriminate; eauto.
Qed.

Lemma only_the_awaited_actor_may_act_witness :
  get_match Examples.db_pending 1
    = Some (mkMatch 1 1 1 PENDING (Some "alice") 1 1) /\
  authorization_denied (accept_match 2 Examples.db_pending 1 Examples.bob).1 /\
  authorization_denied (reject_match 2 Examples.db_pending 1 Examples.carol).1.
Proof.
  assert (Hm : get_match Examples.db_pending 1
                 = Some (mkMatch 1 1 1 PENDING (Some "alice") 1 1))
    by (vm_compute; reflexivity).
  split; [exact Hm|]. split.
  - destruct (only_the_awaited_actor_may_act 2 Examples.db_pending 1
                Examples.bob _ Hm) as [H _].
    apply H. vm_compute. intros [=].
  - destruct (only_the_awaited_actor_may_act 2 Examples.db_pending 1
                Examples.carol _ Hm) as (_ & _ & _ & H & _).
    apply H; vm_compute; intros (x & [= <-] & [=]).
Defined.

(** C2, as the handlers implement it. On an existing match whose status is
    not PENDING, [accept] fails and leaves the store as it was; the signal
    is invalid-transition when the caller is the current [pending_user_id]
    and authorization-denied for every other caller, because the actor
    check comes first.  The same holds of [confirm] on a match whose status
    is not ACCEPTED.  On a match whose status is CONFIRMED or REJECTED none
    of accept, confirm, reject succeeds, and the store is left as it
    was. *)
Theorem wrong_state_transition_fails
    (now : Z) (db : Db) (match_id : nat) (current_user : User) (match_ : Match) :
  get_match db match_id = Some match_ ->
  (m_status match_ <> PENDING ->
     (accept_match now db match_id current_user).2 = db /\
     (m_pending_user_id match_ = Some (u_id current_user) ->
        invalid_transition (accept_match now db match_id current_user).1) /\
     (m_pending_user_id match_ <> Some (u_id current_user) ->
        authorization_denied (accept_match now db match_id current_user).1)) /\
  (m_status match_ <> ACCEPTED ->
     (confirm_match now db match_id current_user).2 = db /\
     (m_pending_user_id match_ = Some (u_id current_user) ->
        invalid_transition (confirm_match now db match_id current_user).1) /\
     (m_pending_user_id match_ <> Some (u_id current_user) ->
        authorization_denied (confirm_match now db match_id current_user).1)) /\
  (non_terminal (m_status match_) = false ->
     forall a : action,
       fails (transition a now db match_id current_user).1 /\
       (transition a now db match_id current_user).2 = db).
Proof.
  intros Hm. split; [|split].
  - intros Hs. unfold accept_match. rewrite Hm.
    case_bool_decide as Hp; simpl.
    + split; [done|]. split; [done|]. intros _. by eexists.
    + rewrite bool_decide_eq_true_2 by done. simpl.
      split; [done|]. split; [|done]. intros _. by eexists.
  - intros Hs. unfold confirm_match. rewrite Hm.
    case_bool_decide as Hp; simpl.
    + split; [done|]. split; [done|]. intros _. by eexists.
    + rewrite bool_decide_eq_true_2 by done. simpl.
      split; [done|]. split; [|done]. intros _. by eexists.
  - intros Ht a.
    destruct a; simpl; unfold accept_match, confirm_match, reject_match;
      rewrite Hm.
    + case_bool_decide; simpl; [split; [by eexists|done]|].
      rewrite bool_decide_eq_true_2; [simpl; split; [by eexists|done]|].
      intros E. by rewrite E in Ht.
    + case_bool_decide; simpl; [split; [by eexists|done]|].
      rewrite bool_decide_eq_true_2; [simpl; split; [by eexists|done]|].
      intros E. by rewrite E in Ht.
    + rewrite Ht. simpl.
      destruct (negb _); simpl; (split; [by eexists|done]).
Qed.

Lemma wrong_state_transition_fails_witness :
  get_match Examples.db_accepted 1
    = Some (mkMatch 1 1 1 ACCEPTED (Some "bob") 1 2) /\
  invalid_transition (accept_match 3 Examples.db_accepted 1 Examples.bob).1 /\
  (accept_match 3 Examples.db_accepted 1 Examples.bob).2 = Examples.db_accepted.
Proof.
  assert (Hm : get_match Examples.db_accepted 1
                 = Some (mkMatch 1 1 1 ACCEPTED (Some "bob") 1 2))
    by (vm_compute; reflexivity).
  split; [exact Hm|].
  destruct (wrong_state_transition_fails 3 Examples.db_accepted 1
              Examples.bob _ Hm) as [H _].
  destruct H as (Hdb & Hinv & _); [simpl; intros [=]|].
  split; [|exact Hdb]. apply Hinv. reflexivity.
Defined.

(** C2 as stated fails: the match of the example store is CONFIRMED, and
    [accept] by the owner of its offer is answered with
    authorization-denied, not with invalid-transition. *)
Lemma accept_on_confirmed_is_not_invalid_transition :
  (exists match_, get_match Examples.db_confirmed 1 = Some match_ /\
                  m_status match_ = CONFIRMED /\
                  offer_owner Examples.db_confirmed match_ Examples.alice) /\
  authorization_denied (accept_match 4 Examples.db_confirmed 1 Examples.alice).1 /\
  ~ invalid_transition (accept_match 4 Examples.db_confirmed 1 Examples.alice).1.
Proof.
  split; [|split].
  - eexists. split; [vm_compute; reflexivity|]. split; [reflexivity|].
    eexists. split; [vm_compute; reflexivity|reflexivity].
  - eexists. vm_compute. reflexivity.
  - intros [detail H]. vm_compute in H. discriminate.
Qed.

(** ** Matching engine *)

Section Matching.

Implicit Types (db : Db) (offer : AvailabilityOffer) (request : AvailabilityRequest).

Lemma uq_free_iff db offer_id request_id :
  uq_offer_request_taken db offer_id request_id = false <->
  pair_matches db offer_id request_id = [].
Proof.
  unfold uq_offer_request_taken, pair_matches.
  induction (matches db) as [|m l IH]; simpl; [done|].
  destruct (bool_decide (m_offer_id m = offer_id)
            && bool_decide (m_request_id m = request_id)); simpl; [|done].
  split; discriminate.
Qed.

Lemma existing_in_pair db offer_id request_id m :
  existing_match db offer_id request_id = Some m ->
  In m (pair_matches db offer_id request_id) /\ non_terminal (m_status m) = true.
Proof.
  unfold existing_match, pair_matches. intros H.
  apply find_some in H as [Hin Hp].
  apply andb_prop in Hp as [Hp Hs]. split; [|done].
  apply filter_In. done.
Qed.

(** What a successful [_create_match] has done. *)
Lemma create_match_ok now db offer request m db' :
  _create_match now db offer request = Ok (m, db') ->
  is_Some (get_offer db (o_id offer)) /\
  is_Some (get_request db (r_id request)) /\
  offers db' = offers db /\ requests db' = requests db /\
  next_offer_id db' = next_offer_id db /\
  next_request_id db' = next_request_id db /\
  ((existing_match db (o_id offer) (r_id request) = Some m /\ db' = db) \/
   (existing_match db (o_id offer) (r_id request) = None /\
    pair_matches db (o_id offer) (r_id request) = [] /\
    m = mkMatch (next_match_id db) (o_id offer) (r_id request) PENDING
                (Some (o_user_id offer)) now now /\
    matches db' = matches db ++ [m])).
Proof.
  unfold _create_match, insert_match. intros H.
  destruct (get_offer db (o_id offer)) as [lo|] eqn:Eo; [|discriminate].
  destruct (get_request db (r_id request)) as [lr|] eqn:Er; [|discriminate].
  destruct (existing_match db (o_id offer) (r_id request)) as [e|] eqn:Ee.
  { simplify_eq. repeat split; eauto. }
  simpl in H.
  destruct (uq_offer_request_taken db (o_id offer) (r_id request)) eqn:Eu;
    [discriminate|].
  unfold mbind, result_bind in H.
  destruct (_send_match_email _ _ _ _ _ _) as [db2|] eqn:Em; [|discriminate].
  apply send_match_email_inv in Em as (u & _ & ->). simplify_eq. simpl.
  repeat split; eauto. right. repeat split. by apply uq_free_iff.
Qed.

(** An [HTTPException] out of [_create_match] is the 404 of a vanished
    row. *)
Lemma create_match_http now db offer request code detail :
  _create_match now db offer request = Raise (HTTPException code detail) ->
  get_offer db (o_id offer) = None \/ get_request db (r_id request) = None.
Proof.
  unfold _create_match, insert_match. intros H.
  destruct (get_offer db (o_id offer)) as [lo|] eqn:Eo; [|by left].
  destruct (get_request db (r_id request)) as [lr|] eqn:Er; [|by right].
  destruct (existing_match db (o_id offer) (r_id request)); [discriminate|].
  simpl in H.
  destruct (uq_offer_request_taken db (o_id offer) (r_id request));
    [discriminate|].
  unfold mbind, result_bind, _send_match_email in H.
  destruct (get_user _ _); discriminate.
Qed.

Lemma pair_matches_app db db' m offer_id request_id :
  matches db' = matches db ++ [m] ->
  pair_matches db' offer_id request_id =
  pair_matches db offer_id request_id ++
    (if bool_decide (m_offer_id m = offer_id)
        && bool_decide (m_request_id m = request_id)
     then [m] else []).
Proof. unfold pair_matches. intros ->. by rewrite List.filter_app. Qed.

(** One call of [_create_match] seen from a pair (oid, rid) owned by
    [owner]: an empty pair stays empty or gets its single PENDING row, a
    pair holding its single PENDING row keeps it, and the call made for
    that very pair leaves the row in place. *)
Lemma create_match_pair now db offer request m db' oid rid owner :
  _create_match now db offer request = Ok (m, db') ->
  (o_id offer = oid -> r_id request = rid -> o_user_id offer = owner) ->
  (pair_matches db oid rid = [] \/ one_pending db oid rid owner) ->
  (pair_matches db' oid rid = [] \/ one_pending db' oid rid owner) /\
  (one_pending db oid rid owner -> one_pending db' oid rid owner) /\
  (o_id offer = oid -> r_id request = rid -> one_pending db' oid rid owner).
Proof.
  intros H Hown Hst.
  apply create_match_ok in H
    as (_ & _ & _ & _ & _ & _ & [[He ->] | (He & Hnil & -> & Hm)]).
  - repeat split; [done..|]. intros <- <-.
    destruct Hst as [Hnil|]; [|done].
    apply existing_in_pair in He as [Hin _]. rewrite Hnil in Hin. destruct Hin.
  - unfold one_pending in *.
    rewrite (pair_matches_app db db' _ oid rid Hm). simpl.
    destruct (decide (o_id offer = oid /\ r_id request = rid)) as [[<- <-]|Hne].
    + rewrite !bool_decide_eq_true_2 by done. simpl. rewrite Hnil. simpl.
      repeat split.
      * right. eexists. repeat split. simpl. by rewrite Hown.
      * intros (m0 & [=] & _).
      * intros _ _. eexists. repeat split. simpl. by rewrite Hown.
    + assert (bool_decide (o_id offer = oid) && bool_decide (r_id request = rid)
              = false) as ->.
      { apply andb_false_iff.
        destruct (decide (o_id offer = oid)) as [E1|E1].
        - right. apply bool_decide_eq_false. intros E2. by apply Hne.
        - left. by apply bool_decide_eq_false. }
      rewrite app_nil_r. repeat split; [done..|].
      intros E1 E2. by destruct Hne.
Qed.

Lemma find_is_Some {A : Type} (p : A -> bool) (l : list A) (x : A) :
  In x l -> p x = true -> is_Some (List.find p l).
Proof.
  intros Hin Hp. destruct (List.find p l) eqn:E; [by eexists|].
  pose proof (find_none _ _ E _ Hin). congruence.
Qed.

Lemma get_offer_same_table db db' ident :
  offers db' = offers db -> get_offer db' ident = get_offer db ident.
Proof. unfold get_offer. by intros ->. Qed.

Lemma get_request_same_table db db' ident :
  requests db' = requests db -> get_request db' ident = get_request db ident.
Proof. unfold get_request. by intros ->. Qed.

Lemma create_match_keys_fresh now db offer request m db' :
  keys_fresh db ->
  _create_match now db offer request = Ok (m, db') ->
  keys_fresh db'.
Proof.
  intros (Ho & Hr & Hm) H.
  apply create_match_ok in H
    as ([o Eo] & [r Er] & Eos & Ers & Eno & Enr & [[_ ->] | (_ & _ & -> & Ems)]);
    [done|].
  unfold keys_fresh. rewrite Eos, Ers, Eno, Enr, Ems.
  split; [done|]. split; [done|].
  intros m Hin. apply in_app_or in Hin as [Hin|[<-|[]]]; [by apply Hm|].
  simpl.
  apply find_some in Eo as [Hino Eo]. apply bool_decide_eq_true in Eo.
  apply find_some in Er as [Hinr Er]. apply bool_decide_eq_true in Er.
  rewrite <- Eo, <- Er. split; [by apply Ho | by apply Hr].
Qed.

(** The loop of [_match_request], seen from the pair (oid, request). *)
Lemma match_request_loop_pair now request oid owner offs :
  forall db acc ms db',
  _match_request_loop now db request offs acc = Ok (ms, db') ->
  keys_fresh db ->
  (forall off, In off offs -> o_id off = oid -> o_user_id off = owner) ->
  (pair_matches db oid (r_id request) = [] \/
   one_pending db oid (r_id request) owner) ->
  keys_fresh db' /\
  offers db' = offers db /\ requests db' = requests db /\
  next_offer_id db' = next_offer_id db /\
  next_request_id db' = next_request_id db /\
  (one_pending db oid (r_id request) owner ->
   one_pending db' oid (r_id request) owner) /\
  ((exists off, In off offs /\ o_id off = oid) ->
   is_Some (get_offer db oid) -> is_Some (get_request db (r_id request)) ->
   one_pending db' oid (r_id request) owner).
Proof.
  induction offs as [|off rest IH]; intros db acc ms db' H Hk Hown Hst.
  { simpl in H. simplify_eq. split_and!; [done..|]. by intros (? & [] & _). }
  simpl in H.
  destruct (_create_match now db off request) as [[m db1]|e] eqn:Ec.
  - pose proof (create_match_keys_fresh _ _ _ _ _ _ Hk Ec) as Hk1.
    pose proof (create_match_ok _ _ _ _ _ _ Ec)
      as (_ & _ & Eos & Ers & Eno & Enr & _).
    destruct (create_match_pair now db off request m db1 oid (r_id request) owner Ec)
      as (Hst1 & Hkeep & Hnew); [intros E _; apply Hown; [by left|done] | done |].
    destruct (IH db1 _ _ _ H Hk1) as (Hk' & Eos' & Ers' & Eno' & Enr' & Hkeep' & Hnew');
      [intros o Hin; apply Hown; by right | done |].
    split_and!; [done | congruence.. | by auto |].
    intros (o & [<-|Hin] & Eid) Hso Hsr.
    + apply Hkeep'. by apply Hnew.
    + apply Hnew'; [by eauto | |].
      * by rewrite (get_offer_same_table db db1).
      * by rewrite (get_request_same_table db db1).
  - destruct e; try discriminate.
    destruct (IH db _ _ _ H Hk) as (Hk' & Eos' & Ers' & Eno' & Enr' & Hkeep' & Hnew');
      [intros o Hin; apply Hown; by right | done |].
    split_and!; [done..|].
    intros (o & [<-|Hin] & Eid) Hso Hsr; [|by apply Hnew'; eauto].
    apply create_match_http in Ec as [Ec|Ec]; rewrite ?Eid in Ec;
      rewrite Ec in *; by destruct Hso, Hsr.
Qed.

(** The loop of [_match_offer], seen from the pair (offer, rid). *)
Lemma match_offer_loop_pair now offer rid reqs :
  forall db acc ms db',
  _match_offer_loop now db offer reqs acc = Ok (ms, db') ->
  keys_fresh db ->
  (pair_matches db (o_id offer) rid = [] \/
   one_pending db (o_id offer) rid (o_user_id offer)) ->
  keys_fresh db' /\
  offers db' = offers db /\ requests db' = requests db /\
  next_offer_id db' = next_offer_id db /\
  next_request_id db' = next_request_id db /\
  (one_pending db (o_id offer) rid (o_user_id offer) ->
   one_pending db' (o_id offer) rid (o_user_id offer)) /\
  ((exists req, In req reqs /\ r_id req = rid) ->
   is_Some (get_offer db (o_id offer)) -> is_Some (get_request db rid) ->
   one_pending db' (o_id offer) rid (o_user_id offer)).
Proof.
  induction reqs as [|req rest IH]; intros db acc ms db' H Hk Hst.
  { simpl in H. simplify_eq. split_and!; [done..|]. by intros (? & [] & _). }
  simpl in H.
  destruct (_create_match now db offer req) as [[m db1]|e] eqn:Ec.
  - pose proof (create_match_keys_fresh _ _ _ _ _ _ Hk Ec) as Hk1.
    pose proof (create_match_ok _ _ _ _ _ _ Ec)
      as (_ & _ & Eos & Ers & Eno & Enr & _).
    destruct (create_match_pair now db offer req m db1 (o_id offer) rid
                (o_user_id offer) Ec)
      as (Hst1 & Hkeep & Hnew); [done..|].
    destruct (IH db1 _ _ _ H Hk1) as (Hk' & Eos' & Ers' & Eno' & Enr' & Hkeep' & Hnew');
      [done|].
    split_and!; [done | congruence.. | by auto |].
    intros (r & [<-|Hin] & Eid) Hso Hsr.
    + apply Hkeep'. by apply Hnew.
    + apply Hnew'; [by eauto | |].
      * by rewrite (get_offer_same_table db db1).
      * by rewrite (get_request_same_table db db1).
  - destruct e; try discriminate.
    destruct (IH db _ _ _ H Hk) as (Hk' & Eos' & Ers' & Eno' & Enr' & Hkeep' & Hnew');
      [done|].
    split_and!; [done..|].
    intros (r & [<-|Hin] & Eid) Hso Hsr; [|by apply Hnew'; eauto].
    apply create_match_http in Ec as [Ec|Ec]; rewrite ?Eid in Ec;
      rewrite Ec in *; by destruct Hso, Hsr.
Qed.

Lemma keys_fresh_insert_offer db o :
  keys_fresh db -> o_id o = next_offer_id db -> keys_fresh (insert_offer db o).
Proof.
  intros (Ho & Hr & Hm) Eid. unfold keys_fresh. simpl. split_and!.
  - intros o' Hin. apply in_app_or in Hin as [Hin|[<-|[]]]; [|lia].
    specialize (Ho _ Hin). lia.
  - done.
  - intros m Hin. destruct (Hm _ Hin). lia.
Qed.

Lemma keys_fresh_insert_request db r :
  keys_fresh db -> r_id r = next_request_id db -> keys_fresh (insert_request db r).
Proof.
  intros (Ho & Hr & Hm) Eid. unfold keys_fresh. simpl. split_and!.
  - done.
  - intros r' Hin. apply in_app_or in Hin as [Hin|[<-|[]]]; [|lia].
    specialize (Hr _ Hin). lia.
  - intros m Hin. destruct (Hm _ Hin). lia.
Qed.

(** No match refers to a key that has not been handed out yet. *)
Lemma pair_matches_fresh db oid rid :
  keys_fresh db ->
  (next_offer_id db <= oid)%nat \/ (next_request_id db <= rid)%nat ->
  pair_matches db oid rid = [].
Proof.
  intros (_ & _ & Hm) Hge.
  destruct (pair_matches db oid rid) as [|m l] eqn:E; [done|].
  assert (Hin : In m (pair_matches db oid rid)) by (rewrite E; by left).
  apply filter_In in Hin as [Hin Hp].
  apply andb_prop in Hp as [Ho Hr].
  apply bool_decide_eq_true in Ho, Hr. destruct (Hm _ Hin). lia.
Qed.

Lemma create_offer_ok now db slot current_user oid db' :
  create_offer now db slot current_user = (Ok oid, db') ->
  let offer := mkOffer (next_offer_id db) (u_id current_user)
                       (start_at slot) (end_at slot) in
  oid = next_offer_id db /\
  exists ms, _match_offer now (insert_offer db offer) offer = Ok (ms, db').
Proof.
  unfold create_offer. intros H.
  destruct (negb (valid slot)); [discriminate|].
  destruct (_ || _); [discriminate|].
  destruct (existsb _ _); [discriminate|].
  destruct (_match_offer _ _ _) as [[ms db2]|e]; [|discriminate].
  simplify_eq. simpl. eauto.
Qed.

Lemma create_request_ok now db slot current_user rid db' :
  create_request now db slot current_user = (Ok rid, db') ->
  let request := mkRequest (next_request_id db) (u_id current_user)
                           (start_at slot) (end_at slot) in
  rid = next_request_id db /\
  exists ms, _match_request now (insert_request db request) request = Ok (ms, db').
Proof.
  unfold create_request. intros H.
  destruct (negb (valid slot)); [discriminate|].
  destruct (_ || _); [discriminate|].
  destruct (existsb _ _); [discriminate|].
  destruct (_match_request _ _ _) as [[ms db2]|e]; [|discriminate].
  simplify_eq. simpl. eauto.
Qed.

End Matching.

(** X25. From a store in which every key in use, and every key a match
    refers to, lies below the next key of its table, let an offer by [uO]
    over [slotO] and a request by another user [uR] over a window [slotR]
    contained in [slotO] both be created, in either order.  Then the store
    holds exactly one match for the pair of keys the two creations
    returned; it is PENDING and awaits the owner of the offer.  And when a
    PENDING or ACCEPTED match of a pair already exists, [_create_match]
    returns that row and leaves the store as it is. *)
Theorem compatible_pair_yields_one_pending_match
    (now1 now2 : Z) (db0 : Db) (slotO slotR : SlotIn) (uO uR : User) :
  keys_fresh db0 ->
  start_at slotR >= start_at slotO ->
  end_at slotR <= end_at slotO ->
  u_id uO <> u_id uR ->
  (forall oid rid db1 db2,
     create_offer now1 db0 slotO uO = (Ok oid, db1) ->
     create_request now2 db1 slotR uR = (Ok rid, db2) ->
     one_pending db2 oid rid (u_id uO)) /\
  (forall oid rid db1 db2,
     create_request now1 db0 slotR uR = (Ok rid, db1) ->
     create_offer now2 db1 slotO uO = (Ok oid, db2) ->
     one_pending db2 oid rid (u_id uO)) /\
  (forall now db offer request existing,
     is_Some (get_offer db (o_id offer)) ->
     is_Some (get_request db (r_id request)) ->
     existing_match db (o_id offer) (r_id request) = Some existing ->
     _create_match now db offer request = Ok (existing, db)).
Proof.
  intros Hk Hstart Hend Hne. split_and!.
  - (* the offer first *)
    intros oid rid db1 db2 HO HR.
    apply create_offer_ok in HO as [-> [ms HO]].
    apply create_request_ok in HR as [-> [ms' HR]].
    set (O := mkOffer (next_offer_id db0) (u_id uO) (start_at slotO) (end_at slotO)) in *.
    set (R := mkRequest (next_request_id db1) (u_id uR) (start_at slotR) (end_at slotR)) in *.
    unfold _match_offer in HO. unfold _match_request in HR.
    destruct (match_offer_loop_pair now1 O 0%nat _ _ _ _ _ HO)
      as (Hk1 & Eos & _ & Eno & _).
    { by apply keys_fresh_insert_offer. }
    { left. apply (pair_matches_fresh db0); [done|]. left. simpl. lia. }
    simpl in Eos, Eno.
    assert (Hk1' : keys_fresh (insert_request db1 R))
      by (by apply keys_fresh_insert_request).
    destruct (match_request_loop_pair now2 R (next_offer_id db0) (u_id uO)
                _ _ _ _ _ HR Hk1') as (_ & _ & _ & _ & _ & _ & Hnew).
    { intros off Hin Eid. apply filter_In in Hin as [Hin _]. simpl in Hin.
      rewrite Eos in Hin. apply in_app_or in Hin as [Hin|[<-|[]]]; [|done].
      destruct Hk as (Ho & _). specialize (Ho _ Hin). lia. }
    { left. apply (pair_matches_fresh db1); [done|]. right. simpl. lia. }
    apply Hnew.
    + exists O. split; [|done]. apply filter_In. split.
      * simpl. rewrite Eos. apply in_or_app. right. by left.
      * simpl. rewrite !bool_decide_eq_true_2; [done|done|lia|lia].
    + apply (find_is_Some _ _ O); [|by apply bool_decide_eq_true_2].
      simpl. rewrite Eos. apply in_or_app. right. by left.
    + apply (find_is_Some _ _ R); [|by apply bool_decide_eq_true_2].
      simpl. apply in_or_app. right. by left.
  - (* the request first *)
    intros oid rid db1 db2 HR HO.
    apply create_request_ok in HR as [-> [ms HR]].
    apply create_offer_ok in HO as [-> [ms' HO]].
    set (R := mkRequest (next_request_id db0) (u_id uR) (start_at slotR) (end_at slotR)) in *.
    set (O := mkOffer (next_offer_id db1) (u_id uO) (start_at slotO) (end_at slotO)) in *.
    unfold _match_offer in HO. unfold _match_request in HR.
    destruct (match_request_loop_pair now1 R (next_offer_id db0) (u_id uO)
                _ _ _ _ _ HR)
      as (Hk1 & _ & Ers & _ & Enr & _).
    { by apply keys_fresh_insert_request. }
    { intros off Hin Eid. apply filter_In in Hin as [Hin _]. simpl in Hin.
      destruct Hk as (Ho & _). specialize (Ho _ Hin). lia. }
    { left. apply (pair_matches_fresh db0); [done|]. right. simpl. lia. }
    simpl in Ers, Enr.
    assert (Hk1' : keys_fresh (insert_offer db1 O))
      by (by apply keys_fresh_insert_offer).
    destruct (match_offer_loop_pair now2 O (next_request_id db0)
                _ _ _ _ _ HO Hk1') as (_ & _ & _ & _ & _ & _ & Hnew).
    { left. apply (pair_matches_fresh db1); [done|]. left. simpl. lia. }
    apply Hnew.
    + exists R. split; [|done]. apply filter_In. split.
      * simpl. rewrite Ers. apply in_or_app. right. by left.
      * simpl. rewrite !bool_decide_eq_true_2; [done|congruence|lia|lia].
    + apply (find_is_Some _ _ O); [|by apply bool_decide_eq_true_2].
      simpl. apply in_or_app. right. by left.
    + apply (find_is_Some _ _ R); [|by apply bool_decide_eq_true_2].
      simpl. rewrite Ers. apply in_or_app. right. by left.
  - (* the protocol is idempotent *)
    intros now db offer request existing [o Eo] [r Er] He.
    unfold _create_match. by rewrite Eo, Er, He.
Qed.

Lemma compatible_pair_yields_one_pending_match_witness :
  keys_fresh Examples.db_users /\
  one_pending Examples.db_pending 1 1 "alice".
Proof.
  assert (Hk : keys_fresh Examples.db_users).
  { unfold keys_fresh. simpl. split_and!; intros ? []. }
  split; [exact Hk|].
  destruct (compatible_pair_yields_one_pending_match 0 1 Examples.db_users
              (mkSlot 10 40) (mkSlot 20 30) Examples.alice Examples.bob Hk)
    as [H _]; [simpl; lia | simpl; lia | simpl; intros [=] |].
  apply (H 1%nat 1%nat Examples.db_offer Examples.db_pending);
    vm_compute; reflexivity.
Defined.

(** C1 at the failing store.  Alice's offer 1 contained Bob's request 1;
    the two were matched and Alice rejected the match.  She then deleted
    the offer: the default store does not enforce the foreign key, so the
    REJECTED match stayed behind, and it issues the largest free key
    again, so her next offer is offer 1 once more.  Creating it commits the
    offer and ends in an [IntegrityError]: the existence check of
    [_create_match] passes over the REJECTED match, and the insert of a
    PENDING match for the pair violates [uq_offer_request].  The offer and
    the request are both stored, they are compatible, and the pair has no
    PENDING match.  Deleting and creating the request instead ends the
    same way. *)
Theorem creation_on_a_reissued_key_leaves_the_pair_unmatched :
  keys_fresh Examples.db_rejected /\
  delete_offer false Examples.db_rejected 1 Examples.alice
    = (Ok tt, Scenarios.db_withdrawn) /\
  matches Scenarios.db_withdrawn = [Scenarios.rejected_match] /\
  next_offer_id Scenarios.db_withdrawn = 1%nat /\
  Scenarios.reoffer.1 = Raise IntegrityError /\
  offers Scenarios.reoffer.2 = [Examples.offer_1] /\
  requests Scenarios.reoffer.2 = [Examples.request_1] /\
  compatible Examples.offer_1 Examples.request_1 /\
  pair_matches Scenarios.reoffer.2 1 1 = [Scenarios.rejected_match] /\
  ~ one_pending Scenarios.reoffer.2 1 1 "alice" /\
  delete_request false Examples.db_rejected 1 Examples.bob
    = (Ok tt, Scenarios.db_request_withdrawn) /\
  Scenarios.rerequest.1 = Raise IntegrityError /\
  pair_matches Scenarios.rerequest.2 1 1 = [Scenarios.rejected_match] /\
  ~ one_pending Scenarios.rerequest.2 1 1 "alice".
Proof.
  assert (Hpair : pair_matches Scenarios.reoffer.2 1 1 = [Scenarios.rejected_match])
    by (vm_compute; reflexivity).
  assert (Hpair' : pair_matches Scenarios.rerequest.2 1 1
                   = [Scenarios.rejected_match])
    by (vm_compute; reflexivity).
  split_and!; try (vm_compute; reflexivity).
  - unfold keys_fresh. split_and!; intros x Hin; vm_compute in Hin;
      destruct Hin as [<-|[]]; simpl; lia.
  - unfold compatible. simpl. split_and!; [lia|lia|discriminate].
  - intros (m & Hm & Hstatus & _). rewrite Hpair in Hm.
    injection Hm as <-. discriminate Hstatus.
  - intros (m & Hm & Hstatus & _). rewrite Hpair' in Hm.
    injection Hm as <-. discriminate Hstatus.
Qed.

(** A candidate whose row has vanished is skipped: the 404 of
    [_create_match] is caught and the loop goes on with the store as it
    was. *)
Lemma match_offer_loop_skips_vanished_request now db offer req rest acc :
  get_request db (r_id req) = None ->
  _match_offer_loop now db offer (req :: rest) acc
  = _match_offer_loop now db offer rest acc.
Proof.
  intros E. simpl. unfold _create_match. rewrite E.
  by destruct (get_offer db (o_id offer)).
Qed.

Lemma match_request_loop_skips_vanished_offer now db request off rest acc :
  get_offer db (o_id off) = None ->
  _match_request_loop now db request (off :: rest) acc
  = _match_request_loop now db request rest acc.
Proof. intros E. simpl. unfold _create_match. by rewrite E. Qed.

(** Any other exception of [_create_match] ends the loop and leaves it. *)
Lemma match_offer_loop_aborts now db offer req rest acc e :
  _create_match now db offer req = Raise e ->
  (forall code detail, e <> HTTPException code detail) ->
  _match_offer_loop now db offer (req :: rest) acc = Raise e.
Proof.
  intros E Hne. simpl. rewrite E. destruct e; try done.
  by destruct (Hne status_code detail).
Qed.

Lemma match_request_loop_aborts now db request off rest acc e :
  _create_match now db off request = Raise e ->
  (forall code detail, e <> HTTPException code detail) ->
  _match_request_loop now db request (off :: rest) acc = Raise e.
Proof.
  intros E Hne. simpl. rewrite E. destruct e; try done.
  by destruct (Hne status_code detail).
Qed.

(** C5 at the failing store.  Offer 1 has two compatible candidates.  The
    pair (offer 1, request 1) holds a REJECTED match, which the existence
    check does not see, so the insert of a new PENDING row for it violates
    [uq_offer_request]; the error is not an [HTTPException], it leaves
    [_match_offer], and request 2, whose pairing on its own returns its
    PENDING match, is never reached. *)
Theorem match_offer_aborts_on_constraint_violation :
  matches Examples.db_resolved_pair
    = [mkMatch 1 1 1 REJECTED None 1 3;
       mkMatch 2 1 2 PENDING (Some "alice") 2 2] /\
  requests_within Examples.db_resolved_pair Examples.offer_1
    = [Examples.request_1; Examples.request_2] /\
  _create_match 5 Examples.db_resolved_pair Examples.offer_1 Examples.request_1
    = Raise IntegrityError /\
  _create_match 5 Examples.db_resolved_pair Examples.offer_1 Examples.request_2
    = Ok (mkMatch 2 1 2 PENDING (Some "alice") 2 2, Examples.db_resolved_pair) /\
  _match_offer 5 Examples.db_resolved_pair Examples.offer_1
    = Raise IntegrityError /\
  _match_request 5 Examples.db_resolved_pair Examples.request_1
    = Raise IntegrityError.
Proof. split_and!; vm_compute; reflexivity. Qed.

(** ** Connection registry *)

Section Registry.

Implicit Types (ac : gmap string (gset nat)) (broken conns : gset nat).

Lemma connect_lookup user_id websocket ac :
  connect user_id websocket ac !! user_id
  = Some (default ∅ (ac !! user_id) ∪ {[websocket]}).
Proof.
  unfold connect. destruct (ac !! user_id) as [conns|] eqn:E.
  - rewrite lookup_alter_eq, E. done.
  - rewrite lookup_alter_eq, lookup_insert_eq. done.
Qed.

Lemma connect_lookup_ne user_id websocket ac u' :
  u' <> user_id -> connect user_id websocket ac !! u' = ac !! u'.
Proof.
  intros Hne. unfold connect. rewrite lookup_alter_ne by done.
  destruct (ac !! user_id); [done|]. by rewrite lookup_insert_ne.
Qed.

Lemma disconnect_lookup user_id websocket ac :
  default ∅ (disconnect user_id websocket ac !! user_id)
  = default ∅ (ac !! user_id) ∖ {[websocket]}.
Proof.
  unfold disconnect. destruct (ac !! user_id) as [conns|] eqn:E; simpl.
  - case_decide as He.
    + rewrite lookup_delete_eq. simpl. by rewrite He.
    + by rewrite lookup_insert_eq.
  - rewrite E. simpl. set_solver.
Qed.

Lemma disconnect_lookup_ne user_id websocket ac u' :
  u' <> user_id -> disconnect user_id websocket ac !! u' = ac !! u'.
Proof.
  intros Hne. unfold disconnect. destruct (ac !! user_id); [|done].
  case_decide; [by rewrite lookup_delete_ne | by rewrite lookup_insert_ne].
Qed.

Lemma connect_no_empty_entry user_id websocket ac :
  no_empty_entry ac -> no_empty_entry (connect user_id websocket ac).
Proof.
  intros Hinv u conns. destruct (decide (u = user_id)) as [->|Hne].
  - rewrite connect_lookup. intros [= <-]. set_solver.
  - rewrite connect_lookup_ne by done. apply Hinv.
Qed.

Lemma disconnect_no_empty_entry user_id websocket ac :
  no_empty_entry ac -> no_empty_entry (disconnect user_id websocket ac).
Proof.
  intros Hinv u conns. destruct (decide (u = user_id)) as [->|Hne].
  - unfold disconnect. destruct (ac !! user_id) as [c|] eqn:E.
    + case_decide as He.
      * by rewrite lookup_delete_eq.
      * rewrite lookup_insert_eq. by intros [= <-].
    + rewrite E. done.
  - rewrite disconnect_lookup_ne by done. apply Hinv.
Qed.



Lemma disconnect_all_no_empty_entry user_id (l : list nat) :
  forall ac, no_empty_entry ac ->
  no_empty_entry (foldl (fun ac ws => disconnect user_id ws ac) ac l).
Proof.
  induction l as [|ws l IH]; intros ac Hinv; simpl; [done|].
  apply IH. by apply disconnect_no_empty_entry.
Qed.

(** The delivery loop: the working connections get the frame, in the order
    of the iteration; the others are collected. *)
Lemma send_all_spec broken message (conns : list nat) :
  forall sent disconnected,
  foldl (fun '(sent, disconnected) websocket =>
           match send_json broken websocket message sent with
           | Ok sent' => (sent', disconnected)
           | Raise _ => (sent, disconnected ++ [websocket])
           end)
        (sent, disconnected) conns
  = (sent ++ ((fun ws => (ws, message)) <$> filter (fun ws => ws ∉ broken) conns),
     disconnected ++ filter (fun ws => ws ∈ broken) conns).
Proof.
  induction conns as [|ws conns IH]; intros sent disconnected; simpl.
  - by rewrite !app_nil_r.
  - unfold send_json at 2. case_decide as Hb.
    + rewrite IH. rewrite filter_cons_False by (intros ?; done).
      rewrite filter_cons_True by done. by rewrite <- app_assoc.
    + rewrite IH. rewrite filter_cons_True by done.
      rewrite filter_cons_False by done. simpl. by rewrite <- app_assoc.
Qed.

End Registry.

Section Delivery.

Implicit Types (broken conns : gset nat) (sent : list (nat * json)).

Lemma delivered_to_app websocket sent1 sent2 :
  delivered_to websocket (sent1 ++ sent2)
  = delivered_to websocket sent1 ++ delivered_to websocket sent2.
Proof. unfold delivered_to. by rewrite List.filter_app, map_app. Qed.

Lemma delivered_to_cons websocket w (message : json) sent :
  delivered_to websocket ((w, message) :: sent)
  = (if bool_decide (w = websocket) then [message] else [])
      ++ delivered_to websocket sent.
Proof. unfold delivered_to. simpl. by destruct (bool_decide (w = websocket)). Qed.

Lemma delivered_to_absent websocket message (l : list nat) :
  websocket ∉ l ->
  delivered_to websocket ((fun ws => (ws, message)) <$> l) = [].
Proof.
  induction l as [|w l IH]; intros Hnin; [done|].
  apply not_elem_of_cons in Hnin as [Hne Hnin].
  rewrite fmap_cons, delivered_to_cons, IH by done.
  by rewrite bool_decide_eq_false_2.
Qed.

Lemma delivered_to_once websocket message (l : list nat) :
  NoDup l -> websocket ∈ l ->
  delivered_to websocket ((fun ws => (ws, message)) <$> l) = [message].
Proof.
  induction l as [|w l IH]; intros Hnd Hin; [by apply elem_of_nil in Hin|].
  apply NoDup_cons in Hnd as [Hw Hnd].
  rewrite fmap_cons, delivered_to_cons.
  destruct (decide (w = websocket)) as [->|Hne].
  - rewrite bool_decide_eq_true_2 by done.
    by rewrite delivered_to_absent.
  - apply elem_of_cons in Hin as [->|Hin]; [done|].
    rewrite bool_decide_eq_false_2 by done. by rewrite IH.
Qed.

(** [send_personal_message] on a registered user, in closed form. *)
Lemma send_personal_message_registered broken message user_id net conns :
  active_connections net !! user_id = Some conns ->
  send_personal_message broken message user_id net
  = mkNet (foldl (fun ac ws => disconnect user_id ws ac) (active_connections net)
                 (filter (fun ws => ws ∈ broken) (elements conns)))
          (sent net ++ ((fun ws => (ws, message))
                          <$> filter (fun ws => ws ∉ broken) (elements conns))).
Proof.
  intros E. unfold send_personal_message, send_all. rewrite E.
  by rewrite send_all_spec.
Qed.

(** What one fan-out does to the frames handed to a connection. *)
Lemma send_personal_message_delivery broken message user_id net conns :
  active_connections net !! user_id = Some conns ->
  (forall ws, ws ∈ conns -> ws ∉ broken ->
     delivered_to ws (sent (send_personal_message broken message user_id net))
     = delivered_to ws (sent net) ++ [message]) /\
  (forall ws, ws ∉ conns \/ ws ∈ broken ->
     delivered_to ws (sent (send_personal_message broken message user_id net))
     = delivered_to ws (sent net)).
Proof.
  intros E. rewrite (send_personal_message_registered _ _ _ _ _ E). simpl.
  split.
  - intros ws Hin Hb. rewrite delivered_to_app. f_equal.
    apply delivered_to_once.
    + apply NoDup_filter, NoDup_elements.
    + apply list_elem_of_filter. split; [done|]. by apply elem_of_elements.
  - intros ws Hws. rewrite delivered_to_app.
    rewrite delivered_to_absent; [by rewrite app_nil_r|].
    intros Hin. apply list_elem_of_filter in Hin as [Hb Hin].
    apply elem_of_elements in Hin. by destruct Hws.
Qed.

End Delivery.



Lemma send_personal_message_no_empty_entry broken message user_id net :
  no_empty_entry (active_connections net) ->
  no_empty_entry (active_connections
                    (send_personal_message broken message user_id net)).
Proof.
  intros Hinv.
  destruct (active_connections net !! user_id) as [conns|] eqn:E.
  - rewrite (send_personal_message_registered _ _ _ _ _ E). simpl.
    by apply disconnect_all_no_empty_entry.
  - unfold send_personal_message. by rewrite E.
Qed.

Lemma run_ops_no_empty_entry (ops : list op) :
  forall net, no_empty_entry (active_connections net) ->
  no_empty_entry (active_connections (run_ops ops net)).
Proof.
  induction ops as [|o ops IH]; intros net Hinv; [done|].
  unfold run_ops. simpl. apply IH. destruct o; simpl.
  - by apply connect_no_empty_entry.
  - by apply disconnect_no_empty_entry.
  - by apply send_personal_message_no_empty_entry.
Qed.

(** C10. [connect] binds the user's key to its former set (the empty set
    when the key was absent) plus the new connection; [disconnect] drops
    the key when taking the connection out leaves the set empty, and
    otherwise binds the key to the remaining set; and from the empty
    registry, after any sequence of connect, disconnect and
    send-to-user operations, no key is bound to the empty set. *)
Theorem registry_never_binds_an_empty_set :
  (forall user_id websocket (ac : gmap string (gset nat)),
     connect user_id websocket ac !! user_id
     = Some (default ∅ (ac !! user_id) ∪ {[websocket]})) /\
  (forall user_id websocket (ac : gmap string (gset nat)) conns,
     ac !! user_id = Some conns ->
     disconnect user_id websocket ac !! user_id
     = if decide (conns ∖ {[websocket]} = ∅) then None
       else Some (conns ∖ {[websocket]})) /\
  (forall ops : list op,
     no_empty_entry (active_connections (run_ops ops init))) /\
  (forall (ops : list op) (net : Net),
     no_empty_entry (active_connections net) ->
     no_empty_entry (active_connections (run_ops ops net))).
Proof.
  split_and!.
  - apply connect_lookup.
  - intros user_id websocket ac conns E. unfold disconnect. rewrite E.
    case_decide; [apply lookup_delete_eq | apply lookup_insert_eq].
  - intros ops. apply run_ops_no_empty_entry. intros u conns. simpl.
    by rewrite lookup_empty.
  - intros ops net. apply run_ops_no_empty_entry.
Qed.

Lemma registry_never_binds_an_empty_set_witness :
  no_empty_entry
    (active_connections
       (run_ops [Disconnect "alice" 1%nat;
                 SendToUser {[2%nat; 3%nat]} Examples.notice "alice";
                 SendToUser {[3%nat]} Examples.notice "bob"]
                Examples.net_two_users)).
Proof.
  destruct registry_never_binds_an_empty_set as (_ & _ & Hinit & Hstep).
  apply Hstep. apply (Hinit [Connect "alice" 1%nat; Connect "alice" 2%nat;
                             Connect "bob" 3%nat]).
Defined.

(** ** Receive loop *)

Lemma type_is_ping_other fields :
  dict_get fields "type" <> JStr "ping" ->
  type_is_ping (JObj fields) = Ok false.
Proof.
  intros Hne. unfold type_is_ping.
  destruct (dict_get fields "type") as [| | |s| |]; try done.
  rewrite bool_decide_eq_false_2; [done|]. intros ->. by apply Hne.
Qed.

Lemma receive_loop_cons broken user_id websocket frame rest net :
  receive_loop broken user_id websocket (frame :: rest) net
  = match on_frame broken websocket frame (sent net) with
    | Ok sent' =>
        receive_loop broken user_id websocket rest
                     (mkNet (active_connections net) sent')
    | Raise _ =>
        (mkNet (disconnect user_id websocket (active_connections net)) (sent net),
         false)
    end.
Proof. reflexivity. Qed.

Lemma on_frame_object broken websocket fields sent :
  on_frame broken websocket (Text (Some (JObj fields))) sent
  = is_ping ← type_is_ping (JObj fields);
    if is_ping : bool
    then send_json broken websocket (JObj [("type", JStr "pong")]) sent
    else Ok sent.
Proof. reflexivity. Qed.

Lemma type_is_ping_ping fields :
  dict_get fields "type" = JStr "ping" ->
  type_is_ping (JObj fields) = Ok true.
Proof. intros E. unfold type_is_ping. by rewrite E. Qed.

(** C6, as the loop implements it. A frame that decodes to an object whose
    ["type"] is ["ping"] is answered at once with [{"type": "pong"}] on the
    same connection, and the loop goes on; every other frame that decodes
    to an object changes nothing, and the loop goes on.  A frame that is
    not valid JSON, or that decodes to something other than an object,
    ends the loop and takes the connection out of the registry, as does a
    pong that cannot be written and a disconnect; taking the connection out
    removes that connection only. *)
Theorem receive_loop_frames
    (broken : gset nat) (user_id : string) (websocket : nat)
    (rest : list inbound) (net : Net) :
  (forall fields,
     dict_get fields "type" = JStr "ping" -> websocket ∉ broken ->
     receive_loop broken user_id websocket
                  (Text (Some (JObj fields)) :: rest) net
     = receive_loop broken user_id websocket rest
         (mkNet (active_connections net)
                (sent net ++ [(websocket, JObj [("type", JStr "pong")])]))) /\
  (forall fields,
     dict_get fields "type" <> JStr "ping" ->
     receive_loop broken user_id websocket
                  (Text (Some (JObj fields)) :: rest) net
     = receive_loop broken user_id websocket rest net) /\
  (forall decoded,
     (forall fields, decoded <> Some (JObj fields)) ->
     receive_loop broken user_id websocket (Text decoded :: rest) net
     = (mkNet (disconnect user_id websocket (active_connections net)) (sent net),
        false)) /\
  (forall fields,
     dict_get fields "type" = JStr "ping" -> websocket ∈ broken ->
     receive_loop broken user_id websocket
                  (Text (Some (JObj fields)) :: rest) net
     = (mkNet (disconnect user_id websocket (active_connections net)) (sent net),
        false)) /\
  receive_loop broken user_id websocket (Closed :: rest) net
  = (mkNet (disconnect user_id websocket (active_connections net)) (sent net),
     false) /\
  (forall ws,
     ws ∈ default ∅ (disconnect user_id websocket (active_connections net) !! user_id)
     <-> ws ∈ default ∅ (active_connections net !! user_id) /\ ws <> websocket) /\
  (forall u', u' <> user_id ->
     disconnect user_id websocket (active_connections net) !! u'
     = active_connections net !! u').
Proof.
  split_and!.
  - intros fields Hping Hok.
    rewrite receive_loop_cons, on_frame_object, (type_is_ping_ping _ Hping).
    simpl. unfold send_json. by rewrite decide_False.
  - intros fields Hother.
    rewrite receive_loop_cons, on_frame_object, (type_is_ping_other _ Hother).
    simpl. by destruct net.
  - intros decoded Hno. rewrite receive_loop_cons.
    destruct decoded as [[| | | | |fields]|]; try done.
    by destruct (Hno fields).
  - intros fields Hping Hbad.
    rewrite receive_loop_cons, on_frame_object, (type_is_ping_ping _ Hping).
    simpl. unfold send_json. by rewrite decide_True.
  - done.
  - intros ws. rewrite disconnect_lookup. set_solver.
  - intros u' Hne. by apply disconnect_lookup_ne.
Qed.

Lemma receive_loop_frames_witness :
  receive_loop ∅ "alice" 1%nat
    [Text (Some Examples.ping); Text (Some Examples.notice)]
    Examples.net_two_users
  = (mkNet (active_connections Examples.net_two_users) [(1%nat, Examples.pong)],
     true).
Proof.
  destruct (receive_loop_frames ∅ "alice" 1%nat [Text (Some Examples.notice)]
              Examples.net_two_users) as (Hping & _).
  unfold Examples.ping. rewrite Hping; [|reflexivity|set_solver].
  destruct (receive_loop_frames ∅ "alice" 1%nat []
              (mkNet (active_connections Examples.net_two_users)
                     (sent Examples.net_two_users
                        ++ [(1%nat, JObj [("type", JStr "pong")])])))
    as (_ & Hother & _).
  unfold Examples.notice. rewrite Hother; [reflexivity|].
  vm_compute. intros [=].
Defined.

(** C6 as stated fails: the text frame [[]] decodes to a JSON array; the
    loop does not ignore it but ends, the connection is taken out of the
    registry, and the ping that follows gets no pong. *)
Lemma non_object_frame_unregisters_the_connection :
  (1%nat ∈ default ∅ (active_connections Examples.net_two_users !! "alice")) /\
  (1%nat ∉ default ∅ (active_connections Examples.after_array_frame.1 !! "alice")) /\
  Examples.after_array_frame.2 = false /\
  sent Examples.after_array_frame.1 = [].
Proof.
  assert (E0 : active_connections Examples.net_two_users !! "alice"
               = Some {[1%nat; 2%nat]}) by (vm_compute; reflexivity).
  assert (E1 : active_connections Examples.after_array_frame.1 !! "alice"
               = Some {[2%nat]})
    by (vm_compute; reflexivity).
  rewrite E0, E1. simpl. split_and!; [set_solver | set_solver | done..].
Qed.

(** ** Messaging *)

Section Messaging.

Implicit Types (db : Db) (current_user : User).

Lemma get_user_id db ident u : get_user db ident = Some u -> u_id u = ident.
Proof.
  unfold get_user. intros H. apply find_some in H as [_ H].
  by apply bool_decide_eq_true in H.
Qed.

(** A row after the bulk update, in terms of the row before it. *)
Lemma mark_read_from_row me other db m' :
  m' ∈ messages (mark_read_from me other db) ->
  exists m, m ∈ messages db /\
            msg_sender_id m' = msg_sender_id m /\
            msg_recipient_id m' = msg_recipient_id m /\
            (unread_from me other m = true -> msg_is_read m' = true) /\
            (unread_from me other m = false -> m' = m).
Proof.
  simpl. rewrite list_elem_of_In, in_map_iff.
  intros (m & <- & Hin). exists m. rewrite list_elem_of_In.
  destruct (unread_from me other m); simpl; split_and!; done.
Qed.

Lemma mark_read_from_keeps me other db m :
  m ∈ messages db ->
  exists m', m' ∈ messages (mark_read_from me other db) /\
             msg_sender_id m' = msg_sender_id m /\
             msg_recipient_id m' = msg_recipient_id m.
Proof.
  intros Hin. simpl.
  eexists. split.
  - rewrite list_elem_of_In. apply in_map. by apply list_elem_of_In.
  - by destruct (unread_from me other m).
Qed.

Lemma mark_read_from_none_unread me other db :
  List.filter (unread_from me other) (messages (mark_read_from me other db)) = [].
Proof.
  destruct (List.filter _ _) as [|m' l] eqn:E; [done|].
  assert (Hin : In m' (List.filter (unread_from me other)
                         (messages (mark_read_from me other db))))
    by (rewrite E; by left).
  apply filter_In in Hin as [Hin Hun].
  apply list_elem_of_In, mark_read_from_row in Hin
    as (m & _ & Es & Er & Hread & Hsame).
  destruct (unread_from me other m) eqn:Em.
  - specialize (Hread eq_refl). unfold unread_from in Hun.
    rewrite Hread in Hun. by rewrite andb_false_r in Hun.
  - rewrite (Hsame eq_refl) in Hun. congruence.
Qed.

Lemma conversation_with_inv db current_user other c :
  conversation_with db current_user other = Some c ->
  other_user_id c = other /\
  unread_count c
  = length (List.filter (unread_from (u_id current_user) other) (messages db)).
Proof.
  unfold conversation_with. intros H.
  destruct (get_user db other); [|discriminate].
  destruct (head _); [|discriminate].
  by simplify_eq.
Qed.

Lemma list_conversations_elem db current_user c :
  c ∈ list_conversations db current_user <->
  exists other,
    (exists m, m ∈ messages db /\
       ((msg_sender_id m = u_id current_user /\ msg_recipient_id m = other) \/
        (msg_recipient_id m = u_id current_user /\ msg_sender_id m = other))) /\
    conversation_with db current_user other = Some c.
Proof.
  unfold list_conversations.
  rewrite merge_sort_Permutation, list_elem_of_omap.
  setoid_rewrite elem_of_elements. setoid_rewrite elem_of_list_to_set.
  setoid_rewrite elem_of_app. setoid_rewrite list_elem_of_In.
  setoid_rewrite in_map_iff. setoid_rewrite filter_In.
  setoid_rewrite bool_decide_eq_true.
  split.
  - intros (other & [(m & E1 & Hin & E2)|(m & E1 & Hin & E2)] & Hc);
      exists other; (split; [|done]); exists m; (split; [done|]);
      [left|right]; done.
  - intros (other & (m & Hin & [[E1 E2]|[E1 E2]]) & Hc);
      exists other; (split; [|done]); [left|right]; exists m; done.
Qed.

Lemma between_spec me other m :
  between me other m = true <->
  (msg_sender_id m = me /\ msg_recipient_id m = other) \/
  (msg_recipient_id m = me /\ msg_sender_id m = other).
Proof.
  unfold between.
  rewrite orb_true_iff, !andb_true_iff, !bool_decide_eq_true. tauto.
Qed.

Lemma newest_first_head (rows : list Message) m :
  m ∈ rows -> is_Some (head (newest_first rows)).
Proof.
  intros Hin. apply head_is_Some. intros E.
  unfold newest_first in E.
  pose proof (merge_sort_Permutation newer rows) as Hp.
  rewrite E in Hp. apply Permutation_nil in Hp. subst rows.
  by apply elem_of_nil in Hin.
Qed.

End Messaging.

(** C8. For an existing counterpart, [get_conversation_thread] succeeds
    whatever the page asked for, and in the store it leaves every message
    sent by the counterpart to the caller is read; hence every entry
    [list_conversations] then reports for that counterpart has
    [unread_count = 0], and there is such an entry as soon as the two have
    exchanged a message. *)
Theorem thread_fetch_marks_counterpart_read
    (db : Db) (other_id : string) (other_user current_user : User)
    (page page_size : Z) :
  get_user db other_id = Some other_user ->
  let out := get_conversation_thread db other_id current_user page page_size in
  succeeds out.1 /\
  (forall m, m ∈ messages out.2 ->
     msg_sender_id m = other_id -> msg_recipient_id m = u_id current_user ->
     msg_is_read m = true) /\
  (forall c, c ∈ list_conversations out.2 current_user ->
     other_user_id c = other_id -> unread_count c = 0%nat) /\
  ((exists m, m ∈ messages db /\ between (u_id current_user) other_id m = true) ->
   exists c, c ∈ list_conversations out.2 current_user /\
             other_user_id c = other_id /\ unread_count c = 0%nat).
Proof.
  intros Hu out. subst out. unfold get_conversation_thread. rewrite Hu.
  cbn [fst snd].
  set (me := u_id current_user).
  set (db' := mark_read_from me other_id db).
  assert (Hzero : forall c, conversation_with db' current_user other_id = Some c ->
                            other_user_id c = other_id /\ unread_count c = 0%nat).
  { intros c Hc. apply conversation_with_inv in Hc as [E1 E2].
    split; [done|]. rewrite E2. subst db' me.
    by rewrite mark_read_from_none_unread. }
  split_and!.
  - by eexists.
  - intros m' Hin Es Er.
    apply mark_read_from_row in Hin as (m & _ & Es' & Er' & Hread & Hsame).
    destruct (unread_from me other_id m) eqn:Em; [by apply Hread|].
    rewrite (Hsame eq_refl) in *. unfold unread_from in Em.
    rewrite Es, Er in Em. rewrite !bool_decide_eq_true_2 in Em by done.
    simpl in Em. by destruct (msg_is_read m).
  - intros c Hc Eo.
    apply list_conversations_elem in Hc as (other & _ & Hc).
    pose proof (conversation_with_inv _ _ _ _ Hc) as [E1 _].
    rewrite Eo in E1. subst other. by apply Hzero.
  - intros (m & Hin & Hb).
    destruct (mark_read_from_keeps me other_id db m Hin) as (m' & Hin' & Es & Er).
    apply between_spec in Hb.
    assert (Hb' : between me other_id m' = true).
    { apply between_spec. by rewrite Es, Er. }
    destruct (newest_first_head
                (List.filter (between me other_id) (messages db')) m')
      as [last_msg Hlast].
    { apply list_elem_of_In, filter_In. split; [by apply list_elem_of_In|done]. }
    assert (Hc : exists c, conversation_with db' current_user other_id = Some c).
    { unfold conversation_with.
      change (get_user db' other_id) with (get_user db other_id). rewrite Hu.
      fold me. rewrite Hlast. by eexists. }
    destruct Hc as [c Hc]. exists c.
    split; [|by apply Hzero].
    apply list_conversations_elem. exists other_id. split; [|done].
    exists m'. split; [done|]. rewrite Es, Er. done.
Qed.

Lemma thread_fetch_marks_counterpart_read_witness :
  get_user Examples.db_chat "bob" = Some Examples.bob /\
  exists c,
    c ∈ list_conversations
          (get_conversation_thread Examples.db_chat "bob" Examples.alice 2 1).2
          Examples.alice /\
    other_user_id c = "bob" /\ unread_count c = 0%nat.
Proof.
  assert (Hu : get_user Examples.db_chat "bob" = Some Examples.bob)
    by (vm_compute; reflexivity).
  split; [exact Hu|].
  destruct (thread_fetch_marks_counterpart_read Examples.db_chat "bob"
              Examples.bob Examples.alice 2 1 Hu) as (_ & _ & _ & H).
  apply H.
  exists (mkMessage 1 "bob" "alice" "Read me!" false 5).
  split; [|vm_compute; reflexivity].
  apply list_elem_of_In. vm_compute. by left.
Defined.

(** C7. [send_message] fails, writing nothing and sending nothing, when
    the recipient is the sender and when the recipient does not exist.
    When it succeeds the store has gained exactly one message row, unread,
    from the sender to the recipient, and one [new_message] event has been
    handed to every connection registered for the recipient whose write
    does not fail, and to no other connection: no event at all when the
    recipient has no connection.  The event is the frame whose ["type"] is
    ["new_message"], whose ["data"] names the new row, the sender and the
    first 100 characters of the content, and whose ["timestamp"] is the
    time of the event loop. *)
Theorem send_message_outcomes
    (now loop_time : Z) (broken : gset nat) (db : Db) (net : Net)
    (message_data : MessageCreate) (current_user : User) :
  let out := send_message now loop_time broken db net message_data current_user in
  (recipient_id message_data = u_id current_user ->
     fails out.1.1 /\ out.1.2 = db /\ out.2 = net) /\
  (get_user db (recipient_id message_data) = None ->
     not_found out.1.1 /\ out.1.2 = db /\ out.2 = net) /\
  (succeeds out.1.1 ->
     exists m,
       messages out.1.2 = messages db ++ [m] /\
       msg_id m = next_message_id db /\
       msg_is_read m = false /\
       msg_sender_id m = u_id current_user /\
       msg_recipient_id m = recipient_id message_data /\
       msg_content m = content message_data /\
       msg_created_at m = now /\
       let event :=
         JObj [("type", JStr "new_message");
               ("data",
                JObj [("message_id", JNum (Z.of_nat (msg_id m)));
                      ("sender_id", JStr (u_id current_user));
                      ("sender_email", JStr (u_email current_user));
                      ("content",
                       JStr (String.substring 0 100 (content message_data)));
                      ("created_at", JNum now)]);
               ("timestamp", JNum loop_time)] in
       let conns :=
         default ∅ (active_connections net !! recipient_id message_data) in
       (forall ws, ws ∈ conns -> ws ∉ broken ->
          delivered_to ws (sent out.2) = delivered_to ws (sent net) ++ [event]) /\
       (forall ws, ws ∉ conns \/ ws ∈ broken ->
          delivered_to ws (sent out.2) = delivered_to ws (sent net))).
Proof.
  intros out. subst out. unfold send_message.
  destruct (get_user db (recipient_id message_data)) as [recipient|] eqn:Hu.
  - pose proof (get_user_id _ _ _ Hu) as Hid.
    case_bool_decide as Hself; cbn [fst snd].
    + split_and!; [intros _; split_and!; [by eexists|done..] | done |].
      intros [? [=]].
    + split_and!; [intros E; congruence | done |].
      intros _.
      set (m := mkMessage (next_message_id db) (u_id current_user)
                  (recipient_id message_data) (content message_data) false now).
      set (data := JObj [("message_id", JNum (Z.of_nat (msg_id m)));
                         ("sender_id", JStr (u_id current_user));
                         ("sender_email", JStr (u_email current_user));
                         ("content", JStr (preview (msg_content m)));
                         ("created_at", JNum (msg_created_at m))]).
      exists m. split_and!; [done..| |];
        cbn zeta; rewrite <- Hid; unfold notify_new_message;
        destruct (active_connections net !! u_id recipient) as [conns|] eqn:E.
      * destruct (send_personal_message_delivery broken
                    (new_message_event data loop_time) _ _ _ E) as (H & _).
        exact H.
      * simpl. intros ws Hin. by apply elem_of_empty in Hin.
      * destruct (send_personal_message_delivery broken
                    (new_message_event data loop_time) _ _ _ E) as (_ & H).
        exact H.
      * intros ws _. unfold send_personal_message. by rewrite E.
  - cbn [fst snd]. split_and!.
    + intros _. split_and!; [by eexists|done..].
    + intros _. split_and!; [by eexists|done..].
    + intros [? [=]].
Qed.

Lemma send_message_outcomes_witness :
  succeeds Examples.chat_1.1.1 /\
  (exists m,
     messages Examples.chat_1.1.2 = messages Examples.db_users ++ [m] /\
     msg_id m = 1%nat /\
     msg_is_read m = false /\
     delivered_to 2%nat (sent Examples.chat_1.2)
     = delivered_to 2%nat (sent Examples.net_two_users)
         ++ [JObj [("type", JStr "new_message");
                   ("data",
                    JObj [("message_id", JNum (Z.of_nat (msg_id m)));
                          ("sender_id", JStr "bob");
                          ("sender_email", JStr "bob@example.com");
                          ("content", JStr "Read me!");
                          ("created_at", JNum 5)]);
                   ("timestamp", JNum 0)]] /\
     delivered_to 1%nat (sent Examples.chat_1.2)
     = delivered_to 1%nat (sent Examples.net_two_users) /\
     delivered_to 3%nat (sent Examples.chat_1.2)
     = delivered_to 3%nat (sent Examples.net_two_users)) /\
  fails (send_message 5 0 ∅ Examples.db_users Examples.net_two_users
           (mkMessageCreate "bob" "to myself") Examples.bob).1.1.
Proof.
  assert (Hs : succeeds Examples.chat_1.1.1) by (eexists; vm_compute; reflexivity).
  assert (E : active_connections Examples.net_two_users !! "alice"
              = Some {[1%nat; 2%nat]}) by (vm_compute; reflexivity).
  split; [exact Hs|]. split.
  - destruct (send_message_outcomes 5 0 {[1%nat]} Examples.db_users
                Examples.net_two_users Examples.hello Examples.bob)
      as (_ & _ & H).
    destruct (H Hs) as (m & Hrows & Hkey & Hunread & _ & _ & _ & _ & Hgood & Hbad).
    exists m. split_and!; [exact Hrows|exact Hkey|exact Hunread| | |].
    + apply (Hgood 2%nat).
      * change (recipient_id Examples.hello) with "alice". rewrite E. set_solver.
      * set_solver.
    + apply (Hbad 1%nat). right. set_solver.
    + apply (Hbad 3%nat). left.
      change (recipient_id Examples.hello) with "alice". rewrite E. set_solver.
  - destruct (send_message_outcomes 5 0 ∅ Examples.db_users
                Examples.net_two_users (mkMessageCreate "bob" "to myself")
                Examples.bob) as (H & _).
    apply H. reflexivity.
Defined.

(** * Further properties *)

(** ** Creating offers and requests *)

Section Creation.

Implicit Types (db : Db) (offer : AvailabilityOffer) (request : AvailabilityRequest).

(** What [_create_match] leaves alone. *)
Lemma create_match_frame now db offer request m db' :
  _create_match now db offer request = Ok (m, db') ->
  users db' = users db /\ messages db' = messages db /\
  offers db' = offers db /\ requests db' = requests db.
Proof.
  unfold _create_match, insert_match. intros H.
  destruct (get_offer db (o_id offer)); [|discriminate].
  destruct (get_request db (r_id request)); [|discriminate].
  destruct (existing_match db (o_id offer) (r_id request)).
  { by simplify_eq. }
  simpl in H. destruct (uq_offer_request_taken _ _ _); [discriminate|].
  unfold mbind, result_bind in H.
  destruct (_send_match_email _ _ _ _ _ _) as [db2|] eqn:Em; [|discriminate].
  apply send_match_email_inv in Em as (u & _ & ->). by simplify_eq.
Qed.

(** The matching loops let no [HTTPException] out, and change neither the
    offers nor the requests. *)
Lemma match_offer_loop_outcome now offer reqs :
  forall db acc,
  match _match_offer_loop now db offer reqs acc with
  | Ok (_, db') =>
      users db' = users db /\ messages db' = messages db /\
      offers db' = offers db /\ requests db' = requests db
  | Raise e => forall code detail, e <> HTTPException code detail
  end.
Proof.
  induction reqs as [|req rest IH]; intros db acc; simpl; [done|].
  destruct (_create_match now db offer req) as [[m db1]|e] eqn:Ec.
  - apply create_match_frame in Ec as (Eu & Em & Eo & Er).
    specialize (IH db1 (acc ++ [m])).
    destruct (_match_offer_loop now db1 offer rest (acc ++ [m])) as [[ms db']|e];
      [|done].
    destruct IH as (? & ? & ? & ?). split_and!; congruence.
  - destruct e; try done. apply IH.
Qed.

Lemma match_request_loop_outcome now request offs :
  forall db acc,
  match _match_request_loop now db request offs acc with
  | Ok (_, db') =>
      users db' = users db /\ messages db' = messages db /\
      offers db' = offers db /\ requests db' = requests db
  | Raise e => forall code detail, e <> HTTPException code detail
  end.
Proof.
  induction offs as [|off rest IH]; intros db acc; simpl; [done|].
  destruct (_create_match now db off request) as [[m db1]|e] eqn:Ec.
  - apply create_match_frame in Ec as (Eu & Em & Eo & Er).
    specialize (IH db1 (acc ++ [m])).
    destruct (_match_request_loop now db1 request rest (acc ++ [m])) as [[ms db']|e];
      [|done].
    destruct IH as (? & ? & ? & ?). split_and!; congruence.
  - destruct e; try done. apply IH.
Qed.

Lemma slot_checks now slot :
  negb (valid slot)
  || (bool_decide (end_at slot <= now) || bool_decide (start_at slot <= now)) = true
  <-> slot_refused now slot.
Proof.
  unfold valid, slot_refused.
  repeat case_bool_decide; simpl; (split; [intros ?; try done; lia | intros ?; try done; lia]).
Qed.

Lemma overlap_check_offer db slot user :
  existsb (fun o => bool_decide (o_user_id o = u_id user)
                    && bool_decide (o_start_at o < end_at slot)
                    && bool_decide (o_end_at o > start_at slot)) (offers db) = true
  <-> overlapping_offer db slot user.
Proof.
  unfold overlapping_offer. rewrite existsb_exists.
  split; intros (o & Hin & H); exists o; (split; [done|]).
  - rewrite !andb_true_iff, !bool_decide_eq_true in H. by destruct H as [[? ?] ?].
  - destruct H as (? & ? & ?). by rewrite !andb_true_iff, !bool_decide_eq_true.
Qed.

Lemma overlap_check_request db slot user :
  existsb (fun r => bool_decide (r_user_id r = u_id user)
                    && bool_decide (r_start_at r < end_at slot)
                    && bool_decide (r_end_at r > start_at slot)) (requests db) = true
  <-> overlapping_request db slot user.
Proof.
  unfold overlapping_request. rewrite existsb_exists.
  split; intros (r & Hin & H); exists r; (split; [done|]).
  - rewrite !andb_true_iff, !bool_decide_eq_true in H. by destruct H as [[? ?] ?].
  - destruct H as (? & ? & ?). by rewrite !andb_true_iff, !bool_decide_eq_true.
Qed.

End Creation.

(** X1. [create_offer] answers 400 exactly when the slot is empty or
    reversed, is not wholly in the future, or meets an offer the caller
    already holds, and then it writes nothing; [create_request] does the
    same against the caller's requests. *)
Theorem creation_is_refused_exactly_on_a_bad_slot
    (now : Z) (db : Db) (slot : SlotIn) (current_user : User) :
  (bad_request (create_offer now db slot current_user).1
   <-> slot_refused now slot \/ overlapping_offer db slot current_user) /\
  (bad_request (create_offer now db slot current_user).1 ->
   (create_offer now db slot current_user).2 = db) /\
  (bad_request (create_request now db slot current_user).1
   <-> slot_refused now slot \/ overlapping_request db slot current_user) /\
  (bad_request (create_request now db slot current_user).1 ->
   (create_request now db slot current_user).2 = db).
Proof.
  pose proof (slot_checks now slot) as Hslot.
  pose proof (overlap_check_offer db slot current_user) as Hoo.
  pose proof (overlap_check_request db slot current_user) as Hor.
  unfold create_offer, create_request, _match_offer, _match_request.
  destruct (negb (valid slot)) eqn:Ev; simpl in *.
  { split_and!; try done; (split; [intros _; left; by apply Hslot | intros _; by eexists]). }
  destruct (bool_decide (end_at slot <= now) || bool_decide (start_at slot <= now))
    eqn:Et; simpl in *.
  { split_and!; try done; (split; [intros _; left; by apply Hslot | intros _; by eexists]). }
  assert (Hns : ~ slot_refused now slot) by (intros H; apply Hslot in H; done).
  split_and!.
  - destruct (existsb _ (offers db)) eqn:Eo; simpl.
    + split; [intros _; right; by apply Hoo | intros _; by eexists].
    + split.
      * intros [d Hd]. exfalso.
        match goal with
        | H : context [_match_offer_loop ?n ?d ?o ?r ?a] |- _ =>
            pose proof (match_offer_loop_outcome n o r d a) as Hout;
            destruct (_match_offer_loop n d o r a) as [[ms db2]|e]
        end; simpl in Hd; [discriminate|].
        injection Hd as ->. by eapply Hout.
      * intros [H|H]; [done|]. apply Hoo in H. discriminate.
  - destruct (existsb _ (offers db)) eqn:Eo; simpl; [done|].
    intros [d Hd]. exfalso.
    match goal with
    | H : context [_match_offer_loop ?n ?d ?o ?r ?a] |- _ =>
        pose proof (match_offer_loop_outcome n o r d a) as Hout;
        destruct (_match_offer_loop n d o r a) as [[ms db2]|e]
    end; simpl in Hd; [discriminate|].
    injection Hd as ->. by eapply Hout.
  - destruct (existsb _ (requests db)) eqn:Eo; simpl.
    + split; [intros _; right; by apply Hor | intros _; by eexists].
    + split.
      * intros [d Hd]. exfalso.
        match goal with
        | H : context [_match_request_loop ?n ?d ?o ?r ?a] |- _ =>
            pose proof (match_request_loop_outcome n o r d a) as Hout;
            destruct (_match_request_loop n d o r a) as [[ms db2]|e]
        end; simpl in Hd; [discriminate|].
        injection Hd as ->. by eapply Hout.
      * intros [H|H]; [done|]. apply Hor in H. discriminate.
  - destruct (existsb _ (requests db)) eqn:Eo; simpl; [done|].
    intros [d Hd]. exfalso.
    match goal with
    | H : context [_match_request_loop ?n ?d ?o ?r ?a] |- _ =>
        pose proof (match_request_loop_outcome n o r d a) as Hout;
        destruct (_match_request_loop n d o r a) as [[ms db2]|e]
    end; simpl in Hd; [discriminate|].
    injection Hd as ->. by eapply Hout.
Qed.

Lemma ForallOrdPairs_snoc {A : Type} (R : A -> A -> Prop) (l : list A) (x : A) :
  ForallOrdPairs R l -> Forall (fun a => R a x) l -> ForallOrdPairs R (l ++ [x]).
Proof.
  induction 1 as [|a l Ha Hl IH]; intros Hx; simpl.
  - constructor; constructor.
  - apply Forall_cons_1 in Hx as [Hax Hx]. constructor; [|by apply IH].
    apply Forall_app. split; [done|]. by constructor.
Qed.

Lemma windows_sound_insert_offer now db slot user :
  windows_sound db ->
  ~ slot_refused now slot -> ~ overlapping_offer db slot user ->
  windows_sound
    (insert_offer db (mkOffer (next_offer_id db) (u_id user)
                              (start_at slot) (end_at slot))).
Proof.
  intros (Hov & Hoa & Hrv & Hra) Hns Hno. unfold windows_sound. simpl.
  split_and!; [| |done..].
  - apply Forall_app. split; [done|]. constructor; [|done]. simpl.
    unfold slot_refused in Hns. lia.
  - apply ForallOrdPairs_snoc; [done|].
    apply Forall_forall. intros a Hin Eu. simpl in *.
    destruct (decide (o_start_at a < end_at slot /\ o_end_at a > start_at slot))
      as [[? ?]|Hn]; [|lia].
    destruct Hno. exists a. by rewrite <- list_elem_of_In.
Qed.

Lemma windows_sound_insert_request now db slot user :
  windows_sound db ->
  ~ slot_refused now slot -> ~ overlapping_request db slot user ->
  windows_sound
    (insert_request db (mkRequest (next_request_id db) (u_id user)
                                  (start_at slot) (end_at slot))).
Proof.
  intros (Hov & Hoa & Hrv & Hra) Hns Hno. unfold windows_sound. simpl.
  split_and!; [done..| |].
  - apply Forall_app. split; [done|]. constructor; [|done]. simpl.
    unfold slot_refused in Hns. lia.
  - apply ForallOrdPairs_snoc; [done|].
    apply Forall_forall. intros a Hin Eu. simpl in *.
    destruct (decide (r_start_at a < end_at slot /\ r_end_at a > start_at slot))
      as [[? ?]|Hn]; [|lia].
    destruct Hno. exists a. by rewrite <- list_elem_of_In.
Qed.

Lemma windows_sound_same_tables (db db' : Db) :
  offers db' = offers db -> requests db' = requests db ->
  windows_sound db -> windows_sound db'.
Proof. unfold windows_sound. by intros -> ->. Qed.

(** X2. Whatever they answer, [create_offer] and [create_request] keep
    every window of the store non-empty and the windows of one user
    pairwise apart, among the offers and among the requests. *)
Theorem creation_keeps_windows_sound
    (now : Z) (db : Db) (slot : SlotIn) (current_user : User) :
  windows_sound db ->
  windows_sound (create_offer now db slot current_user).2 /\
  windows_sound (create_request now db slot current_user).2.
Proof.
  intros Hw.
  pose proof (slot_checks now slot) as Hslot.
  pose proof (overlap_check_offer db slot current_user) as Hoo.
  pose proof (overlap_check_request db slot current_user) as Hor.
  unfold create_offer, create_request, _match_offer, _match_request.
  destruct (negb (valid slot)) eqn:Ev; simpl in *; [done|].
  destruct (bool_decide (end_at slot <= now) || bool_decide (start_at slot <= now))
    eqn:Et; simpl in *; [done|].
  assert (Hns : ~ slot_refused now slot) by (intros H; apply Hslot in H; done).
  split.
  - destruct (existsb _ (offers db)) eqn:Eo; simpl; [done|].
    assert (Hno : ~ overlapping_offer db slot current_user)
      by (intros H; apply Hoo in H; discriminate).
    pose proof (windows_sound_insert_offer now db slot current_user Hw Hns Hno) as Hw1.
    match goal with
    | |- context [_match_offer_loop ?n ?d ?o ?r ?a] =>
        pose proof (match_offer_loop_outcome n o r d a) as Hout;
        destruct (_match_offer_loop n d o r a) as [[ms db2]|e]
    end; simpl; [|done].
    destruct Hout as (_ & _ & Eos & Ers).
    by apply (windows_sound_same_tables _ _ Eos Ers).
  - destruct (existsb _ (requests db)) eqn:Eo; simpl; [done|].
    assert (Hno : ~ overlapping_request db slot current_user)
      by (intros H; apply Hor in H; discriminate).
    pose proof (windows_sound_insert_request now db slot current_user Hw Hns Hno) as Hw1.
    match goal with
    | |- context [_match_request_loop ?n ?d ?o ?r ?a] =>
        pose proof (match_request_loop_outcome n o r d a) as Hout;
        destruct (_match_request_loop n d o r a) as [[ms db2]|e]
    end; simpl; [|done].
    destruct Hout as (_ & _ & Eos & Ers).
    by apply (windows_sound_same_tables _ _ Eos Ers).
Qed.

Section CreationSucceeds.

Implicit Types (db : Db) (offer : AvailabilityOffer) (request : AvailabilityRequest).

Lemma get_user_same_table db db' ident :
  users db' = users db -> get_user db' ident = get_user db ident.
Proof. unfold get_user. by intros ->. Qed.

Lemma find_snoc_fresh {A : Type} (p : A -> bool) (l : list A) (x : A) :
  (forall a, In a l -> p a = false) -> p x = true ->
  List.find p (l ++ [x]) = Some x.
Proof.
  intros Hl Hx. induction l as [|a l IH]; simpl.
  - by rewrite Hx.
  - rewrite (Hl a) by (by left). apply IH. intros b Hb. apply Hl. by right.
Qed.

Lemma NoDup_map_eq {A B : Type} (f : A -> B) (l : list A) (a b : A) :
  List.NoDup (map f l) -> In a l -> In b l -> f a = f b -> a = b.
Proof.
  induction l as [|c l IH]; intros Hnd Ha Hb E; [done|].
  simpl in Hnd. apply List.NoDup_cons_iff in Hnd as [Hc Hnd].
  destruct Ha as [->|Ha], Hb as [->|Hb]; [done| | |by apply IH].
  - destruct Hc. rewrite E. by apply in_map.
  - destruct Hc. rewrite <- E. by apply in_map.
Qed.

(** When the rows are there, the owner of the offer is known, and the
    pair holds no resolved match, [_create_match] returns. *)
Lemma create_match_succeeds now db offer request locked :
  get_offer db (o_id offer) = Some locked ->
  is_Some (get_request db (r_id request)) ->
  is_Some (get_user db (o_user_id locked)) ->
  (forall m, In m (matches db) -> m_offer_id m = o_id offer ->
             m_request_id m = r_id request -> non_terminal (m_status m) = true) ->
  exists m db', _create_match now db offer request = Ok (m, db') /\
                non_terminal (m_status m) = true /\
                (matches db' = matches db \/ matches db' = matches db ++ [m]) /\
                m_offer_id m = o_id offer /\ m_request_id m = r_id request.
Proof.
  intros Eo [r Er] [u Eu] Hnt. unfold _create_match. rewrite Eo, Er.
  destruct (existing_match db (o_id offer) (r_id request)) as [e|] eqn:Ee.
  { exists e, db. unfold existing_match in Ee.
    apply find_some in Ee as [_ Hp].
    rewrite !andb_true_iff, !bool_decide_eq_true in Hp.
    destruct Hp as [[? ?] ?]. split_and!; auto. }
  unfold insert_match. simpl.
  destruct (uq_offer_request_taken db (o_id offer) (r_id request)) eqn:Et.
  { exfalso. unfold uq_offer_request_taken in Et.
    apply existsb_exists in Et as (m & Hin & Hp).
    rewrite andb_true_iff, !bool_decide_eq_true in Hp. destruct Hp as [E1 E2].
    unfold existing_match in Ee.
    pose proof (find_none _ _ Ee m Hin) as Hf. simpl in Hf.
    rewrite (Hnt m Hin E1 E2) in Hf.
    by rewrite !bool_decide_eq_true_2 in Hf. }
  simpl. change (get_user _ (o_user_id locked)) with (get_user db (o_user_id locked)).
  rewrite Eu. simpl. eexists. eexists. split; [done|]. simpl. auto.
Qed.

Lemma match_offer_loop_succeeds now offer locked reqs :
  forall db acc,
  get_offer db (o_id offer) = Some locked ->
  is_Some (get_user db (o_user_id locked)) ->
  (forall r, In r reqs -> is_Some (get_request db (r_id r))) ->
  (forall m, In m (matches db) -> m_offer_id m = o_id offer ->
             non_terminal (m_status m) = true) ->
  exists ms db', _match_offer_loop now db offer reqs acc = Ok (ms, db').
Proof.
  induction reqs as [|req rest IH]; intros db acc Eo Hu Hr Hnt; simpl.
  { by eexists; eexists. }
  destruct (create_match_succeeds now db offer req locked Eo)
    as (m & db1 & Ec & Hm & Hms & Emo & Emr);
    [apply Hr; by left | done | intros; by apply Hnt |].
  rewrite Ec.
  destruct (create_match_frame _ _ _ _ _ _ Ec) as (Eus & _ & Eos & Ers).
  apply IH.
  - by rewrite (get_offer_same_table db db1).
  - by rewrite (get_user_same_table db db1).
  - intros r Hin. rewrite (get_request_same_table db db1) by done.
    apply Hr. by right.
  - intros m' Hin E. destruct Hms as [E'|E']; rewrite E' in Hin; [by apply Hnt|].
    apply in_app_or in Hin as [Hin|[<-|[]]]; [by apply Hnt | done].
Qed.

Lemma match_request_loop_succeeds now request offs :
  forall db acc,
  is_Some (get_request db (r_id request)) ->
  (forall off, In off offs ->
     exists locked, get_offer db (o_id off) = Some locked /\
                    is_Some (get_user db (o_user_id locked))) ->
  (forall m, In m (matches db) -> m_request_id m = r_id request ->
             non_terminal (m_status m) = true) ->
  exists ms db', _match_request_loop now db request offs acc = Ok (ms, db').
Proof.
  induction offs as [|off rest IH]; intros db acc Hr Ho Hnt; simpl.
  { by eexists; eexists. }
  destruct (Ho off) as (locked & Eo & Hu); [by left|].
  destruct (create_match_succeeds now db off request locked Eo)
    as (m & db1 & Ec & Hm & Hms & Emo & Emr);
    [done | done | intros; by apply Hnt |].
  rewrite Ec.
  destruct (create_match_frame _ _ _ _ _ _ Ec) as (Eus & _ & Eos & Ers).
  apply IH.
  - by rewrite (get_request_same_table db db1).
  - intros o Hin. destruct (Ho o) as (l & El & Hl); [by right|].
    exists l. rewrite (get_offer_same_table db db1), (get_user_same_table db db1);
      done.
  - intros m' Hin E. destruct Hms as [E'|E']; rewrite E' in Hin; [by apply Hnt|].
    apply in_app_or in Hin as [Hin|[<-|[]]]; [by apply Hnt | done].
Qed.

Lemma slot_accepted now slot :
  ~ slot_refused now slot ->
  negb (valid slot) = false /\
  bool_decide (end_at slot <= now) || bool_decide (start_at slot <= now) = false.
Proof.
  intros Hns. pose proof (slot_checks now slot) as H.
  destruct (negb (valid slot)); simpl in H; [destruct Hns; by apply H|].
  split; [done|]. destruct (_ || _); [destruct Hns; by apply H | done].
Qed.

End CreationSucceeds.

(** X3. From a store whose keys come from the counters, [create_offer] by
    a known user with a slot that is neither refused nor overlapping
    returns the key of the new offer: the offer is stored as given, the
    requests are untouched, and every request that fits the offer and
    belongs to someone else now has exactly one match with it, PENDING and
    awaiting the offer's owner. *)
Theorem create_offer_pairs_every_compatible_request
    (now : Z) (db : Db) (slot : SlotIn) (current_user : User) :
  keys_fresh db ->
  is_Some (get_user db (u_id current_user)) ->
  ~ slot_refused now slot ->
  ~ overlapping_offer db slot current_user ->
  let offer := mkOffer (next_offer_id db) (u_id current_user)
                       (start_at slot) (end_at slot) in
  exists db',
    create_offer now db slot current_user = (Ok (o_id offer), db') /\
    get_offer db' (o_id offer) = Some offer /\
    offers db' = offers db ++ [offer] /\
    requests db' = requests db /\
    keys_fresh db' /\
    forall r, In r (requests db) -> compatible offer r ->
              one_pending db' (o_id offer) (r_id r) (u_id current_user).
Proof.
  intros Hk Hu Hns Hno offer.
  destruct (slot_accepted now slot Hns) as [Ev Et].
  assert (Eov : existsb (fun o => bool_decide (o_user_id o = u_id current_user)
                          && bool_decide (o_start_at o < end_at slot)
                          && bool_decide (o_end_at o > start_at slot)) (offers db)
                = false).
  { destruct (existsb _ _) eqn:E; [|done].
    destruct Hno. by apply overlap_check_offer. }
  unfold create_offer. rewrite Ev, Et, Eov. fold offer. cbn [negb orb].
  set (db1 := insert_offer db offer).
  assert (Hk1 : keys_fresh db1) by (by apply keys_fresh_insert_offer).
  assert (Eo1 : get_offer db1 (o_id offer) = Some offer).
  { unfold get_offer. simpl. apply find_snoc_fresh.
    - intros a Hin. apply bool_decide_eq_false.
      destruct Hk as (Ho & _). specialize (Ho _ Hin). lia.
    - by apply bool_decide_eq_true_2. }
  destruct (match_offer_loop_succeeds now offer offer (requests_within db1 offer)
              db1 [] Eo1) as (ms & db' & Hloop).
  { by rewrite (get_user_same_table db db1). }
  { intros r Hin. apply filter_In in Hin as [Hin _].
    apply (find_is_Some _ _ r); [done|]. by apply bool_decide_eq_true_2. }
  { intros m Hin E. destruct Hk as (_ & _ & Hm). destruct (Hm _ Hin). simpl in E. lia. }
  unfold _match_offer. rewrite Hloop. exists db'.
  destruct (match_offer_loop_pair now offer 0%nat _ _ _ _ _ Hloop Hk1)
    as (Hk' & Eos & Ers & _).
  { left. apply (pair_matches_fresh db); [done|]. left. simpl. lia. }
  split_and!; [done | | done | done | done |].
  - by rewrite (get_offer_same_table db1 db').
  - intros r Hin (Hs & He & Hne).
    destruct (match_offer_loop_pair now offer (r_id r) _ _ _ _ _ Hloop Hk1)
      as (_ & _ & _ & _ & _ & _ & Hnew).
    { left. apply (pair_matches_fresh db); [done|]. left. simpl. lia. }
    apply Hnew.
    + exists r. split; [|done]. apply filter_In. split; [done|].
      simpl. rewrite !bool_decide_eq_true_2; done.
    + by rewrite Eo1.
    + apply (find_is_Some _ _ r); [done|]. by apply bool_decide_eq_true_2.
Qed.

(** X4. From a store whose keys come from the counters, whose offers have
    distinct keys and known owners, [create_request] with a slot that is
    neither refused nor overlapping returns the key of the new request:
    the request is stored as given, the offers are untouched, and every
    offer of someone else that contains the slot now has exactly one match
    with it, PENDING and awaiting that offer's owner. *)
Theorem create_request_pairs_every_containing_offer
    (now : Z) (db : Db) (slot : SlotIn) (current_user : User) :
  keys_fresh db ->
  List.NoDup (map o_id (offers db)) ->
  offer_owners_known db ->
  ~ slot_refused now slot ->
  ~ overlapping_request db slot current_user ->
  let request := mkRequest (next_request_id db) (u_id current_user)
                           (start_at slot) (end_at slot) in
  exists db',
    create_request now db slot current_user = (Ok (r_id request), db') /\
    get_request db' (r_id request) = Some request /\
    requests db' = requests db ++ [request] /\
    offers db' = offers db /\
    keys_fresh db' /\
    forall o, In o (offers db) -> compatible o request ->
              one_pending db' (o_id o) (r_id request) (o_user_id o).
Proof.
  intros Hk Hnd Hown Hns Hno request.
  destruct (slot_accepted now slot Hns) as [Ev Et].
  assert (Eov : existsb (fun r => bool_decide (r_user_id r = u_id current_user)
                          && bool_decide (r_start_at r < end_at slot)
                          && bool_decide (r_end_at r > start_at slot)) (requests db)
                = false).
  { destruct (existsb _ _) eqn:E; [|done].
    destruct Hno. by apply overlap_check_request. }
  unfold create_request. rewrite Ev, Et, Eov. fold request. cbn [negb orb].
  set (db1 := insert_request db request).
  assert (Hk1 : keys_fresh db1) by (by apply keys_fresh_insert_request).
  assert (Er1 : get_request db1 (r_id request) = Some request).
  { unfold get_request. simpl. apply find_snoc_fresh.
    - intros a Hin. apply bool_decide_eq_false.
      destruct Hk as (_ & Hr & _). specialize (Hr _ Hin). lia.
    - by apply bool_decide_eq_true_2. }
  destruct (match_request_loop_succeeds now request (offers_containing db1 request)
              db1 []) as (ms & db' & Hloop).
  { by rewrite Er1. }
  { intros off Hin. apply filter_In in Hin as [Hin _]. simpl in Hin.
    destruct (find_is_Some (fun o => bool_decide (o_id o = o_id off)) (offers db) off)
      as [locked El]; [done | by apply bool_decide_eq_true_2 |].
    exists locked. split; [done|].
    apply find_some in El as [Hl _].
    rewrite (get_user_same_table db db1) by done. by apply Hown. }
  { intros m Hin E. destruct Hk as (_ & _ & Hm). destruct (Hm _ Hin). simpl in E. lia. }
  unfold _match_request. rewrite Hloop. exists db'.
  destruct (match_request_loop_pair now request (next_offer_id db) "" _ _ _ _ _
              Hloop Hk1) as (Hk' & Eos & Ers & _).
  { intros off Hin Eid. apply filter_In in Hin as [Hin _]. simpl in Hin.
    destruct Hk as (Ho & _). specialize (Ho _ Hin). lia. }
  { left. apply (pair_matches_fresh db); [done|]. right. simpl. lia. }
  split_and!; [done | | done | done | done |].
  - by rewrite (get_request_same_table db1 db').
  - intros o Hin (Hs & He & Hne).
    destruct (match_request_loop_pair now request (o_id o) (o_user_id o) _ _ _ _ _
                Hloop Hk1) as (_ & _ & _ & _ & _ & _ & Hnew).
    { intros off Hin' Eid. apply filter_In in Hin' as [Hin' _]. simpl in Hin'.
      by rewrite (NoDup_map_eq o_id (offers db) off o Hnd Hin' Hin Eid). }
    { left. apply (pair_matches_fresh db); [done|]. right. simpl. lia. }
    apply Hnew.
    + exists o. split; [|done]. apply filter_In. split; [done|].
      simpl in *. rewrite !bool_decide_eq_true_2; [done|congruence|lia|lia].
    + apply (find_is_Some _ _ o); [done|]. by apply bool_decide_eq_true_2.
    + by rewrite Er1.
Qed.

(** Settles [keys_fresh] and the like on a store given in full. *)
Ltac concrete_rows :=
  simpl; intros;
  repeat match goal with
         | H : _ \/ _ |- _ => destruct H as [H|H]
         | H : False |- _ => destruct H
         | H : _ = _ |- _ => subst
         end;
  simpl; try lia; try done.

Lemma creation_keeps_windows_sound_witness :
  windows_sound Examples.db_users /\ windows_sound Examples.db_offer.
Proof.
  assert (Hw : windows_sound Examples.db_users).
  { unfold windows_sound. simpl. split_and!; constructor. }
  split; [exact Hw|].
  destruct (creation_keeps_windows_sound 0 Examples.db_users (mkSlot 10 40)
              Examples.alice Hw) as [H _].
  exact H.
Defined.

Lemma create_offer_pairs_every_compatible_request_witness :
  keys_fresh Scenarios.db_request /\
  exists db',
    create_offer 1 Scenarios.db_request (mkSlot 10 40) Examples.alice
      = (Ok 1%nat, db') /\
    one_pending db' 1 1 "alice".
Proof.
  assert (Hk : keys_fresh Scenarios.db_request).
  { unfold keys_fresh. split_and!; concrete_rows. }
  split; [exact Hk|].
  destruct (create_offer_pairs_every_compatible_request 1 Scenarios.db_request
              (mkSlot 10 40) Examples.alice Hk)
    as (db' & Hc & _ & _ & _ & _ & Hp).
  - by eexists.
  - unfold slot_refused. simpl. lia.
  - intros (o & [] & _).
  - exists db'. split; [exact Hc|].
    apply (Hp (mkRequest 1 "bob" 20 30)).
    + by left.
    + unfold compatible. simpl. split_and!; [lia | lia | intros [=]].
Defined.

Lemma create_request_pairs_every_containing_offer_witness :
  keys_fresh Examples.db_offer /\
  exists db',
    create_request 1 Examples.db_offer (mkSlot 20 30) Examples.bob
      = (Ok 1%nat, db') /\
    one_pending db' 1 1 "alice".
Proof.
  assert (Hk : keys_fresh Examples.db_offer).
  { unfold keys_fresh. split_and!; concrete_rows. }
  split; [exact Hk|].
  destruct (create_request_pairs_every_containing_offer 1 Examples.db_offer
              (mkSlot 20 30) Examples.bob Hk)
    as (db' & Hc & _ & _ & _ & _ & Hp).
  - simpl. constructor; [intros []|constructor].
  - intros o Hin. simpl in Hin. destruct Hin as [<-|[]]. by eexists.
  - unfold slot_refused. simpl. lia.
  - intros (r & [] & _).
  - exists db'. split; [exact Hc|].
    apply (Hp (mkOffer 1 "alice" 10 40)).
    + by left.
    + unfold compatible. simpl. split_and!; [lia | lia | intros [=]].
Defined.

(** ** What a transition touches *)

Section TransitionEffects.

Implicit Types (db : Db) (current_user : User).

Lemma update_match_other db m' m0 :
  In m0 (matches db) -> m_id m0 <> m_id m' -> In m0 (matches (update_match db m')).
Proof.
  intros Hin Hne. simpl. apply in_map_iff. exists m0. split; [|done].
  by rewrite bool_decide_eq_false_2.
Qed.

Lemma update_match_rows db m' m :
  In m (matches (update_match db m')) ->
  m = m' \/ (In m (matches db) /\ m_id m <> m_id m').
Proof.
  simpl. rewrite in_map_iff. intros (m0 & <- & Hin).
  case_bool_decide; [by left | right; by split].
Qed.

Lemma email_to now db user template subject m db' :
  _send_match_email now db user template subject m = Ok db' ->
  exists u, user = Some u /\
            users db' = users db /\ offers db' = offers db /\
            requests db' = requests db /\ messages db' = messages db /\
            matches db' = matches db /\
            notifications db'
            = notifications db
                ++ [mkNotification (next_notification_id db) (u_id u) subject
                                   false now].
Proof.
  intros H. apply send_match_email_inv in H as (u & -> & ->).
  exists u. by split_and!.
Qed.

Lemma accept_ok_inv now db match_id current_user resp db' :
  accept_match now db match_id current_user = (Ok resp, db') ->
  exists m o r,
    get_match db match_id = Some m /\
    get_offer db (m_offer_id m) = Some o /\
    get_request db (m_request_id m) = Some r /\
    touches_only_the_match db db' match_id [r_user_id r].
Proof.
  intros H. unfold accept_match in H.
  destruct (get_match db match_id) as [m|] eqn:Hm; [|discriminate].
  destruct (get_match_In _ _ _ Hm) as [_ <-].
  case_bool_decide; [discriminate|]. case_bool_decide; [discriminate|].
  destruct (get_request db (m_request_id m)) as [r|] eqn:Hr; [|discriminate].
  unfold mbind, result_bind in H.
  destruct (_send_match_email _ _ _ _ _ _) as [db2|] eqn:He; [|discriminate].
  apply email_to in He as (u & Hu & Eu & Eo & Er & Em & Ems & En).
  destruct (get_offer db2 (m_offer_id m)) as [o|] eqn:Ho; [|discriminate].
  simplify_eq. rewrite (get_offer_same_table _ _ _ Eo) in Ho.
  apply get_user_id in Hu.
  exists m, o, r. split_and!; [done..|].
  unfold touches_only_the_match. rewrite Eu, Eo, Er, Em, Ems, En.
  split_and!; [done.. | apply length_map | | ].
  - intros m0 Hin Hne. by apply (update_match_other db (mkMatch _ _ _ _ _ _ _)).
  - eexists. split; [done|]. simpl. rewrite Hu. split; [done|]. by repeat constructor.
Qed.

Lemma confirm_ok_inv now db match_id current_user resp db' :
  confirm_match now db match_id current_user = (Ok resp, db') ->
  exists m o r,
    get_match db match_id = Some m /\
    get_offer db (m_offer_id m) = Some o /\
    get_request db (m_request_id m) = Some r /\
    touches_only_the_match db db' match_id [o_user_id o; r_user_id r].
Proof.
  intros H. unfold confirm_match in H.
  destruct (get_match db match_id) as [m|] eqn:Hm; [|discriminate].
  destruct (get_match_In _ _ _ Hm) as [_ <-].
  case_bool_decide; [discriminate|]. case_bool_decide; [discriminate|].
  match type of H with
  | context [get_offer ?d (m_offer_id m)] =>
      change (get_offer d (m_offer_id m)) with (get_offer db (m_offer_id m)) in H
  end.
  destruct (get_offer db (m_offer_id m)) as [o|] eqn:Ho; [|discriminate].
  unfold mbind, result_bind in H.
  destruct (_send_match_email _ _ _ _ _ _) as [db2|] eqn:He; [|discriminate].
  apply email_to in He as (u & Hu & Eu & Eo & Er & Em & Ems & En).
  destruct (get_request db2 (m_request_id m)) as [r|] eqn:Hr; [|discriminate].
  destruct (_send_match_email now db2 _ _ _ _) as [db3|] eqn:He2; [|discriminate].
  apply email_to in He2 as (u2 & Hu2 & Eu2 & Eo2 & Er2 & Em2 & Ems2 & En2).
  rewrite Hu, Hu2 in H. simplify_eq.
  rewrite (get_request_same_table _ _ _ Er) in Hr.
  apply get_user_id in Hu, Hu2.
  exists m, o, r. split_and!; [done..|].
  unfold touches_only_the_match.
  rewrite Eu2, Eo2, Er2, Em2, Ems2, En2, Eu, Eo, Er, Em, Ems, En.
  split_and!; [done.. | apply length_map | | ].
  - intros m0 Hin Hne. by apply (update_match_other db (mkMatch _ _ _ _ _ _ _)).
  - eexists. rewrite <- app_assoc. split; [done|]. simpl. rewrite Hu, Hu2.
    split; [done|]. by repeat constructor.
Qed.

Lemma reject_ok_inv now db match_id current_user resp db' :
  reject_match now db match_id current_user = (Ok resp, db') ->
  exists m o r,
    get_match db match_id = Some m /\
    get_offer db (m_offer_id m) = Some o /\
    get_request db (m_request_id m) = Some r /\
    touches_only_the_match db db' match_id
      [if bool_decide (r_user_id r = u_id current_user)
       then o_user_id o else r_user_id r].
Proof.
  intros H. unfold reject_match in H.
  destruct (get_match db match_id) as [m|] eqn:Hm; [|discriminate].
  destruct (get_match_In _ _ _ Hm) as [_ <-].
  destruct (get_offer db (m_offer_id m)) as [o|] eqn:Ho;
    destruct (get_request db (m_request_id m)) as [r|] eqn:Hr;
    repeat case_bool_decide; simpl in H; try discriminate;
    destruct (non_terminal (m_status m)); simpl in H; try discriminate;
    unfold mbind, result_bind in H;
    (destruct (_send_match_email _ _ _ _ _ _) as [db2|] eqn:He; [|discriminate]);
    apply email_to in He as (u & Hu & Eu & Eo & Er & Em & Ems & En);
    simplify_eq; apply get_user_id in Hu;
    exists m, o, r; (split_and!; [done..|]);
    unfold touches_only_the_match; rewrite Eu, Eo, Er, Em, Ems, En;
    (split_and!;
     [ done.. | apply length_map
     | intros m0 Hin Hne; by apply (update_match_other db (mkMatch _ _ _ _ _ _ _))
     | eexists; split; [done|]; simpl; rewrite Hu;
       split; [case_bool_decide; (done || congruence)|];
       by repeat constructor ]).
Qed.

End TransitionEffects.

(** X5. A transition that succeeds has found the match, its offer and its
    request; it leaves the users, offers, requests and messages as they
    were, keeps every other match, and appends unread notifications: one
    for the requester after [accept], one for the owner of the offer and
    one for the requester after [confirm], one for the other party after
    [reject]. *)
Theorem successful_transition_notifies_the_parties
    (a : action) (now : Z) (db : Db) (match_id : nat) (current_user : User)
    (resp : Transition) (db' : Db) :
  transition a now db match_id current_user = (Ok resp, db') ->
  exists m o r,
    get_match db match_id = Some m /\
    get_offer db (m_offer_id m) = Some o /\
    get_request db (m_request_id m) = Some r /\
    touches_only_the_match db db' match_id
      match a with
      | Accept => [r_user_id r]
      | Confirm => [o_user_id o; r_user_id r]
      | Reject => [if bool_decide (r_user_id r = u_id current_user)
                   then o_user_id o else r_user_id r]
      end.
Proof.
  destruct a; simpl.
  - apply accept_ok_inv.
  - apply confirm_ok_inv.
  - apply reject_ok_inv.
Qed.

Lemma successful_transition_notifies_the_parties_witness :
  transition Confirm 3 Examples.db_accepted 1 Examples.bob
    = (Ok (Confirmed 1 "alice@example.com" "bob@example.com"),
       Examples.db_confirmed) /\
  exists m o r,
    get_match Examples.db_accepted 1 = Some m /\
    get_offer Examples.db_accepted (m_offer_id m) = Some o /\
    get_request Examples.db_accepted (m_request_id m) = Some r /\
    touches_only_the_match Examples.db_accepted Examples.db_confirmed 1
      [o_user_id o; r_user_id r].
Proof.
  assert (H : transition Confirm 3 Examples.db_accepted 1 Examples.bob
              = (Ok (Confirmed 1 "alice@example.com" "bob@example.com"),
                 Examples.db_confirmed)) by (vm_compute; reflexivity).
  split; [exact H|].
  exact (successful_transition_notifies_the_parties Confirm 3 Examples.db_accepted
           1 Examples.bob _ _ H).
Defined.

Section Stranded.

Implicit Types (db : Db) (current_user : User).

(** A handler that raises has committed nothing. *)
Lemma transition_raise_unchanged a now db match_id current_user e db' :
  transition a now db match_id current_user = (Raise e, db') -> db' = db.
Proof.
  destruct a; simpl; unfold accept_match, confirm_match, reject_match;
    intros H; repeat case_match; by simplify_eq.
Qed.

Lemma transition_fails_without_rows a now db match_id current_user m :
  get_match db match_id = Some m ->
  get_offer db (m_offer_id m) = None \/ get_request db (m_request_id m) = None ->
  fails (transition a now db match_id current_user).1 /\
  (transition a now db match_id current_user).2 = db.
Proof.
  intros Hm Hgone.
  destruct (transition a now db match_id current_user) as [[resp|e] db'] eqn:H.
  - exfalso.
    assert (exists m' o r, get_match db match_id = Some m' /\
                           get_offer db (m_offer_id m') = Some o /\
                           get_request db (m_request_id m') = Some r)
      as (m' & o & r & Hm' & Ho & Hr).
    { destruct a; simpl in H;
        [apply accept_ok_inv in H | apply confirm_ok_inv in H
        | apply reject_ok_inv in H];
        destruct H as (m' & o & r & ? & ? & ? & _); by exists m', o, r. }
    rewrite Hm in Hm'. simplify_eq. destruct Hgone; congruence.
  - simpl. split; [by eexists|]. by eapply transition_raise_unchanged.
Qed.

Lemma find_filter_other {A : Type} (p q : A -> bool) (l : list A) :
  (forall a, p a = true -> q a = true) ->
  List.find p (List.filter q l) = List.find p l.
Proof.
  intros Hpq. induction l as [|a l IH]; simpl; [done|].
  destruct (q a) eqn:Eq; simpl.
  - by rewrite IH.
  - destruct (p a) eqn:Ep; [|done]. rewrite (Hpq a Ep) in Eq. discriminate.
Qed.

Lemma find_filter_gone {A : Type} (p q : A -> bool) (l : list A) :
  (forall a, p a = true -> q a = false) ->
  List.find p (List.filter q l) = None.
Proof.
  intros Hpq. induction l as [|a l IH]; simpl; [done|].
  destruct (q a) eqn:Eq; simpl; [|done].
  destruct (p a) eqn:Ep; [|done]. rewrite (Hpq a Ep) in Eq. discriminate.
Qed.

Lemma get_offer_remove_offer reuse db ident j :
  get_offer (remove_offer reuse db ident) j
  = if decide (j = ident) then None else get_offer db j.
Proof.
  unfold get_offer. simpl. case_decide as E.
  - subst j. apply find_filter_gone. intros a Ha.
    by rewrite Ha.
  - apply find_filter_other. intros a Ha.
    apply bool_decide_eq_true in Ha. apply negb_true_iff.
    apply bool_decide_eq_false. congruence.
Qed.


Lemma delete_offer_ok_inv fk db offer_id current_user db' :
  delete_offer fk db offer_id current_user = (Ok tt, db') ->
  db' = remove_offer (negb fk) db offer_id /\
  (exists o, get_offer db offer_id = Some o /\ o_user_id o = u_id current_user) /\
  (fk = true -> forall m, In m (matches db) -> m_offer_id m <> offer_id).
Proof.
  unfold delete_offer. intros H.
  destruct (get_offer db offer_id) as [o|] eqn:Eo; [|discriminate].
  case_bool_decide as Hown; [discriminate|].
  destruct (fk && existsb _ _) eqn:Efk; [discriminate|].
  simplify_eq. split; [done|]. split; [by eauto|].
  intros -> m Hin Em. simpl in Efk.
  assert (Hex : existsb (fun m => bool_decide (m_offer_id m = offer_id))
                        (matches db) = true).
  { apply existsb_exists. exists m. split; [done|]. by apply bool_decide_eq_true_2. }
  congruence.
Qed.


End Stranded.

(** X6. When the offer or the request a match refers to is missing from
    the store, no [accept], [confirm] or [reject] on that match succeeds,
    whoever calls, and the store is left as it was. *)
Theorem match_without_its_rows_allows_no_transition
    (a : action) (now : Z) (db : Db) (match_id : nat) (current_user : User)
    (m : Match) :
  get_match db match_id = Some m ->
  get_offer db (m_offer_id m) = None \/ get_request db (m_request_id m) = None ->
  fails (transition a now db match_id current_user).1 /\
  (transition a now db match_id current_user).2 = db.
Proof. apply transition_fails_without_rows. Qed.

(** X7. [delete_offer] answers 404, changing nothing, when the offer is
    missing and when it belongs to someone else.  When it succeeds the
    offer can no longer be looked up, every other offer is looked up as
    before, and no other table has changed: the matches of the offer stay
    behind unless the store enforces foreign keys, in which case the offer
    had none. *)
Theorem delete_offer_outcomes
    (fk : bool) (db : Db) (offer_id : nat) (current_user : User) :
  ((forall o, get_offer db offer_id = Some o -> o_user_id o <> u_id current_user) ->
   not_found (delete_offer fk db offer_id current_user).1 /\
   (delete_offer fk db offer_id current_user).2 = db) /\
  (forall db',
     delete_offer fk db offer_id current_user = (Ok tt, db') ->
     get_offer db' offer_id = None /\
     (forall j, j <> offer_id -> get_offer db' j = get_offer db j) /\
     users db' = users db /\ requests db' = requests db /\
     matches db' = matches db /\ notifications db' = notifications db /\
     messages db' = messages db /\
     (fk = true -> forall m, In m (matches db) -> m_offer_id m <> offer_id)).
Proof.
  split.
  - intros Hno. unfold delete_offer.
    destruct (get_offer db offer_id) as [o|] eqn:Eo; simpl.
    + rewrite bool_decide_eq_true_2 by (by apply Hno). simpl.
      split; [by eexists|done].
    + split; [by eexists|done].
  - intros db' H. apply delete_offer_ok_inv in H as (-> & _ & Hfk).
    split_and!; try done.
    + rewrite get_offer_remove_offer. by rewrite decide_True.
    + intros j Hne. rewrite get_offer_remove_offer. by rewrite decide_False.
Qed.


(** ** Listings *)

Section Paging.

Context {A : Type}.

Implicit Types (rows : list A) (n k : Z).

Lemma page_sublist n k rows : limit n (offset k rows) `sublist_of` rows.
Proof.
  unfold limit, offset. case_bool_decide.
  - apply sublist_drop.
  - etrans; [apply sublist_take | apply sublist_drop].
Qed.

Lemma page_In n k rows x : In x (limit n (offset k rows)) -> In x rows.
Proof.
  rewrite <- !list_elem_of_In. intros H.
  eapply elem_of_sublist; [done | apply page_sublist].
Qed.

Lemma page_length n k rows :
  0 <= n -> (length (limit n (offset k rows)) <= Z.to_nat n)%nat.
Proof.
  intros Hn. unfold limit. rewrite bool_decide_eq_false_2 by lia.
  rewrite length_take. lia.
Qed.

(** The first page holds everything when it is large enough. *)
Lemma first_page_whole n rows :
  Z.of_nat (length rows) <= n -> limit n (offset ((1 - 1) * n) rows) = rows.
Proof.
  intros Hn. unfold limit, offset. simpl. rewrite drop_0.
  rewrite bool_decide_eq_false_2 by lia. apply take_ge. lia.
Qed.

(** Two neighbouring pages make one page of twice the size: nothing is
    skipped, nothing comes twice. *)
Lemma pages_pair_up k n rows :
  1 <= k -> 0 <= n ->
  limit n (offset ((2 * k - 1 - 1) * n) rows)
    ++ limit n (offset ((2 * k - 1) * n) rows)
  = limit (2 * n) (offset ((k - 1) * (2 * n)) rows).
Proof.
  intros Hk Hn. unfold limit, offset. rewrite !bool_decide_eq_false_2 by lia.
  replace (Z.to_nat ((2 * k - 1 - 1) * n))
    with (Z.to_nat ((k - 1) * (2 * n))) by (f_equal; lia).
  replace (Z.to_nat ((2 * k - 1) * n))
    with (Z.to_nat ((k - 1) * (2 * n)) + Z.to_nat n)%nat by nia.
  rewrite <- drop_drop, take_take_drop. f_equal. lia.
Qed.

Lemma StronglySorted_sublist (R : A -> A -> Prop) (l1 l2 : list A) :
  l1 `sublist_of` l2 -> StronglySorted R l2 -> StronglySorted R l1.
Proof.
  induction 1 as [|x l1 l2 Hs IH|x l1 l2 Hs IH]; intros Hsorted; [done| |].
  - apply StronglySorted_inv in Hsorted as [Hl2 Hx].
    constructor; [by apply IH|].
    apply Forall_forall. intros y Hy. rewrite Forall_forall in Hx.
    apply Hx. by eapply elem_of_sublist.
  - apply StronglySorted_inv in Hsorted as [Hl2 _]. by apply IH.
Qed.

Lemma StronglySorted_map {B : Type} (R : A -> A -> Prop) (S' : B -> B -> Prop)
    (f : A -> B) (l : list A) :
  (forall x y, R x y -> S' (f x) (f y)) ->
  StronglySorted R l -> StronglySorted S' (map f l).
Proof.
  intros Hf. induction 1 as [|x l Hl IH Hx]; simpl; constructor; [done|].
  apply Forall_forall. intros y Hy. apply list_elem_of_In, in_map_iff in Hy
    as (z & <- & Hz). apply Hf. rewrite Forall_forall in Hx. apply Hx.
  by apply list_elem_of_In.
Qed.

End Paging.

Section Orders.

#[local] Instance offer_asc_trans : Transitive offer_asc.
Proof. unfold offer_asc. intros a b c. lia. Qed.
#[local] Instance offer_asc_total : Total offer_asc.
Proof. unfold offer_asc. intros a b. lia. Qed.
#[local] Instance offer_desc_trans : Transitive offer_desc.
Proof. unfold offer_desc. intros a b c. lia. Qed.
#[local] Instance offer_desc_total : Total offer_desc.
Proof. unfold offer_desc. intros a b. lia. Qed.
#[local] Instance request_asc_trans : Transitive request_asc.
Proof. unfold request_asc. intros a b c. lia. Qed.
#[local] Instance request_asc_total : Total request_asc.
Proof. unfold request_asc. intros a b. lia. Qed.
#[local] Instance request_desc_trans : Transitive request_desc.
Proof. unfold request_desc. intros a b c. lia. Qed.
#[local] Instance request_desc_total : Total request_desc.
Proof. unfold request_desc. intros a b. lia. Qed.

Lemma my_offers_rows_sorted db current_user sort :
  StronglySorted (if startswith_dash sort then offer_desc else offer_asc)
                 (my_offers_rows db current_user sort).
Proof.
  unfold my_offers_rows. destruct (startswith_dash sort);
    apply StronglySorted_merge_sort; apply _.
Qed.

Lemma my_offers_rows_In db current_user sort o :
  In o (my_offers_rows db current_user sort) <->
  In o (offers db) /\ o_user_id o = u_id current_user.
Proof.
  unfold my_offers_rows. rewrite <- list_elem_of_In.
  destruct (startswith_dash sort); rewrite merge_sort_Permutation;
    by rewrite list_elem_of_In, filter_In, bool_decide_eq_true.
Qed.

Lemma my_offers_rows_length db current_user sort :
  length (my_offers_rows db current_user sort)
  = length (List.filter (fun o => bool_decide (o_user_id o = u_id current_user))
                        (offers db)).
Proof.
  unfold my_offers_rows.
  destruct (startswith_dash sort); by rewrite merge_sort_Permutation.
Qed.

Lemma my_requests_rows_sorted db current_user sort :
  StronglySorted (if startswith_dash sort then request_desc else request_asc)
                 (my_requests_rows db current_user sort).
Proof.
  unfold my_requests_rows. destruct (startswith_dash sort);
    apply StronglySorted_merge_sort; apply _.
Qed.

Lemma my_requests_rows_In db current_user sort r :
  In r (my_requests_rows db current_user sort) <->
  In r (requests db) /\ r_user_id r = u_id current_user.
Proof.
  unfold my_requests_rows. rewrite <- list_elem_of_In.
  destruct (startswith_dash sort); rewrite merge_sort_Permutation;
    by rewrite list_elem_of_In, filter_In, bool_decide_eq_true.
Qed.

Lemma my_requests_rows_length db current_user sort :
  length (my_requests_rows db current_user sort)
  = length (List.filter (fun r => bool_decide (r_user_id r = u_id current_user))
                        (requests db)).
Proof.
  unfold my_requests_rows.
  destruct (startswith_dash sort); by rewrite merge_sort_Permutation.
Qed.

End Orders.

(** X9. [my_offers] reports as [total] the number of the caller's offers,
    whatever the page; every item of the page is one of the caller's
    offers; the page holds at most [page_size] items when [page_size] is
    not negative; its items are ordered by [start_at], downwards when
    [sort] starts with a dash and upwards otherwise; the first page holds
    them all when [page_size] reaches [total]; and pages [2k-1] and [2k]
    together are page [k] of twice the size. *)
Theorem my_offers_lists_own_offers_in_order
    (db : Db) (current_user : User) (page page_size : Z) (sort : string) :
  let pg := my_offers db current_user page page_size sort in
  pg_total pg
  = length (List.filter (fun o => bool_decide (o_user_id o = u_id current_user))
                        (offers db)) /\
  (forall item, In item (pg_items pg) ->
     exists o, In o (offers db) /\ o_user_id o = u_id current_user /\
               item = mkSlotOut (o_id o) (o_start_at o) (o_end_at o)) /\
  (0 <= page_size -> (length (pg_items pg) <= Z.to_nat page_size)%nat) /\
  StronglySorted
    (fun a b => if startswith_dash sort then so_start_at b <= so_start_at a
                else so_start_at a <= so_start_at b)
    (pg_items pg) /\
  (page = 1 -> Z.of_nat (pg_total pg) <= page_size ->
   length (pg_items pg) = pg_total pg) /\
  (forall k, 1 <= k -> 0 <= page_size ->
     pg_items (my_offers db current_user (2 * k - 1) page_size sort)
       ++ pg_items (my_offers db current_user (2 * k) page_size sort)
     = pg_items (my_offers db current_user k (2 * page_size) sort)).
Proof.
  intros pg. subst pg. unfold my_offers. cbn [pg_total pg_items].
  split_and!; [| | | | |
    by intros k Hk Hps; rewrite <- map_app, pages_pair_up].
  - apply my_offers_rows_length.
  - intros item Hin. apply in_map_iff in Hin as (o & <- & Hin).
    apply page_In, my_offers_rows_In in Hin as [Hin Hown]. by exists o.
  - intros Hps. rewrite length_map. by apply page_length.
  - eapply StronglySorted_map;
      [|eapply StronglySorted_sublist;
         [apply page_sublist | apply my_offers_rows_sorted]].
    intros x y. by destruct (startswith_dash sort).
  - intros -> Hall. rewrite length_map. by rewrite first_page_whole.
Qed.

(** X10. [my_requests] does for the caller's requests what [my_offers]
    does for the offers: [total] counts them all, the page holds only
    requests of the caller, at most [page_size] of them, ordered by
    [start_at] as [sort] says, the first page holds them all when
    [page_size] reaches [total], and pages [2k-1] and [2k] together are
    page [k] of twice the size. *)
Theorem my_requests_lists_own_requests_in_order
    (db : Db) (current_user : User) (page page_size : Z) (sort : string) :
  let pg := my_requests db current_user page page_size sort in
  pg_total pg
  = length (List.filter (fun r => bool_decide (r_user_id r = u_id current_user))
                        (requests db)) /\
  (forall item, In item (pg_items pg) ->
     exists r, In r (requests db) /\ r_user_id r = u_id current_user /\
               item = mkSlotOut (r_id r) (r_start_at r) (r_end_at r)) /\
  (0 <= page_size -> (length (pg_items pg) <= Z.to_nat page_size)%nat) /\
  StronglySorted
    (fun a b => if startswith_dash sort then so_start_at b <= so_start_at a
                else so_start_at a <= so_start_at b)
    (pg_items pg) /\
  (page = 1 -> Z.of_nat (pg_total pg) <= page_size ->
   length (pg_items pg) = pg_total pg) /\
  (forall k, 1 <= k -> 0 <= page_size ->
     pg_items (my_requests db current_user (2 * k - 1) page_size sort)
       ++ pg_items (my_requests db current_user (2 * k) page_size sort)
     = pg_items (my_requests db current_user k (2 * page_size) sort)).
Proof.
  intros pg. subst pg. unfold my_requests. cbn [pg_total pg_items].
  split_and!; [| | | | |
    by intros k Hk Hps; rewrite <- map_app, pages_pair_up].
  - apply my_requests_rows_length.
  - intros item Hin. apply in_map_iff in Hin as (r & <- & Hin).
    apply page_In, my_requests_rows_In in Hin as [Hin Hown]. by exists r.
  - intros Hps. rewrite length_map. by apply page_length.
  - eapply StronglySorted_map;
      [|eapply StronglySorted_sublist;
         [apply page_sublist | apply my_requests_rows_sorted]].
    intros x y. by destruct (startswith_dash sort).
  - intros -> Hall. rewrite length_map. by rewrite first_page_whole.
Qed.

Section MatchListings.

Implicit Types (db : Db) (current_user : User).

#[local] Instance created_desc_trans : Transitive created_desc.
Proof. unfold created_desc. intros a b c. lia. Qed.
#[local] Instance created_desc_total : Total created_desc.
Proof. unfold created_desc. intros a b. lia. Qed.
#[local] Instance updated_desc_trans : Transitive updated_desc.
Proof. unfold updated_desc. intros a b c. lia. Qed.
#[local] Instance updated_desc_total : Total updated_desc.
Proof. unfold updated_desc. intros a b. lia. Qed.

Lemma transition_ok_rows a now db match_id current_user resp db' :
  transition a now db match_id current_user = (Ok resp, db') ->
  exists m o r,
    get_match db match_id = Some m /\
    get_offer db (m_offer_id m) = Some o /\
    get_request db (m_request_id m) = Some r /\
    offers db' = offers db /\ requests db' = requests db /\
    matches db' = matches (update_match db (row_after a now m (r_user_id r))).
Proof.
  intros H.
  assert (exists m o r, get_match db match_id = Some m /\
                        get_offer db (m_offer_id m) = Some o /\
                        get_request db (m_request_id m) = Some r /\
                        offers db' = offers db /\ requests db' = requests db)
    as (m & o & r & Hm & Ho & Hr & Eo & Er).
  { destruct a; simpl in H;
      [apply accept_ok_inv in H | apply confirm_ok_inv in H
      | apply reject_ok_inv in H];
      destruct H as (m & o & r & ? & ? & ? & _ & ? & ? & _); by exists m, o, r. }
  exists m, o, r. split_and!; [done..|].
  destruct a; simpl in H; unfold accept_match, confirm_match, reject_match in H;
    rewrite Hm in H; handler_cases; email_sent; reflexivity.
Qed.

Lemma pending_item db current_user page page_size item :
  In item (pg_items (get_pending_matches db current_user page page_size)) ->
  exists m, In m (pending_rows db current_user) /\ item = match_item db None m.
Proof.
  unfold get_pending_matches. cbn [pg_items]. intros Hin.
  apply in_map_iff in Hin as (m & <- & Hin). exists m. split; [|done].
  apply page_In in Hin. apply list_elem_of_In in Hin.
  rewrite merge_sort_Permutation in Hin. by apply list_elem_of_In.
Qed.

Lemma pending_rows_In db current_user m :
  In m (pending_rows db current_user) <->
  In m (matches db) /\
  m_pending_user_id m = Some (u_id current_user) /\
  non_terminal (m_status m) = true /\
  is_Some (get_offer db (m_offer_id m)) /\
  is_Some (get_request db (m_request_id m)).
Proof.
  unfold pending_rows, joined.
  rewrite filter_In, !andb_true_iff, !bool_decide_eq_true. tauto.
Qed.

End MatchListings.

(** X11. After a successful transition on a match, [get_pending_matches]
    shows that match to nobody if the transition was [confirm] or
    [reject]; after [accept] it shows it, as accepted, to the requester
    and to nobody else. *)
Theorem pending_list_follows_the_transition
    (a : action) (now : Z) (db : Db) (match_id : nat) (current_user : User)
    (resp : Transition) (db' : Db) :
  transition a now db match_id current_user = (Ok resp, db') ->
  exists m r,
    get_match db match_id = Some m /\
    get_request db (m_request_id m) = Some r /\
    (forall viewer page page_size item,
       In item (pg_items (get_pending_matches db' viewer page page_size)) ->
       mi_id item = match_id ->
       a = Accept /\ u_id viewer = r_user_id r /\ mi_status item = "accepted") /\
    (a = Accept ->
     forall viewer, u_id viewer = r_user_id r ->
       exists item,
         In item (pg_items (get_pending_matches db' viewer 1
                              (Z.of_nat (length (matches db'))))) /\
         mi_id item = match_id).
Proof.
  intros H.
  destruct (transition_ok_rows _ _ _ _ _ _ _ H)
    as (m & o & r & Hm & Ho & Hr & Eo & Er & Ems).
  destruct (get_match_In _ _ _ Hm) as [Hin Hid].
  exists m, r. split_and!; [done..| |].
  - intros viewer page page_size item Hitem Eid.
    apply pending_item in Hitem as (m' & Hm' & ->). simpl in Eid.
    apply pending_rows_In in Hm' as (Hin' & Hp & Hnt & _).
    rewrite Ems in Hin'. apply update_match_rows in Hin' as [->|[_ Hne]].
    + destruct a; simpl in *; try discriminate.
      split_and!; [done | congruence | done].
    + simpl in Hne. congruence.
  - intros -> viewer Hv.
    set (m' := row_after Accept now m (r_user_id r)).
    assert (Hrow : In m' (pending_rows db' viewer)).
    { apply pending_rows_In. split_and!.
      - rewrite Ems. simpl. apply in_map_iff. exists m. split; [|done].
        by rewrite bool_decide_eq_true_2.
      - simpl. by rewrite Hv.
      - done.
      - rewrite (get_offer_same_table db db') by done. simpl. by rewrite Ho.
      - rewrite (get_request_same_table db db') by done. simpl. by rewrite Hr. }
    exists (match_item db' None m'). split; [|by simpl].
    unfold get_pending_matches. cbn [pg_items]. apply in_map.
    rewrite first_page_whole.
    + apply list_elem_of_In. rewrite merge_sort_Permutation.
      by apply list_elem_of_In.
    + rewrite merge_sort_Permutation. unfold pending_rows.
      pose proof (filter_length_le
                    (fun m0 => bool_decide (m_pending_user_id m0 = Some (u_id viewer))
                               && non_terminal (m_status m0) && joined db' m0)
                    (matches db')).
      lia.
Qed.

Lemma my_matches_item db current_user page page_size status_filter item :
  In item (pg_items (get_my_matches db current_user page page_size status_filter)) ->
  exists m, In m (my_matches_rows db current_user status_filter) /\
            item = match_item db (Some current_user) m.
Proof.
  unfold get_my_matches. cbn [pg_items]. intros Hin.
  apply in_map_iff in Hin as (m & <- & Hin). exists m. split; [|done].
  apply page_In in Hin. apply list_elem_of_In in Hin.
  rewrite merge_sort_Permutation in Hin. by apply list_elem_of_In.
Qed.

Lemma my_matches_rows_In db current_user status_filter m :
  In m (my_matches_rows db current_user status_filter) ->
  In m (matches db) /\
  exists o r, get_offer db (m_offer_id m) = Some o /\
              get_request db (m_request_id m) = Some r /\
              (o_user_id o = u_id current_user \/ r_user_id r = u_id current_user).
Proof.
  unfold my_matches_rows. intros Hin.
  assert (Hq : In m (List.filter
                       (fun m => match get_offer db (m_offer_id m),
                                       get_request db (m_request_id m) with
                                 | Some o, Some r =>
                                     bool_decide (o_user_id o = u_id current_user)
                                     || bool_decide (r_user_id r = u_id current_user)
                                 | _, _ => false
                                 end) (matches db))).
  { destruct status_filter as [s|]; [|done].
    case_bool_decide; [done|]. by apply filter_In in Hin as [Hin _]. }
  apply filter_In in Hq as [Hm Hp]. split; [done|].
  destruct (get_offer db (m_offer_id m)) as [o|]; [|done].
  destruct (get_request db (m_request_id m)) as [r|]; [|done].
  exists o, r. rewrite orb_true_iff, !bool_decide_eq_true in Hp. done.
Qed.

(** X12. Every item of [get_my_matches] is a match whose offer or request
    is the caller's, and is flagged so; a match whose two rows exist is in
    the unfiltered selection of both its parties; an empty
    [status_filter] filters nothing; and a [status_filter] that is no
    status value gives an empty page with [total = 0]. *)
Theorem my_matches_lists_the_matches_of_both_parties
    (db : Db) (current_user : User) (page page_size : Z) :
  (forall status_filter item,
     In item (pg_items (get_my_matches db current_user page page_size
                                        status_filter)) ->
     mi_is_my_offer item = Some true \/ mi_is_my_request item = Some true) /\
  (forall m o r,
     In m (matches db) ->
     get_offer db (m_offer_id m) = Some o ->
     get_request db (m_request_id m) = Some r ->
     o_user_id o = u_id current_user \/ r_user_id r = u_id current_user ->
     In m (my_matches_rows db current_user None)) /\
  get_my_matches db current_user page page_size (Some "")
  = get_my_matches db current_user page page_size None /\
  (forall s, s <> "" -> (forall st, value st <> s) ->
     pg_items (get_my_matches db current_user page page_size (Some s)) = [] /\
     pg_total (get_my_matches db current_user page page_size (Some s)) = 0%nat).
Proof.
  split_and!.
  - intros status_filter item Hin.
    apply my_matches_item in Hin as (m & Hm & ->).
    apply my_matches_rows_In in Hm as (_ & o & r & Ho & Hr & [E|E]); simpl;
      rewrite ?Ho, ?Hr; [left|right]; by rewrite bool_decide_eq_true_2.
  - intros m o r Hin Ho Hr Hparty. unfold my_matches_rows.
    apply filter_In. split; [done|]. rewrite Ho, Hr.
    by rewrite orb_true_iff, !bool_decide_eq_true.
  - done.
  - intros s Hs Hno.
    assert (Hnil : my_matches_rows db current_user (Some s) = []).
    { unfold my_matches_rows. rewrite bool_decide_eq_false_2 by done.
      match goal with |- List.filter ?p ?l = [] =>
        destruct (List.filter p l) as [|m rest] eqn:E; [done|];
        assert (Hin : In m (List.filter p l)) by (rewrite E; by left)
      end.
      apply filter_In in Hin as [_ Hv]. apply bool_decide_eq_true in Hv.
      by destruct (Hno (m_status m)). }
    unfold get_my_matches. rewrite Hnil. cbn [pg_items pg_total].
    split; [|done]. change (merge_sort updated_desc []) with (@nil Match).
    unfold limit, offset. rewrite drop_nil.
    case_bool_decide; by rewrite ?take_nil.
Qed.

(** ** Reading messages *)

Section ReadingOne.

Implicit Types (db : Db) (current_user : User).

Lemma find_replaced_other (l : list Message) (m' : Message) (j : nat) :
  j <> msg_id m' ->
  List.find (fun a => bool_decide (msg_id a = j))
    (map (fun a => if bool_decide (msg_id a = msg_id m') then m' else a) l)
  = List.find (fun a => bool_decide (msg_id a = j)) l.
Proof.
  intros Hj. induction l as [|a l IH]; simpl; [done|].
  destruct (decide (msg_id a = msg_id m')) as [E|E].
  - rewrite (bool_decide_eq_true_2 _ E).
    rewrite !bool_decide_eq_false_2 by congruence. apply IH.
  - rewrite (bool_decide_eq_false_2 _ E). by rewrite IH.
Qed.

Lemma find_replaced_same (l : list Message) (m' : Message) :
  is_Some (List.find (fun a => bool_decide (msg_id a = msg_id m')) l) ->
  List.find (fun a => bool_decide (msg_id a = msg_id m'))
    (map (fun a => if bool_decide (msg_id a = msg_id m') then m' else a) l)
  = Some m'.
Proof.
  induction l as [|a l IH]; simpl.
  - intros [? ?]; discriminate.
  - destruct (bool_decide (msg_id a = msg_id m')) eqn:E; simpl.
    + intros _. by rewrite bool_decide_eq_true_2.
    + rewrite E. apply IH.
Qed.

Lemma get_message_update db m' j :
  is_Some (get_message db (msg_id m')) ->
  get_message (update_message db m') j
  = if decide (j = msg_id m') then Some m' else get_message db j.
Proof.
  intros Hsome. unfold get_message. simpl. case_decide as Ej.
  - subst j. by apply find_replaced_same.
  - by apply find_replaced_other.
Qed.

(** With distinct keys, the update changes the one row it was given. *)
Lemma unread_after_update (p : Message -> bool) (l : list Message) (m m' : Message) :
  List.NoDup (map msg_id l) ->
  List.find (fun a => bool_decide (msg_id a = msg_id m')) l = Some m ->
  p m' = false ->
  (length (List.filter p
             (map (fun a => if bool_decide (msg_id a = msg_id m') then m' else a) l))
   + (if p m then 1 else 0))%nat
  = length (List.filter p l).
Proof.
  intros Hnd Hfind Hp'. induction l as [|a l IH]; simpl in *; [discriminate|].
  apply List.NoDup_cons_iff in Hnd as [Ha Hnd].
  case_bool_decide as E.
  - simplify_eq. rewrite Hp'.
    assert (Hid : map (fun a => if bool_decide (msg_id a = msg_id m') then m' else a) l
                  = l).
    { clear IH Hnd. induction l as [|b l IH]; simpl; [done|].
      rewrite bool_decide_eq_false_2.
      - f_equal. apply IH. intros Hin. apply Ha. by right.
      - intros Eb. apply Ha. left. congruence. }
    rewrite Hid. destruct (p m); simpl; lia.
  - specialize (IH Hnd Hfind). destruct (p a); simpl; lia.
Qed.

End ReadingOne.

(** X13. [mark_message_as_read] answers 404 for a missing message and 403
    to anyone but the recipient, writing nothing.  For the recipient it
    succeeds: the message is then read, every other message is looked up
    as before, and, keys being distinct, the number of unread messages the
    recipient has from any user is what it was, less one for the sender if
    the message was unread. *)
Theorem mark_message_as_read_outcomes
    (db : Db) (message_id : nat) (current_user : User) :
  let out := mark_message_as_read db message_id current_user in
  (get_message db message_id = None -> not_found out.1 /\ out.2 = db) /\
  (forall m, get_message db message_id = Some m ->
     msg_recipient_id m <> u_id current_user ->
     authorization_denied out.1 /\ out.2 = db) /\
  (forall m, get_message db message_id = Some m ->
     msg_recipient_id m = u_id current_user ->
     (exists resp, out.1 = Ok resp /\ resp_is_read resp = true /\
                   resp_id resp = message_id) /\
     get_message out.2 message_id
     = Some (mkMessage (msg_id m) (msg_sender_id m) (msg_recipient_id m)
                       (msg_content m) true (msg_created_at m)) /\
     (forall j, j <> message_id -> get_message out.2 j = get_message db j) /\
     (List.NoDup (map msg_id (messages db)) ->
      forall other,
        (length (List.filter (unread_from (u_id current_user) other)
                             (messages out.2))
         + (if unread_from (u_id current_user) other m then 1 else 0))%nat
        = length (List.filter (unread_from (u_id current_user) other)
                              (messages db)))).
Proof.
  intros out. subst out. unfold mark_message_as_read. split_and!.
  - intros ->. simpl. split; [by eexists|done].
  - intros m -> Hne. rewrite bool_decide_eq_true_2 by done. simpl.
    split; [by eexists|done].
  - intros m Hm Hrec. rewrite Hm. rewrite bool_decide_eq_false_2 by (by intros ?).
    cbn [fst snd].
    assert (Hid : msg_id m = message_id).
    { unfold get_message in Hm. apply find_some in Hm as [_ Hm].
      by apply bool_decide_eq_true in Hm. }
    set (m' := mkMessage (msg_id m) (msg_sender_id m) (msg_recipient_id m)
                         (msg_content m) true (msg_created_at m)).
    assert (Hsome : is_Some (get_message db (msg_id m')))
      by (simpl; rewrite Hid, Hm; by eexists).
    split_and!.
    + eexists. split; [done|]. by simpl.
    + rewrite get_message_update by done. rewrite decide_True; [done|by simpl].
    + intros j Hj. rewrite get_message_update by done.
      rewrite decide_False; [done|simpl; congruence].
    + intros Hnd other. simpl.
      apply (unread_after_update _ (messages db) m m' Hnd).
      * unfold get_message in Hm. simpl. by rewrite Hid.
      * unfold unread_from. simpl. by rewrite andb_false_r.
Qed.

Section Conversations.

Implicit Types (db : Db) (current_user : User).

#[local] Instance newer_trans : Transitive newer.
Proof. unfold newer. intros a b c. lia. Qed.
#[local] Instance newer_total : Total newer.
Proof. unfold newer. intros a b. lia. Qed.
#[local] Instance more_recent_trans : Transitive more_recent.
Proof. unfold more_recent. intros a b c. lia. Qed.
#[local] Instance more_recent_total : Total more_recent.
Proof. unfold more_recent. intros a b. lia. Qed.

Lemma newest_first_sorted (rows : list Message) :
  StronglySorted newer (newest_first rows).
Proof. apply StronglySorted_merge_sort; apply _. Qed.

Lemma newest_first_In (rows : list Message) m :
  In m (newest_first rows) <-> In m rows.
Proof.
  unfold newest_first. rewrite <- !list_elem_of_In.
  by rewrite merge_sort_Permutation.
Qed.

(** The head of the ordered conversation is one of its messages, and none
    is more recent. *)
Lemma newest_first_head_max (rows : list Message) last_msg :
  head (newest_first rows) = Some last_msg ->
  In last_msg rows /\
  forall m, In m rows -> msg_created_at m <= msg_created_at last_msg.
Proof.
  intros Hhead. pose proof (newest_first_sorted rows) as Hs.
  assert (Hall : forall m, In m (newest_first rows) ->
                           msg_created_at m <= msg_created_at last_msg).
  { destruct (newest_first rows) as [|a l]; [discriminate|].
    simpl in Hhead. simplify_eq.
    apply StronglySorted_inv in Hs as [_ Hl]. rewrite Forall_forall in Hl.
    intros m [<-|Hin]; [lia|]. apply Hl. by apply list_elem_of_In. }
  split.
  - apply newest_first_In. destruct (newest_first rows); [discriminate|].
    simpl in Hhead. simplify_eq. by left.
  - intros m Hin. apply Hall. by apply newest_first_In.
Qed.

Lemma conversation_with_last db current_user other c :
  conversation_with db current_user other = Some c ->
  is_Some (get_user db other) /\
  exists last_msg,
    In last_msg (messages db) /\
    between (u_id current_user) other last_msg = true /\
    last_message c = preview (msg_content last_msg) /\
    last_message_at c = msg_created_at last_msg /\
    forall m, In m (messages db) -> between (u_id current_user) other m = true ->
              msg_created_at m <= last_message_at c.
Proof.
  unfold conversation_with. intros H.
  destruct (get_user db other) as [ou|]; [|discriminate].
  destruct (head _) as [last_msg|] eqn:Hhead; [|discriminate].
  apply newest_first_head_max in Hhead as [Hin Hmax].
  apply filter_In in Hin as [Hin Hb]. simplify_eq. simpl.
  split; [by eexists|]. exists last_msg. split_and!; [done..|].
  intros m Hm Hbm. apply Hmax. by apply filter_In.
Qed.

Lemma omap_keys {K V : Type} `{EqDecision K} (f : K -> option V) (g : V -> K)
    (l : list K) :
  (forall k v, f k = Some v -> g v = k) ->
  g <$> omap f l = filter (fun k => is_Some (f k)) l.
Proof.
  intros Hfg. induction l as [|k l IH]; [done|]. csimpl.
  destruct (f k) as [v|] eqn:E.
  - rewrite filter_cons_True by (rewrite E; by eexists). csimpl.
    by rewrite IH, (Hfg k v E).
  - rewrite filter_cons_False by (rewrite E; intros [? ?]; discriminate). done.
Qed.

Lemma list_conversations_counterparts db current_user :
  NoDup (other_user_id <$> list_conversations db current_user).
Proof.
  unfold list_conversations. rewrite merge_sort_Permutation.
  rewrite (omap_keys _ other_user_id).
  - apply NoDup_filter, NoDup_elements.
  - intros k c Hc. by apply conversation_with_inv in Hc as [? _].
Qed.

Lemma list_conversations_sorted db current_user :
  StronglySorted more_recent (list_conversations db current_user).
Proof. unfold list_conversations. apply StronglySorted_merge_sort; apply _. Qed.

End Conversations.

(** X14. [list_conversations] gives one entry per counterpart, most
    recent conversation first.  An entry counts exactly the unread
    messages the counterpart sent to the caller, and shows the preview and
    the time of a message of the conversation that none of its messages is
    later than.  Every known user the caller has exchanged a message with
    has an entry. *)
Theorem list_conversations_summarises_each_counterpart
    (db : Db) (current_user : User) :
  let conversations := list_conversations db current_user in
  NoDup (other_user_id <$> conversations) /\
  StronglySorted (fun x y => last_message_at y <= last_message_at x)
                 conversations /\
  (forall c, c ∈ conversations ->
     is_Some (get_user db (other_user_id c)) /\
     unread_count c
     = length (List.filter (unread_from (u_id current_user) (other_user_id c))
                           (messages db)) /\
     exists last_msg,
       In last_msg (messages db) /\
       between (u_id current_user) (other_user_id c) last_msg = true /\
       last_message c = preview (msg_content last_msg) /\
       last_message_at c = msg_created_at last_msg /\
       forall m, In m (messages db) ->
                 between (u_id current_user) (other_user_id c) m = true ->
                 msg_created_at m <= last_message_at c) /\
  (forall m other,
     In m (messages db) -> between (u_id current_user) other m = true ->
     is_Some (get_user db other) ->
     exists c, c ∈ conversations /\ other_user_id c = other).
Proof.
  intros conversations. subst conversations. split_and!.
  - apply list_conversations_counterparts.
  - exact (list_conversations_sorted db current_user).
  - intros c Hc. apply list_conversations_elem in Hc as (other & _ & Hc).
    pose proof (conversation_with_inv _ _ _ _ Hc) as [Eo Eu].
    pose proof (conversation_with_last _ _ _ _ Hc) as [Hu Hlast].
    rewrite Eo. by split_and!.
  - intros m other Hin Hb [ou Hu].
    destruct (newest_first_head
                (List.filter (between (u_id current_user) other) (messages db)) m)
      as [last_msg Hlast].
    { apply list_elem_of_In, filter_In. by split. }
    eexists. split.
    + apply list_conversations_elem. exists other. split.
      * exists m. split; [by apply list_elem_of_In|]. by apply between_spec.
      * unfold conversation_with. by rewrite Hu, Hlast.
    + done.
Qed.

Section Threads.

Implicit Types (db : Db) (current_user : User).

#[local] Instance newer_trans' : Transitive newer.
Proof. unfold newer. intros a b c. lia. Qed.
#[local] Instance newer_total' : Total newer.
Proof. unfold newer. intros a b. lia. Qed.

Lemma thread_rows_sorted (rows : list Message) n k :
  StronglySorted newer (limit n (offset k (newest_first rows))).
Proof.
  eapply StronglySorted_sublist; [apply page_sublist|].
  apply StronglySorted_merge_sort; apply _.
Qed.

Lemma mark_read_from_twice me other db :
  mark_read_from me other (mark_read_from me other db) = mark_read_from me other db.
Proof.
  unfold mark_read_from. simpl. f_equal. rewrite map_map.
  apply map_ext. intros m. destruct (unread_from me other m) eqn:E; [|by rewrite E].
  unfold unread_from. simpl. by rewrite andb_false_r.
Qed.

Lemma mark_read_from_rows me other db :
  Forall2 (fun m m' =>
             m' = (if unread_from me other m
                   then mkMessage (msg_id m) (msg_sender_id m) (msg_recipient_id m)
                                  (msg_content m) true (msg_created_at m)
                   else m))
          (messages db) (messages (mark_read_from me other db)).
Proof.
  simpl. induction (messages db) as [|m l IH]; simpl; constructor; done.
Qed.

End Threads.

(** X15. [get_conversation_thread] answers 404 for an unknown user and
    then marks nothing.  Otherwise every message of the page is one
    exchanged between the two users, shown as it was before the marking;
    the page is ordered newest first and holds at most [page_size]
    messages when [page_size] is not negative.  In the store, a row is
    changed only if it was an unread message from the other user to the
    caller, and only in its read flag; and fetching again changes nothing
    more. *)
Theorem thread_page_and_marking
    (db : Db) (other_id : string) (current_user : User) (page page_size : Z) :
  let out := get_conversation_thread db other_id current_user page page_size in
  (get_user db other_id = None -> not_found out.1 /\ out.2 = db) /\
  (forall responses, out.1 = Ok responses ->
     (forall resp, In resp responses ->
        exists m, In m (messages db) /\
                  between (u_id current_user) other_id m = true /\
                  resp_id resp = msg_id m /\
                  resp_sender_id resp = msg_sender_id m /\
                  resp_recipient_id resp = msg_recipient_id m /\
                  resp_content resp = msg_content m /\
                  resp_is_read resp = msg_is_read m /\
                  resp_created_at resp = msg_created_at m) /\
     StronglySorted (fun a b => resp_created_at b <= resp_created_at a) responses /\
     (0 <= page_size -> (length responses <= Z.to_nat page_size)%nat) /\
     Forall2 (fun m m' =>
                m' = (if unread_from (u_id current_user) other_id m
                      then mkMessage (msg_id m) (msg_sender_id m)
                                     (msg_recipient_id m) (msg_content m) true
                                     (msg_created_at m)
                      else m))
             (messages db) (messages out.2)) /\
  (get_conversation_thread out.2 other_id current_user page page_size).2 = out.2.
Proof.
  intros out. subst out. unfold get_conversation_thread.
  destruct (get_user db other_id) as [other_user|] eqn:Hu; cbn [fst snd].
  - change (get_user (mark_read_from _ _ db) other_id) with (get_user db other_id).
    rewrite Hu. cbn [snd]. split_and!.
    + discriminate.
    + intros responses [= <-]. split_and!.
      * intros resp Hin. apply in_map_iff in Hin as (m & <- & Hin).
        apply page_In, newest_first_In, filter_In in Hin as [Hin Hb].
        exists m. by split_and!.
      * eapply StronglySorted_map; [|apply thread_rows_sorted]. by intros x y.
      * intros Hps. rewrite length_map. by apply page_length.
      * apply mark_read_from_rows.
    + apply mark_read_from_twice.
  - rewrite Hu. cbn [snd]. split_and!.
    + intros _. split; [by eexists|done].
    + discriminate.
    + done.
Qed.

(** X16. After a successful [send_message] by a known user, the
    recipient's [list_conversations] has an entry for the sender whose
    [unread_count] is the number of unread messages the sender had already
    sent to the recipient, plus one, and whose last message is no older
    than the one just sent. *)
Theorem sending_raises_the_unread_count_by_one
    (now loop_time : Z) (broken : gset nat) (db : Db) (net : Net)
    (message_data : MessageCreate) (current_user recipient : User)
    (resp : MessageResponse) (db' : Db) (net' : Net) :
  send_message now loop_time broken db net message_data current_user
    = (Ok resp, db', net') ->
  is_Some (get_user db (u_id current_user)) ->
  u_id recipient = recipient_id message_data ->
  exists c,
    c ∈ list_conversations db' recipient /\
    other_user_id c = u_id current_user /\
    unread_count c
    = S (length (List.filter (unread_from (u_id recipient) (u_id current_user))
                             (messages db))) /\
    now <= last_message_at c.
Proof.
  intros H [su Hsu] Hrec. unfold send_message in H.
  destruct (get_user db (recipient_id message_data)) as [ru|] eqn:Hru;
    [|discriminate].
  case_bool_decide as Hself; [discriminate|]. simplify_eq.
  set (m := mkMessage (next_message_id db) (u_id current_user)
              (recipient_id message_data) (content message_data) false now).
  set (db' := insert_message db m).
  assert (Hin : In m (messages db')) by (simpl; apply in_or_app; right; by left).
  assert (Hb : between (u_id recipient) (u_id current_user) m = true).
  { apply between_spec. right. by rewrite Hrec. }
  destruct (newest_first_head
              (List.filter (between (u_id recipient) (u_id current_user))
                           (messages db')) m) as [last_msg Hlast].
  { apply list_elem_of_In, filter_In. by split. }
  assert (Hc : exists c, conversation_with db' recipient (u_id current_user) = Some c).
  { unfold conversation_with.
    change (get_user db' (u_id current_user)) with (get_user db (u_id current_user)).
    rewrite Hsu, Hlast. by eexists. }
  destruct Hc as [c Hc]. exists c.
  pose proof (conversation_with_inv _ _ _ _ Hc) as [Eo Eu].
  pose proof (conversation_with_last _ _ _ _ Hc) as (_ & lm & _ & _ & _ & _ & Hmax).
  split_and!.
  - apply list_conversations_elem. exists (u_id current_user). split; [|done].
    exists m. split; [by apply list_elem_of_In|]. right. by rewrite Hrec.
  - done.
  - rewrite Eu. simpl. rewrite List.filter_app, length_app. simpl.
    unfold unread_from at 2. simpl.
    rewrite !bool_decide_eq_true_2 by done. simpl. lia.
  - by apply (Hmax m).
Qed.

(** ** The registry under broadcast and under the endpoint *)

Section RegistryMore.

Implicit Types (ac : gmap string (gset nat)) (broken conns : gset nat) (net : Net).

Lemma disconnect_lookup_eq user_id websocket ac :
  disconnect user_id websocket ac !! user_id
  = match ac !! user_id with
    | Some conns =>
        if decide (conns ∖ {[websocket]} = ∅) then None
        else Some (conns ∖ {[websocket]})
    | None => None
    end.
Proof.
  unfold disconnect. destruct (ac !! user_id) as [conns|] eqn:E; [|done].
  case_decide; [apply lookup_delete_eq | apply lookup_insert_eq].
Qed.

Lemma connections_of_nonempty ac user_id conns :
  no_empty_entry ac -> connections_of ac user_id = conns -> conns <> ∅ ->
  ac !! user_id = Some conns.
Proof.
  unfold connections_of. intros Hinv <- Hne.
  destruct (ac !! user_id); [done|]. by destruct Hne.
Qed.

Lemma connections_of_empty ac user_id :
  no_empty_entry ac -> connections_of ac user_id = ∅ -> ac !! user_id = None.
Proof.
  unfold connections_of. intros Hinv E.
  destruct (ac !! user_id) as [c|] eqn:Ec; [|done].
  simpl in E. subst c. by destruct (Hinv _ _ Ec).
Qed.



End RegistryMore.


Section RoundTrip.

Implicit Types (ac : gmap string (gset nat)).

Lemma disconnect_connect user_id websocket ac :
  no_empty_entry ac ->
  websocket ∉ connections_of ac user_id ->
  disconnect user_id websocket (connect user_id websocket ac) = ac.
Proof.
  intros Hinv Hnin. apply map_eq. intros k.
  destruct (decide (k = user_id)) as [->|Hne].
  - rewrite disconnect_lookup_eq, connect_lookup.
    fold (connections_of ac user_id).
    assert (E : (connections_of ac user_id ∪ {[websocket]}) ∖ {[websocket]}
                = connections_of ac user_id) by set_solver.
    rewrite E. case_decide as He.
    + symmetry. by apply connections_of_empty.
    + symmetry. by apply connections_of_nonempty.
  - by rewrite disconnect_lookup_ne, connect_lookup_ne.
Qed.

Lemma disconnect_unregistered user_id websocket ac :
  no_empty_entry ac ->
  websocket ∉ connections_of ac user_id ->
  disconnect user_id websocket ac = ac.
Proof.
  intros Hinv Hnin. unfold disconnect, connections_of in *.
  destruct (ac !! user_id) as [c|] eqn:E; [|done]. simpl in Hnin.
  assert (Ec : c ∖ {[websocket]} = c) by set_solver. rewrite Ec.
  rewrite decide_False by (by eapply Hinv). by apply insert_id.
Qed.

Lemma connect_twice user_id websocket ac :
  connect user_id websocket (connect user_id websocket ac)
  = connect user_id websocket ac.
Proof.
  apply map_eq. intros k. destruct (decide (k = user_id)) as [->|Hne].
  - rewrite !connect_lookup. simpl. f_equal. set_solver.
  - by rewrite !connect_lookup_ne.
Qed.

Lemma disconnect_twice user_id websocket ac :
  disconnect user_id websocket (disconnect user_id websocket ac)
  = disconnect user_id websocket ac.
Proof.
  apply map_eq. intros k. destruct (decide (k = user_id)) as [->|Hne].
  - rewrite !disconnect_lookup_eq.
    destruct (ac !! user_id) as [c|]; [|done].
    case_decide as He; [done|].
    assert (Ec : c ∖ {[websocket]} ∖ {[websocket]} = c ∖ {[websocket]}) by set_solver.
    rewrite Ec. by rewrite decide_False.
  - by rewrite !disconnect_lookup_ne.
Qed.

End RoundTrip.

(** X18. In a registry without empty entries, registering a connection
    that was not registered and then unregistering it gives the registry
    back, and unregistering a connection that is not registered changes
    nothing; registering twice is registering once, and unregistering
    twice is unregistering once. *)
Theorem connect_then_disconnect_restores_the_registry
    (user_id : string) (websocket : nat) (ac : gmap string (gset nat)) :
  no_empty_entry ac ->
  (websocket ∉ connections_of ac user_id ->
   disconnect user_id websocket (connect user_id websocket ac) = ac /\
   disconnect user_id websocket ac = ac) /\
  connect user_id websocket (connect user_id websocket ac)
  = connect user_id websocket ac /\
  disconnect user_id websocket (disconnect user_id websocket ac)
  = disconnect user_id websocket ac.
Proof.
  intros Hinv. split_and!.
  - intros Hnin. split; [by apply disconnect_connect|by apply disconnect_unregistered].
  - apply connect_twice.
  - apply disconnect_twice.
Qed.

Section Session.


End Session.


Section NotificationRows.

Implicit Types (db : Db) (current_user : User) (n : Notification).

#[local] Instance notified_desc_trans : Transitive notified_desc.
Proof. intros a b c. unfold notified_desc. lia. Qed.

#[local] Instance notified_desc_total : Total notified_desc.
Proof. intros a b. unfold notified_desc. lia. Qed.

Lemma my_notifications_items_sorted db current_user page page_size unread_only :
  StronglySorted (fun a b => no_created_at b <= no_created_at a)
    (pg_items (my_notifications db current_user page page_size unread_only)).
Proof.
  unfold my_notifications. cbn [pg_items].
  eapply StronglySorted_map;
    [|eapply StronglySorted_sublist;
       [apply page_sublist | apply (StronglySorted_merge_sort notified_desc)]].
  by intros x y.
Qed.

Lemma my_notifications_rows_In db current_user unread_only n :
  In n (my_notifications_rows db current_user unread_only) <->
  In n (notifications db) /\ n_user_id n = u_id current_user /\
  (unread_only = true -> n_is_read n = false).
Proof.
  unfold my_notifications_rows. destruct unread_only.
  - rewrite !filter_In, bool_decide_eq_true, negb_true_iff. naive_solver.
  - rewrite filter_In, bool_decide_eq_true. naive_solver.
Qed.

Lemma get_notification_Some db i n :
  get_notification db i = Some n -> In n (notifications db) /\ n_id n = i.
Proof.
  unfold get_notification. intros H. apply find_some in H as [Hin Hid].
  by apply bool_decide_eq_true in Hid.
Qed.

Lemma find_notification_replaced_other (l : list Notification) n' j :
  j <> n_id n' ->
  List.find (fun a => bool_decide (n_id a = j))
    (map (fun a => if bool_decide (n_id a = n_id n') then n' else a) l)
  = List.find (fun a => bool_decide (n_id a = j)) l.
Proof.
  intros Hj. induction l as [|a l IH]; simpl; [done|].
  destruct (decide (n_id a = n_id n')) as [E|E].
  - rewrite (bool_decide_eq_true_2 _ E).
    rewrite !bool_decide_eq_false_2 by congruence. apply IH.
  - rewrite (bool_decide_eq_false_2 _ E). by rewrite IH.
Qed.

Lemma find_notification_replaced_same (l : list Notification) n' :
  is_Some (List.find (fun a => bool_decide (n_id a = n_id n')) l) ->
  List.find (fun a => bool_decide (n_id a = n_id n'))
    (map (fun a => if bool_decide (n_id a = n_id n') then n' else a) l)
  = Some n'.
Proof.
  induction l as [|a l IH]; simpl.
  - intros [? ?]; discriminate.
  - destruct (bool_decide (n_id a = n_id n')) eqn:E; simpl.
    + intros _. by rewrite bool_decide_eq_true_2.
    + rewrite E. apply IH.
Qed.

(** Rows that are rewritten only where [touched] holds look the same to
    a selection that passes over the touched rows, before and after. *)
Lemma filter_map_untouched (p touched : Notification -> bool)
    (f : Notification -> Notification) (l : list Notification) :
  (forall a, In a l -> touched a = false -> f a = a) ->
  (forall a, In a l -> touched a = true -> p a = false /\ p (f a) = false) ->
  List.filter p (map f l) = List.filter p l.
Proof.
  induction l as [|a l IH]; intros Hsame Hout; simpl; [done|].
  rewrite IH;
    [|intros b Hb; apply Hsame; by right|intros b Hb; apply Hout; by right].
  destruct (touched a) eqn:E.
  - destruct (Hout a (or_introl eq_refl) E) as [-> ->]. done.
  - by rewrite (Hsame a (or_introl eq_refl) E).
Qed.

Lemma key_unique (l : list Notification) a b :
  List.NoDup (map n_id l) -> In a l -> In b l -> n_id a = n_id b -> a = b.
Proof.
  induction l as [|c l IH]; simpl; [done|].
  intros Hnd Ha Hb E. apply List.NoDup_cons_iff in Hnd as [Hc Hnd].
  destruct Ha as [->|Ha], Hb as [->|Hb]; [done| | |by apply IH].
  - destruct Hc. rewrite E. by apply in_map.
  - destruct Hc. rewrite <- E. by apply in_map.
Qed.

Lemma filter_map_kept (p : Notification -> bool)
    (f : Notification -> Notification) (l : list Notification) :
  (forall a, p (f a) = p a) ->
  List.filter p (map f l) = map f (List.filter p l).
Proof.
  intros Hp. induction l as [|a l IH]; simpl; [done|].
  rewrite Hp, IH. by destruct (p a).
Qed.

Lemma my_notifications_rows_length db current_user unread_only :
  length (my_notifications_rows db current_user unread_only)
  = length (List.filter
              (fun n => bool_decide (n_user_id n = u_id current_user)
                        && (negb unread_only || negb (n_is_read n)))
              (notifications db)).
Proof.
  unfold my_notifications_rows. f_equal.
  induction (notifications db) as [|a l IH]; simpl.
  - by destruct unread_only.
  - destruct unread_only; simpl in *.
    + destruct (bool_decide (n_user_id a = u_id current_user)); simpl; [|done].
      destruct (n_is_read a); simpl; by rewrite IH.
    + destruct (bool_decide (n_user_id a = u_id current_user)); simpl;
        by rewrite IH.
Qed.

End NotificationRows.

(** X20. [mark_read] passes over, with the answer "ignored" and the store
    as it was, a notification that is missing or belongs to someone else.
    Otherwise it answers "ok", and afterwards that notification is read
    and is otherwise the row it was, every other key gives the row it
    gave, and the rows keep their keys and their order; with distinct
    keys, what another user is listed is what it was. *)
Theorem mark_read_outcomes
    (db : Db) (notification_id : nat) (current_user : User) :
  let out := mark_read db notification_id current_user in
  match get_notification db notification_id with
  | None => out = ("ignored", db)
  | Some n =>
      if decide (n_user_id n = u_id current_user) then
        out.1 = "ok" /\
        get_notification out.2 notification_id = Some (marked_read n) /\
        (forall i, i <> notification_id ->
           get_notification out.2 i = get_notification db i) /\
        map n_id (notifications out.2) = map n_id (notifications db) /\
        (List.NoDup (map n_id (notifications db)) ->
         forall other page page_size unread_only,
           u_id other <> u_id current_user ->
           my_notifications out.2 other page page_size unread_only
           = my_notifications db other page page_size unread_only)
      else out = ("ignored", db)
  end.
Proof.
  intros out. subst out. unfold mark_read.
  destruct (get_notification db notification_id) as [n|] eqn:Eget; [|done].
  case_decide as Eown.
  - rewrite bool_decide_eq_false_2 by (intros H; by apply H).
    destruct (get_notification_Some _ _ _ Eget) as [Hin Hid].
    cbn [fst snd]. split_and!.
    + done.
    + unfold get_notification in *. simpl. rewrite <- Hid.
      apply (find_notification_replaced_same _ (marked_read n)).
      simpl. rewrite Hid, Eget. by eexists.
    + intros i Hi. unfold get_notification. simpl.
      apply (find_notification_replaced_other _ (marked_read n)).
      simpl. congruence.
    + simpl. rewrite map_map. apply map_ext. intros a.
      by case_bool_decide.
    + intros Hnd other page page_size unread_only Hother.
      unfold my_notifications, my_notifications_rows. simpl.
      set (f := fun n0 => if bool_decide (n_id n0 = n_id n) then marked_read n else n0).
      assert (Hf : List.filter (fun a => bool_decide (n_user_id a = u_id other))
                     (map f (notifications db))
                   = List.filter (fun a => bool_decide (n_user_id a = u_id other))
                       (notifications db)).
      { apply (filter_map_untouched _ (fun a => bool_decide (n_id a = n_id n))).
        - intros a _ E. unfold f. by rewrite E.
        - intros a Ha E. apply bool_decide_eq_true in E.
          assert (a = n) as -> by (by apply (key_unique (notifications db))).
          unfold f. rewrite (bool_decide_eq_true_2 (n_id n = n_id n)) by done.
          simpl. split; apply bool_decide_eq_false_2; congruence. }
      by rewrite Hf.
  - by rewrite bool_decide_eq_true_2.
Qed.

(** X21. [mark_all_read] answers "ok"; afterwards the user's list of
    unread notifications is empty, with a total of zero, while the user's
    full list has the total it had; what another user is listed is what
    it was; and marking all read once more changes nothing. *)
Theorem mark_all_read_clears_the_unread_list (db : Db) (current_user : User) :
  let out := mark_all_read db current_user in
  out.1 = "ok" /\
  (forall page page_size,
     let pg := my_notifications out.2 current_user page page_size true in
     pg_items pg = [] /\ pg_total pg = 0%nat) /\
  (forall page page_size,
     pg_total (my_notifications out.2 current_user page page_size false)
     = pg_total (my_notifications db current_user page page_size false)) /\
  (forall other page page_size unread_only,
     u_id other <> u_id current_user ->
     my_notifications out.2 other page page_size unread_only
     = my_notifications db other page page_size unread_only) /\
  (mark_all_read out.2 current_user).2 = out.2.
Proof.
  intros out. subst out. unfold mark_all_read. cbn [fst snd].
  set (f := fun n => if bool_decide (n_user_id n = u_id current_user)
                        && negb (n_is_read n)
                     then marked_read n else n).
  assert (Huser : forall a, n_user_id (f a) = n_user_id a).
  { intros a. unfold f. by destruct (_ && _). }
  assert (Hnone : List.filter (fun n => negb (n_is_read n))
                    (List.filter (fun n => bool_decide (n_user_id n = u_id current_user))
                       (map f (notifications db))) = []).
  { induction (notifications db) as [|a l IH]; simpl; [done|].
    rewrite Huser. destruct (bool_decide (n_user_id a = u_id current_user)) eqn:E;
      simpl; [|done].
    unfold f at 1. rewrite E. destruct (n_is_read a) eqn:Er; simpl;
      by rewrite ?Er. }
  split_and!.
  - done.
  - intros page page_size. unfold my_notifications, my_notifications_rows.
    cbn [pg_items pg_total set_notifications notifications]. rewrite Hnone.
    change (merge_sort notified_desc []) with (@nil Notification).
    unfold limit, offset. rewrite drop_nil. split; [|done].
    case_bool_decide; by rewrite ?take_nil.
  - intros page page_size. unfold my_notifications, my_notifications_rows.
    cbn [pg_total set_notifications notifications].
    rewrite filter_map_kept by (intros a; by rewrite Huser).
    by rewrite length_map.
  - intros other page page_size unread_only Hother.
    unfold my_notifications, my_notifications_rows.
    cbn [set_notifications notifications].
    assert (Hf : List.filter (fun a => bool_decide (n_user_id a = u_id other))
                   (map f (notifications db))
                 = List.filter (fun a => bool_decide (n_user_id a = u_id other))
                     (notifications db)).
    { apply (filter_map_untouched _
               (fun n => bool_decide (n_user_id n = u_id current_user)
                         && negb (n_is_read n))).
      - intros a _ E. unfold f. by rewrite E.
      - intros a _ E. apply andb_true_iff in E as [E _].
        apply bool_decide_eq_true in E. rewrite Huser.
        split; apply bool_decide_eq_false_2; congruence. }
    by rewrite Hf.
  - unfold set_notifications. simpl. f_equal. rewrite map_map.
    apply map_ext. intros a. fold f. unfold f at 1. rewrite Huser.
    destruct (bool_decide (n_user_id a = u_id current_user)) eqn:E; simpl; [|
      by unfold f; rewrite E].
    unfold f. rewrite E. by destruct (n_is_read a) eqn:Er; simpl; rewrite ?Er.
Qed.

(** X22. The page [my_notifications] returns: the total counts the
    user's notifications, only the unread ones when [unread_only] is
    set; every item is one of these; the items are at most [page_size]
    when it is not negative, and come newest first; and the first page
    holds them all when it is large enough. *)
Theorem my_notifications_lists_own_notifications_newest_first
    (db : Db) (current_user : User) (page page_size : Z) (unread_only : bool) :
  let pg := my_notifications db current_user page page_size unread_only in
  pg_total pg
  = length (List.filter
              (fun n => bool_decide (n_user_id n = u_id current_user)
                        && (negb unread_only || negb (n_is_read n)))
              (notifications db)) /\
  (forall item, In item (pg_items pg) ->
     exists n, In n (notifications db) /\ n_user_id n = u_id current_user /\
               (unread_only = true -> n_is_read n = false) /\
               item = mkNotificationOut (n_id n) (n_message n) (n_is_read n)
                                        (n_created_at n)) /\
  (0 <= page_size -> (length (pg_items pg) <= Z.to_nat page_size)%nat) /\
  StronglySorted (fun a b => no_created_at b <= no_created_at a) (pg_items pg) /\
  (page = 1 -> Z.of_nat (pg_total pg) <= page_size ->
   length (pg_items pg) = pg_total pg).
Proof.
  intros pg. split_and!.
  - apply my_notifications_rows_length.
  - subst pg. unfold my_notifications. cbn [pg_items].
    intros item Hin. apply in_map_iff in Hin as (n & <- & Hin).
    apply page_In in Hin. rewrite <- list_elem_of_In in Hin.
    rewrite merge_sort_Permutation in Hin. rewrite list_elem_of_In in Hin.
    apply my_notifications_rows_In in Hin as (Hin & Hown & Hunread).
    by exists n.
  - subst pg. unfold my_notifications. cbn [pg_items].
    intros Hps. rewrite length_map. by apply page_length.
  - apply my_notifications_items_sorted.
  - subst pg. unfold my_notifications. cbn [pg_items pg_total].
    intros -> Hall. rewrite length_map, first_page_whole.
    + by rewrite merge_sort_Permutation.
    + by rewrite merge_sort_Permutation.
Qed.

(** X23. With both months between 1 and 12, [Dog.age_years] is the number
    of whole years in the calendar months from the birth month to today's
    month, and zero for a birth month that is still to come. *)
Theorem age_years_counts_whole_years
    (today_year today_month : Z) (dog : Dog) :
  1 <= today_month <= 12 -> 1 <= d_birth_month dog <= 12 ->
  age_years today_year today_month dog
  = Z.max 0 (months_since_birth today_year today_month dog / 12).
Proof.
  intros Ht Hb. unfold age_years, months_since_birth. f_equal.
  case_bool_decide as E.
  - apply Z.div_unique with (r := 12 + today_month - d_birth_month dog); lia.
  - apply Z.div_unique with (r := today_month - d_birth_month dog); lia.
Qed.

Section Previews.




End Previews.


(** * The properties at work on the scenarios *)

(** Bob withdrew his request: Alice can no longer reject the match. *)
Lemma match_without_its_rows_allows_no_transition_witness :
  fails (transition Reject 2 Scenarios.db_request_gone 1 Examples.alice).1 /\
  (transition Reject 2 Scenarios.db_request_gone 1 Examples.alice).2
  = Scenarios.db_request_gone.
Proof.
  assert (Hm : get_match Scenarios.db_request_gone 1 = Some Scenarios.pending_match)
    by (vm_compute; reflexivity).
  assert (Hr : get_request Scenarios.db_request_gone
                 (m_request_id Scenarios.pending_match) = None)
    by (vm_compute; reflexivity).
  exact (match_without_its_rows_allows_no_transition Reject 2
           Scenarios.db_request_gone 1 Examples.alice Scenarios.pending_match
           Hm (or_intror Hr)).
Defined.


(** Alice accepts: the match moves to Bob's pending list. *)
Lemma pending_list_follows_the_transition_witness :
  transition Accept 2 Examples.db_pending 1 Examples.alice
    = (Ok (Accepted 1 (Some "bob")), Examples.db_accepted) /\
  exists m r,
    get_match Examples.db_pending 1 = Some m /\
    get_request Examples.db_pending (m_request_id m) = Some r /\
    (forall viewer page page_size item,
       In item (pg_items (get_pending_matches Examples.db_accepted viewer
                            page page_size)) ->
       mi_id item = 1%nat ->
       Accept = Accept /\ u_id viewer = r_user_id r /\
       mi_status item = "accepted") /\
    (Accept = Accept ->
     forall viewer, u_id viewer = r_user_id r ->
       exists item,
         In item (pg_items (get_pending_matches Examples.db_accepted viewer 1
                              (Z.of_nat (length (matches Examples.db_accepted))))) /\
         mi_id item = 1%nat).
Proof.
  assert (H : transition Accept 2 Examples.db_pending 1 Examples.alice
              = (Ok (Accepted 1 (Some "bob")), Examples.db_accepted))
    by (vm_compute; reflexivity).
  split; [exact H|].
  exact (pending_list_follows_the_transition Accept 2 Examples.db_pending 1
           Examples.alice _ _ H).
Defined.

(** Bob's first message: Alice's conversation with Bob shows one unread
    message. *)
Lemma sending_raises_the_unread_count_by_one_witness :
  exists c,
    c ∈ list_conversations Examples.chat_1.1.2 Examples.alice /\
    other_user_id c = "bob" /\
    unread_count c
    = S (length (List.filter (unread_from "alice" "bob")
                             (messages Examples.db_users))) /\
    5 <= last_message_at c.
Proof.
  assert (H : send_message 5 0 {[1%nat]} Examples.db_users Examples.net_two_users
                Examples.hello Examples.bob
              = (Ok Scenarios.hello_response, Examples.chat_1.1.2, Examples.chat_1.2))
    by reflexivity.
  assert (Hu : is_Some (get_user Examples.db_users (u_id Examples.bob)))
    by (eexists; vm_compute; reflexivity).
  exact (sending_raises_the_unread_count_by_one 5 0 {[1%nat]} Examples.db_users
           Examples.net_two_users Examples.hello Examples.bob Examples.alice
           _ _ _ H Hu eq_refl).
Defined.

(** A third connection of Alice comes and goes. *)
Lemma connect_then_disconnect_restores_the_registry_witness :
  no_empty_entry (active_connections Examples.net_two_users) /\
  (4%nat ∉ connections_of (active_connections Examples.net_two_users) "alice" ->
   disconnect "alice" 4
     (connect "alice" 4 (active_connections Examples.net_two_users))
   = active_connections Examples.net_two_users /\
   disconnect "alice" 4 (active_connections Examples.net_two_users)
   = active_connections Examples.net_two_users).
Proof.
  assert (Hinv : no_empty_entry (active_connections Examples.net_two_users)).
  { apply run_ops_no_empty_entry. intros u conns. simpl.
    by rewrite lookup_empty. }
  split; [exact Hinv|].
  destruct (connect_then_disconnect_restores_the_registry "alice" 4
              (active_connections Examples.net_two_users) Hinv) as [H _].
  exact H.
Defined.

(** In March 2026 a dog born in July 2020 is five. *)
Lemma age_years_counts_whole_years_witness :
  age_years 2026 3 Scenarios.rex = 5.
Proof.
  rewrite (age_years_counts_whole_years 2026 3 Scenarios.rex);
    [reflexivity | lia | simpl; lia].
Defined.

(** The offer of the pending match is Alice's: Bob is answered 404, and
    Alice's deletion leaves the match behind. *)
Lemma delete_offer_outcomes_witness :
  not_found (delete_offer false Examples.db_pending 1 Examples.bob).1 /\
  get_offer Scenarios.db_offer_gone 1 = None /\
  matches Scenarios.db_offer_gone = matches Examples.db_pending.
Proof.
  destruct (delete_offer_outcomes false Examples.db_pending 1 Examples.bob)
    as [H1 _].
  destruct (delete_offer_outcomes false Examples.db_pending 1 Examples.alice)
    as [_ H2].
  split.
  - apply H1. intros o Ho. vm_compute in Ho. by simplify_eq.
  - assert (Hd : delete_offer false Examples.db_pending 1 Examples.alice
                 = (Ok tt, Scenarios.db_offer_gone)) by (vm_compute; reflexivity).
    destruct (H2 _ Hd) as (Ha & _ & _ & _ & Hm & _). by split.
Defined.

(** Alice reads the first of Bob's two messages: one stays unread. *)
Lemma mark_message_as_read_outcomes_witness :
  (exists resp,
     (mark_message_as_read Examples.db_chat 1 Examples.alice).1 = Ok resp /\
     resp_is_read resp = true /\ resp_id resp = 1%nat) /\
  (length (List.filter (unread_from "alice" "bob")
             (messages (mark_message_as_read Examples.db_chat 1 Examples.alice).2))
   + 1)%nat
  = 2%nat /\
  authorization_denied (mark_message_as_read Examples.db_chat 1 Examples.bob).1.
Proof.
  assert (Hm : get_message Examples.db_chat 1
               = Some (mkMessage 1 "bob" "alice" "Read me!" false 5))
    by (vm_compute; reflexivity).
  destruct (mark_message_as_read_outcomes Examples.db_chat 1 Examples.alice)
    as (_ & _ & Hok).
  destruct (mark_message_as_read_outcomes Examples.db_chat 1 Examples.bob)
    as (_ & Hno & _).
  destruct (Hok _ Hm eq_refl) as (Hresp & _ & _ & Hcount).
  split; [exact Hresp|]. split.
  - apply (Hcount ltac:(vm_compute; repeat constructor; set_solver) "bob").
  - apply (Hno _ Hm). done.
Defined.


(** Alice marks her notification read; Bob's attempt on it is ignored. *)
Lemma mark_read_outcomes_witness :
  (mark_read Examples.db_accepted 1 Examples.alice).1 = "ok" /\
  get_notification (mark_read Examples.db_accepted 1 Examples.alice).2 1
  = Some Scenarios.read_notice /\
  mark_read Examples.db_accepted 1 Examples.bob = ("ignored", Examples.db_accepted).
Proof.
  pose proof (mark_read_outcomes Examples.db_accepted 1 Examples.alice) as Ha.
  pose proof (mark_read_outcomes Examples.db_accepted 1 Examples.bob) as Hb.
  cbv zeta in Ha, Hb.
  assert (Hn : get_notification Examples.db_accepted 1
               = Some (mkNotification 1 "alice" "Regami - Nouvelle demande de garde"
                                      false 1))
    by (vm_compute; reflexivity).
  rewrite Hn in Ha, Hb.
  rewrite decide_True in Ha by reflexivity.
  rewrite decide_False in Hb by (simpl; discriminate).
  destruct Ha as (Hok & Hget & _).
  split; [exact Hok|]. split; [exact Hget|exact Hb].
Defined.
